(** * Playwright userscript manager: match patterns, catalog, injection plan,
      storage bridge and the GM_xmlhttpRequest bridge

    A shallow embedding of [userscript-runner.js], of the bridge functions of
    [main.js] and of the request, storage and tab functions of
    [gm-api-polyfill.js], followed by the properties that were checked
    against it.

    Conventions of the embedding.
    - A JavaScript string is a [string]; one [ascii] stands for one code unit
      (code units above 255 are outside the model).
    - A JavaScript exception is explicit: fallible code returns a [completion],
      and [try_catch] is the [try { } catch (e) { }] statement.
    - [console.*] output is not part of the state, except where a result
      constructor records which message was logged. *)

From Stdlib Require Import ZArith Lia Ascii String List Bool.
From stdpp Require Import base gmap strings list.

Local Open Scope char_scope.

(** ** Exceptions *)

Inductive exn : Type :=
| TypeError
| SyntaxError
| AbortError
| ErrorMsg (msg : string).

Inductive completion (A : Type) : Type :=
| Normal (a : A)
| Throw (e : exn).
Arguments Normal {A} a.
Arguments Throw {A} e.

Definition cbind {A B} (m : completion A) (k : A → completion B) : completion B :=
  match m with
  | Normal a => k a
  | Throw e => Throw e
  end.

Definition try_catch {A} (body : completion A) (handler : exn → completion A)
  : completion A :=
  match body with
  | Normal a => Normal a
  | Throw e => handler e
  end.

#[global] Instance completion_ret : MRet completion := λ A a, Normal a.
#[global] Instance completion_bind : MBind completion := λ A B k m, cbind m k.

(** ** String primitives of the host language *)

Module JS.

(** Line terminators: the characters [.] does not match. *)
Definition isLineTerminator (c : ascii) : bool :=
  let n := nat_of_ascii c in (n =? 10)%nat || (n =? 13)%nat.

(** White space in the sense of [\s] and of [String.prototype.trim]. *)
Definition isWhiteSpace (c : ascii) : bool :=
  let n := nat_of_ascii c in
  ((9 <=? n)%nat && (n <=? 13)%nat) || (n =? 32)%nat || (n =? 160)%nat.

Definition isAsciiAlnum (c : ascii) : bool :=
  let n := nat_of_ascii c in
  ((48 <=? n)%nat && (n <=? 57)%nat)
  || ((65 <=? n)%nat && (n <=? 90)%nat)
  || ((97 <=? n)%nat && (n <=? 122)%nat).

Definition mem (c : ascii) (cs : list ascii) : bool :=
  existsb (Ascii.eqb c) cs.

(** [s.startsWith(p)] *)
Fixpoint startsWith (s p : string) : bool :=
  match p, s with
  | EmptyString, _ => true
  | String _ _, EmptyString => false
  | String a p', String b s' => Ascii.eqb a b && startsWith s' p'
  end.

(** [s.endsWith(p)] *)
Definition endsWith (s p : string) : bool :=
  startsWith (String.rev s) (String.rev p).

(** [s.includes(sub)] *)
Fixpoint includes (s sub : string) : bool :=
  startsWith s sub ||
  match s with
  | EmptyString => false
  | String _ s' => includes s' sub
  end.

(** [s.substring(n)] *)
Fixpoint substring (n : nat) (s : string) : string :=
  match n, s with
  | O, _ => s
  | S n', String _ s' => substring n' s'
  | S _, EmptyString => EmptyString
  end.

Fixpoint trimStart (s : string) : string :=
  match s with
  | String c s' => if isWhiteSpace c then trimStart s' else s
  | EmptyString => EmptyString
  end.

(** [s.trim()] *)
Definition trim (s : string) : string :=
  String.rev (trimStart (String.rev (trimStart s))).

(** Lower case of a code unit below 256: the letters A to Z, and the
    capital letters of the Latin-1 range. *)
Definition lowerChar (c : ascii) : ascii :=
  let n := nat_of_ascii c in
  if ((65 <=? n)%nat && (n <=? 90)%nat)
     || ((192 <=? n)%nat && (n <=? 222)%nat && negb (n =? 215)%nat)
  then ascii_of_nat (n + 32) else c.

(** [s.toLowerCase()] *)
Fixpoint toLowerCase (s : string) : string :=
  match s with
  | EmptyString => EmptyString
  | String c s' => String (lowerChar c) (toLowerCase s')
  end.

(** [s.split('\n')] *)
Fixpoint split_go (cur : string) (s : string) : list string :=
  match s with
  | EmptyString => [String.rev cur]
  | String c s' =>
      if Ascii.eqb c "010" then String.rev cur :: split_go EmptyString s'
      else split_go (String c cur) s'
  end.

Definition splitLines (s : string) : list string := split_go EmptyString s.

(** The characters of the class [[.+?^${}()|[\]\\]]. *)
Definition regExpSpecials : list ascii :=
  ["."; "+"; "?"; "^"; "$"; "{"; "}"; "("; ")"; "|"; "["; "]"; "\"].

(** [s.replace(/[.+?^${}()|[\]\\]/g, '\\$&')]: a backslash goes in front of
    every character of the class. *)
Fixpoint escapeSpecials (s : string) : string :=
  match s with
  | EmptyString => EmptyString
  | String c s' =>
      if mem c regExpSpecials then String "\" (String c (escapeSpecials s'))
      else String c (escapeSpecials s')
  end.

(** [s.replace(/\*/g, '.*')] *)
Fixpoint replaceStars (s : string) : string :=
  match s with
  | EmptyString => EmptyString
  | String c s' =>
      if Ascii.eqb c "*" then String "." (String "*" (replaceStars s'))
      else String c (replaceStars s')
  end.

End JS.

(** ** Regular expressions

    The fragment of the RegExp pattern language that the match-pattern
    compiler emits, with the semantics of [RegExp.prototype.test] (no flags):
    whether some substring is matched. Only the accepted language matters for
    [test], so greedy and lazy quantifiers, capturing and non-capturing groups
    are not distinguished. *)

Module RegExp.

Inductive regex : Type :=
| RFail                                   (* matches nothing *)
| REmpty                                  (* the empty pattern *)
| RChar (c : ascii)                       (* a literal character *)
| RDot                                    (* [.] *)
| RClass (neg : bool) (items : list ascii) (* [[...]] and [[^...]] *)
| RBol                                    (* [^] *)
| REol                                    (* [$] *)
| RSeq (r1 r2 : regex)
| RAlt (r1 r2 : regex)
| RStar (r : regex)
| RPlus (r : regex)
| ROpt (r : regex).

(** [nullable bol eol r]: [r] matches the empty string at a position that is
    the start of the input iff [bol], the end of the input iff [eol]. *)
Fixpoint nullable (bol eol : bool) (r : regex) : bool :=
  match r with
  | RFail => false
  | REmpty => true
  | RChar _ | RDot | RClass _ _ => false
  | RBol => bol
  | REol => eol
  | RSeq r1 r2 => nullable bol eol r1 && nullable bol eol r2
  | RAlt r1 r2 => nullable bol eol r1 || nullable bol eol r2
  | RStar _ => true
  | RPlus r1 => nullable bol eol r1
  | ROpt _ => true
  end.

Definition seq (r1 r2 : regex) : regex :=
  match r1, r2 with
  | RFail, _ => RFail
  | _, RFail => RFail
  | REmpty, _ => r2
  | _, _ => RSeq r1 r2
  end.

Definition alt (r1 r2 : regex) : regex :=
  match r1, r2 with
  | RFail, _ => r2
  | _, RFail => r1
  | _, _ => RAlt r1 r2
  end.

Definition charMatches (c : ascii) (r : regex) : bool :=
  match r with
  | RChar d => Ascii.eqb c d
  | RDot => negb (JS.isLineTerminator c)
  | RClass neg items => xorb neg (JS.mem c items)
  | _ => false
  end.

(** [deriv bol c r]: what remains to be matched after [r] has consumed [c] at
    a position that is the start of the input iff [bol]. *)
Fixpoint deriv (bol : bool) (c : ascii) (r : regex) : regex :=
  match r with
  | RFail | REmpty | RBol | REol => RFail
  | RChar _ | RDot | RClass _ _ => if charMatches c r then REmpty else RFail
  | RSeq r1 r2 =>
      alt (seq (deriv bol c r1) r2)
          (if nullable bol false r1 then deriv bol c r2 else RFail)
  | RAlt r1 r2 => alt (deriv bol c r1) (deriv bol c r2)
  | RStar r1 => seq (deriv bol c r1) (RStar r1)
  | RPlus r1 => seq (deriv bol c r1) (RStar r1)
  | ROpt r1 => deriv bol c r1
  end.

(** A match of [r] starts at the current position and ends somewhere in [s]. *)
Fixpoint matchesHere (bol : bool) (r : regex) (s : list ascii) : bool :=
  match s with
  | [] => nullable bol true r
  | c :: s' => nullable bol false r || matchesHere false (deriv bol c r) s'
  end.

Fixpoint searchFrom (bol : bool) (r : regex) (s : list ascii) : bool :=
  matchesHere bol r s ||
  match s with
  | [] => false
  | _ :: s' => searchFrom false r s'
  end.

(** [r.test(s)] *)
Definition test (r : regex) (s : string) : bool :=
  searchFrom true r (list_ascii_of_string s).

(** *** What a pattern matches

    [Match bol eol r s]: the pattern [r] matches the characters [s], where
    [bol] tells whether the match starts at the start of the input and [eol]
    whether it ends at the end of the input. The reference for [test]. *)

Definition isNil (s : list ascii) : bool :=
  match s with [] => true | _ => false end.

Inductive Match : bool → bool → regex → list ascii → Prop :=
| M_Empty bol eol : Match bol eol REmpty []
| M_Char bol eol c : Match bol eol (RChar c) [c]
| M_Dot bol eol c : JS.isLineTerminator c = false → Match bol eol RDot [c]
| M_Class bol eol neg items c :
    xorb neg (JS.mem c items) = true → Match bol eol (RClass neg items) [c]
| M_Bol eol : Match true eol RBol []
| M_Eol bol : Match bol true REol []
| M_Seq bol eol r1 r2 s1 s2 :
    Match bol (eol && isNil s2) r1 s1 → Match (bol && isNil s1) eol r2 s2 →
    Match bol eol (RSeq r1 r2) (s1 ++ s2)
| M_AltL bol eol r1 r2 s : Match bol eol r1 s → Match bol eol (RAlt r1 r2) s
| M_AltR bol eol r1 r2 s : Match bol eol r2 s → Match bol eol (RAlt r1 r2) s
| M_StarNil bol eol r : Match bol eol (RStar r) []
| M_StarApp bol eol r s1 s2 :
    Match bol (eol && isNil s2) r s1 → Match (bol && isNil s1) eol (RStar r) s2 →
    Match bol eol (RStar r) (s1 ++ s2)
| M_Plus bol eol r s1 s2 :
    Match bol (eol && isNil s2) r s1 → Match (bol && isNil s1) eol (RStar r) s2 →
    Match bol eol (RPlus r) (s1 ++ s2)
| M_OptNil bol eol r : Match bol eol (ROpt r) []
| M_OptOne bol eol r s : Match bol eol r s → Match bol eol (ROpt r) s.

(** *** The constructor [new RegExp(source)]

    The pattern source is read left to right by a machine with a stack of
    open groups. Syntax that the match-pattern compiler cannot emit (braced
    quantifiers, class ranges, character-class escapes, look-around, named
    groups) is reported as [Unsupported], apart from the early errors of the
    language, which are [SyntaxErr]; [unsupported_free] below shows that the
    compiler never reaches [Unsupported]. *)

Inductive parseError : Type := SyntaxErr | Unsupported.

(** What the last term of the current alternative allows after it. *)
Inductive lastTerm : Type :=
| NoTerm        (* nothing to repeat *)
| Atom          (* a quantifier may follow *)
| Quantified.   (* only the lazy mark [?] may follow *)

Record frame : Type := Frame {
  alts : list regex;     (* finished alternatives, last first *)
  terms : list regex;    (* terms of the current alternative, last first *)
  lastT : lastTerm
}.

Inductive mode : Type :=
| MNormal
| MEscape                                      (* after a backslash *)
| MGroupOpen                                   (* after [(] *)
| MGroupQ                                      (* after [(?] *)
| MClassOpen                                   (* after [[] *)
| MClass (neg : bool) (items : list ascii)      (* inside a class *)
| MClassEscape (neg : bool) (items : list ascii).

Record pstate : Type := PState {
  pmode : mode;
  cur : frame;
  stack : list frame
}.

Definition emptyFrame : frame := Frame [] [] NoTerm.

Definition buildSeq (ts : list regex) : regex :=
  fold_left (fun acc t => match acc with REmpty => t | _ => RSeq t acc end)
            ts REmpty.

Definition buildFrame (f : frame) : regex :=
  fold_left (fun acc a => RAlt a acc) (alts f) (buildSeq (terms f)).

Definition pushTerm (t : regex) (l : lastTerm) (f : frame) : frame :=
  Frame (alts f) (t :: terms f) l.

Definition quantify (q : regex → regex) (f : frame) : parseError + frame :=
  match lastT f, terms f with
  | Atom, t :: ts => inr (Frame (alts f) (q t :: ts) Quantified)
  | _, _ => inl SyntaxErr                      (* nothing to repeat *)
  end.

Definition stepNormal (st : pstate) (c : ascii) : parseError + pstate :=
  let f := cur st in
  let continue f' := inr (PState MNormal f' (stack st)) in
  if Ascii.eqb c "\" then inr (PState MEscape f (stack st))
  else if Ascii.eqb c "(" then inr (PState MGroupOpen f (stack st))
  else if Ascii.eqb c ")" then
    match stack st with
    | [] => inl SyntaxErr                      (* unmatched parenthesis *)
    | parent :: rest =>
        inr (PState MNormal (pushTerm (buildFrame f) Atom parent) rest)
    end
  else if Ascii.eqb c "|" then
    continue (Frame (buildSeq (terms f) :: alts f) [] NoTerm)
  else if Ascii.eqb c "*" then
    match quantify RStar f with inl e => inl e | inr f' => continue f' end
  else if Ascii.eqb c "+" then
    match quantify RPlus f with inl e => inl e | inr f' => continue f' end
  else if Ascii.eqb c "?" then
    match lastT f with
    | Quantified => continue (Frame (alts f) (terms f) NoTerm)  (* lazy mark *)
    | _ => match quantify ROpt f with inl e => inl e | inr f' => continue f' end
    end
  else if Ascii.eqb c "[" then inr (PState MClassOpen f (stack st))
  else if Ascii.eqb c "{" then inl Unsupported
  else if Ascii.eqb c "^" then continue (pushTerm RBol NoTerm f)
  else if Ascii.eqb c "$" then continue (pushTerm REol NoTerm f)
  else if Ascii.eqb c "." then continue (pushTerm RDot Atom f)
  else continue (pushTerm (RChar c) Atom f).

Definition stepClass (st : pstate) (neg : bool) (items : list ascii) (c : ascii)
  : parseError + pstate :=
  if Ascii.eqb c "]" then
    inr (PState MNormal (pushTerm (RClass neg items) Atom (cur st)) (stack st))
  else if Ascii.eqb c "\" then inr (PState (MClassEscape neg items) (cur st) (stack st))
  else if Ascii.eqb c "-" then inl Unsupported
  else inr (PState (MClass neg (items ++ [c])) (cur st) (stack st)).

Definition step (st : pstate) (c : ascii) : parseError + pstate :=
  match pmode st with
  | MNormal => stepNormal st c
  | MEscape =>
      if JS.isAsciiAlnum c then inl Unsupported
      else inr (PState MNormal (pushTerm (RChar c) Atom (cur st)) (stack st))
  | MGroupOpen =>
      if Ascii.eqb c "?" then inr (PState MGroupQ (cur st) (stack st))
      else stepNormal (PState MNormal emptyFrame (cur st :: stack st)) c
  | MGroupQ =>
      if Ascii.eqb c ":" then inr (PState MNormal emptyFrame (cur st :: stack st))
      else inl Unsupported
  | MClassOpen =>
      if Ascii.eqb c "^" then inr (PState (MClass true []) (cur st) (stack st))
      else stepClass st false [] c
  | MClass neg items => stepClass st neg items c
  | MClassEscape neg items =>
      if JS.isAsciiAlnum c then inl Unsupported
      else inr (PState (MClass neg (items ++ [c])) (cur st) (stack st))
  end.

Fixpoint run (st : pstate) (s : string) : parseError + pstate :=
  match s with
  | EmptyString => inr st
  | String c s' =>
      match step st c with
      | inl e => inl e
      | inr st' => run st' s'
      end
  end.

Definition finish (st : pstate) : parseError + regex :=
  match pmode st, stack st with
  | MNormal, [] => inr (buildFrame (cur st))
  | _, _ => inl SyntaxErr       (* unterminated group, class or escape *)
  end.

Definition parse (source : string) : parseError + regex :=
  match run (PState MNormal emptyFrame []) source with
  | inl e => inl e
  | inr st => finish st
  end.

End RegExp.

Import RegExp.
Local Close Scope char_scope.

(** ** userscript-runner.js: the match-pattern compiler *)

(** The value returned by [matchPatternToRegExp]: a RegExp object, or [null].
    [null] carries the message that the source logs on that path. *)
Inductive rejection : Type :=
| FileSchemeUnsupported      (* uses unsupported 'file://' scheme *)
| HostStarInvalid            (* has an invalid host ('*') *)
| FormatInvalid              (* must be scheme://host/path *)
| HostWildcardInvalid        (* invalid wildcard usage in host part *)
| ConversionError (e : exn). (* the catch clause *)

Inductive matcher : Type :=
| Matcher (re : regex)
| Null (why : rejection).

(** The named groups of a successful [pattern.match(...)] against the
    anchored pattern made of: group [scheme], a star or [https?]; the literal
    [://]; group [host], one or more characters other than [/]; the optional
    group [path], a [/] followed by any characters but line terminators.
    [mpath] is [None] when the optional group did not take part. *)
Record patternGroups : Type := PatternGroups {
  mscheme : string;
  mhost : string;
  mpath : option string
}.

(** The longest prefix without [/], and what follows it: the greedy [[^\/]+]. *)
Fixpoint spanHost (s : string) : string * string :=
  match s with
  | EmptyString => (EmptyString, EmptyString)
  | String c s' =>
      if Ascii.eqb c "/" then (EmptyString, s)
      else let '(h, rest) := spanHost s' in (String c h, rest)
  end.

Definition noLineTerminator (s : string) : bool :=
  forallb (fun c => negb (JS.isLineTerminator c)) (list_ascii_of_string s).

(** After the scheme and [://]. Giving [[^\/]+] fewer characters never helps:
    the next character would have to be [/] or the end of the input. *)
Definition matchHostPath (scheme rest : string) : option patternGroups :=
  let '(host, tail) := spanHost rest in
  match host, tail with
  | EmptyString, _ => None
  | _, EmptyString => Some (PatternGroups scheme host None)
  | _, String _ after =>
      if noLineTerminator after then Some (PatternGroups scheme host (Some tail))
      else None
  end.

Definition matchPatternGroups (pattern : string) : option patternGroups :=
  if JS.startsWith pattern "*://" then matchHostPath "*" (JS.substring 4 pattern)
  else if JS.startsWith pattern "https://" then matchHostPath "https" (JS.substring 8 pattern)
  else if JS.startsWith pattern "http://" then matchHostPath "http" (JS.substring 7 pattern)
  else None.

(** The literal [/^https?:\/\/.*/]. *)
Definition allUrlsSource : string := "^https?:\/\/.*".

Definition allUrlsRegExp : regex :=
  Eval vm_compute in
    match parse allUrlsSource with inr r => r | inl _ => RFail end.

(** [new RegExp(source)]: a syntax error is thrown. *)
Definition RegExp_new (source : string) : completion regex :=
  match parse source with
  | inr r => Normal r
  | inl _ => Throw SyntaxError
  end.

Definition schemeRegex (scheme : string) : string :=
  if String.eqb scheme "*" then "https?" else scheme.

(** The three branches on the escaped host: the pattern source for the host,
    or the rejection. *)
Definition hostRegex (host : string) : rejection + string :=
  let escaped := JS.escapeSpecials host in
  if JS.startsWith escaped "*\." then
    inr ("(?:[^\/.]+\.)?" +:+ JS.substring 3 escaped)
  else if String.eqb escaped "*" then inr "[^\/]+"
  else if JS.includes escaped "*" then inl HostWildcardInvalid
  else inr escaped.

Definition pathRegex (pathPattern : option string) : string :=
  match pathPattern with
  | Some p => if String.eqb p "" then "(/.*)?"
              else JS.replaceStars (JS.escapeSpecials p)
  | None => "(/.*)?"
  end.

Definition finalRegexString (g : patternGroups) (hostRe : string) : string :=
  "^" +:+ schemeRegex (mscheme g) +:+ "://" +:+ hostRe +:+ pathRegex (mpath g) +:+ "$".

Definition matchPatternToRegExp (pattern : string) : completion matcher :=
  if String.eqb pattern "<all_urls>" then Normal (Matcher allUrlsRegExp)
  else
    try_catch
      (match matchPatternGroups pattern with
       | None =>
           if JS.startsWith pattern "file://" then Normal (Null FileSchemeUnsupported)
           else if JS.startsWith pattern "*://*/"
                   || JS.startsWith pattern "http://*/"
                   || JS.startsWith pattern "https://*/"
           then Normal (Null HostStarInvalid)
           else Normal (Null FormatInvalid)
       | Some g =>
           match hostRegex (mhost g) with
           | inl why => Normal (Null why)
           | inr hostRe =>
               re ← RegExp_new (finalRegexString g hostRe);
               Normal (Matcher re)
           end
       end)
      (fun e => Normal (Null (ConversionError e))).

(** ** userscript-runner.js: matching a URL *)

(** The properties of a [URL] object that the source reads. *)
Record URL : Type := MkURL {
  protocol : string;
  origin : string;
  pathname : string;
  search : string
}.

Section UrlMatching.

(** [new URL(urlString)] of the Node.js library: it returns a URL object or
    throws. A parameter of the development. *)
Variable URL_new : string → completion URL.

(** The [for ... of] loop of [urlMatches]. *)
Fixpoint anyPatternMatches (patterns : list string) (urlToMatch : string)
  : completion bool :=
  match patterns with
  | [] => Normal false
  | pattern :: more =>
      regex ← matchPatternToRegExp pattern;
      match regex with
      | Matcher re =>
          if test re urlToMatch then Normal true
          else anyPatternMatches more urlToMatch
      | Null _ => anyPatternMatches more urlToMatch
      end
  end.

(** The [try] statement at the head of [urlMatches]: [inl b] when it returned
    [b], [inr parsedUrl] when control goes on after it. *)
Definition parseTarget (urlString : string) : completion (bool + URL) :=
  try_catch
    (parsedUrl ← URL_new urlString;
     if negb (String.eqb (protocol parsedUrl) "http:"
              || String.eqb (protocol parsedUrl) "https:")
     then Normal (inl false)
     else Normal (inr parsedUrl))
    (fun _ => Normal (inl false)).

Definition urlMatches (patterns : list string) (urlString : string)
  : completion bool :=
  target ← parseTarget urlString;
  match target with
  | inl b => Normal b
  | inr parsedUrl =>
      let urlToMatch := origin parsedUrl +:+ pathname parsedUrl +:+ search parsedUrl in
      anyPatternMatches patterns urlToMatch
  end.

End UrlMatching.

(** ** userscript-runner.js: the metadata block *)

(** [s] with the prefix [p] removed, when [s] starts with [p]. *)
Fixpoint afterPrefix (p s : string) : option string :=
  match p, s with
  | EmptyString, _ => Some s
  | String a p', String b s' => if Ascii.eqb a b then afterPrefix p' s' else None
  | String _ _, EmptyString => None
  end.

(** Two slashes, white space, then [marker], at the head of [s]: the rest. *)
Definition matchMarker (marker s : string) : option string :=
  match afterPrefix "//" s with
  | Some r => afterPrefix marker (JS.trimStart r)
  | None => None
  end.

(** The leftmost place of [s] where the marker comment stands: the text
    before it and the text after it. *)
Fixpoint findMarker (marker s : string) : option (string * string) :=
  match matchMarker marker s with
  | Some rest => Some (EmptyString, rest)
  | None =>
      match s with
      | EmptyString => None
      | String c s' =>
          match findMarker marker s' with
          | Some (before, rest) => Some (String c before, rest)
          | None => None
          end
      end
  end.

(** Group 1 of the metadata-block match: the text between the first opening
    marker and the first closing marker after it (the group is lazy). *)
Definition metaBlock (scriptContent : string) : option string :=
  match findMarker "==UserScript==" scriptContent with
  | None => None
  | Some (_, afterOpen) =>
      match findMarker "==/UserScript==" afterOpen with
      | Some (block, _) => Some block
      | None => None
      end
  end.

(** The longest prefix without white space, and what follows it. *)
Fixpoint spanNonSpace (s : string) : string * string :=
  match s with
  | EmptyString => (EmptyString, EmptyString)
  | String c s' =>
      if JS.isWhiteSpace c then (EmptyString, s)
      else let '(k, rest) := spanNonSpace s' in (String c k, rest)
  end.

(** The longest prefix without line terminator: what the group of a dot and
    a star captures. *)
Fixpoint dotStar (s : string) : string :=
  match s with
  | EmptyString => EmptyString
  | String c s' => if JS.isLineTerminator c then EmptyString else String c (dotStar s')
  end.

(** Groups 1 and 2 of the directive match on a trimmed line: two slashes,
    white space, [@], the key (no white space, not empty), white space (not
    empty), the value. *)
Definition matchDirective (line : string) : option (string * string) :=
  match afterPrefix "//" line with
  | None => None
  | Some r =>
      match JS.trimStart r with
      | String "@" r2 =>
          let '(key, rest) := spanNonSpace r2 in
          match key, rest with
          | EmptyString, _ => None
          | _, EmptyString => None
          | _, _ => Some (key, dotStar (JS.trimStart rest))
          end
      | _ => None
      end
  end.

(** The property names that every object literal inherits from
    [Object.prototype]; [metadata[key]] is truthy for them from the start. *)
Definition objectPrototypeKeys : list string :=
  ["constructor"; "__defineGetter__"; "__defineSetter__"; "hasOwnProperty";
   "__lookupGetter__"; "__lookupSetter__"; "isPrototypeOf";
   "propertyIsEnumerable"; "toString"; "valueOf"; "__proto__";
   "toLocaleString"].

Definition inherited (key : string) : bool :=
  existsb (String.eqb key) objectPrototypeKeys.

(** One turn of the loop over the lines: the own properties of [metadata]
    are a finite map from key to the values seen so far. For an inherited
    name, [metadata[key]] is a function or an object without [push], and the
    call throws. *)
Definition addDirective (metadata : gmap string (list string)) (line : string)
  : completion (gmap string (list string)) :=
  match matchDirective (JS.trim line) with
  | None => Normal metadata
  | Some (key, value) =>
      let trimmedValue := JS.trim value in
      match metadata !! key with
      | Some values => Normal (<[key := values ++ [trimmedValue]]> metadata)
      | None =>
          if inherited key then Throw TypeError
          else Normal (<[key := [trimmedValue]]> metadata)
      end
  end.

Fixpoint addDirectives (metadata : gmap string (list string)) (lines : list string)
  : completion (gmap string (list string)) :=
  match lines with
  | [] => Normal metadata
  | line :: more =>
      metadata' ← addDirective metadata line;
      addDirectives metadata' more
  end.

(** The object returned by [parseMetadata]: the properties [match], [runAt]
    and [name], which the function sets before it returns, and its other own
    properties, which hold the values collected under the other keys. A list
    collected under the key [runAt] is overwritten by the run-at string. *)
Record metadata : Type := Metadata {
  md_match : list string;
  md_runAt : string;
  md_name : list string;
  md_directives : gmap string (list string)
}.

Definition validRunAt : list string :=
  ["document-start"; "document-end"; "document-idle"].

Definition isValidRunAt (r : string) : bool := existsb (String.eqb r) validRunAt.

Definition parseMetadata (scriptContent : string) : completion metadata :=
  match metaBlock scriptContent with
  | None => Normal (Metadata [] "document-start" ["Unnamed Script"] ∅)
  | Some block =>
      let lines := JS.splitLines (JS.trim block) in
      directives ← addDirectives ∅ lines;
      let match_ := default [] (directives !! "match") in
      let runAt :=
        match directives !! "run-at" with
        | Some (first :: _) =>
            let lowered := JS.toLowerCase first in
            if String.eqb lowered "" then "document-start" else lowered
        | _ => "document-start"
        end in
      let runAt := if isValidRunAt runAt then runAt else "document-start" in
      let name :=
        match directives !! "name" with
        | Some (first :: rest) => first :: rest
        | _ => ["Unnamed Script"]
        end in
      Normal (Metadata match_ runAt name
                (delete "match" (delete "runAt" (delete "name" directives))))
  end.

(** ** userscript-runner.js: the catalog *)

Inductive fsError : Type := ENOENT | EACCES | EOTHER.

(** The calls made on the modules [fs] and [path] of the platform.
    [readFile] is [None] when the read fails; [path_join] is [path.join], whose
    result depends on the platform and on the spelling of the directory. *)
Record fileSystem : Type := FileSystem {
  readdir : string → fsError + list string;
  readFile : string → option string;
  path_join : string → string → string
}.

(** [path.basename(file)] for a file name as [readdir] returns it. *)
Definition path_basename (file : string) : string := file.

Record scriptRecord : Type := ScriptRecord {
  path : string;
  name : string;
  content : string;
  matchPatterns : list string;
  runAt : string;
  metadata_ : metadata
}.

(** One turn of the loop over the directory entries: the record to push, if
    any. An exception of [parseMetadata] is caught and the file is left out. *)
Definition loadScript (fs : fileSystem) (directory file : string)
  : option scriptRecord :=
  if negb (JS.endsWith file ".user.js") then None
  else
    let fullPath := path_join fs directory file in
    match readFile fs fullPath with
    | None => None
    | Some content =>
        match parseMetadata content with
        | Throw _ => None
        | Normal md =>
            match md_match md with
            | [] => None
            | _ :: _ =>
                let name :=
                  match md_name md with
                  | first :: _ =>
                      if String.eqb first "" then path_basename file else first
                  | [] => path_basename file
                  end in
                Some (ScriptRecord fullPath name content (md_match md) (md_runAt md) md)
            end
        end
    end.

Definition loadUserscripts (fs : fileSystem) (directory : string)
  : completion (list scriptRecord) :=
  match readdir fs directory with
  | inl ENOENT => Normal []
  | inl EACCES => Normal []
  | inl EOTHER => Throw (ErrorMsg "readdir")
  | inr files => Normal (omap (loadScript fs directory) files)
  end.

(** ** main.js: the injection plan *)

Section Injection.

Variable URL_new : string → completion URL.

(** The object literal [scriptsToInject], by its own properties. *)
Definition emptyPlan : gmap string (list scriptRecord) :=
  <["document-start" := []]> (<["document-end" := []]> (<["document-idle" := []]> ∅)).

(** The body of the loop over [allUserscripts]. For a [runAt] that is not an
    own property, [scriptsToInject[script.runAt]] is [undefined] (the script
    is skipped) unless the name is inherited, in which case the value is
    truthy and has no [push]. *)
Definition schedule (targetUrl : string) (plan : gmap string (list scriptRecord))
    (script : scriptRecord) : completion (gmap string (list scriptRecord)) :=
  matched ← urlMatches URL_new (matchPatterns script) targetUrl;
  if matched : bool then
    match plan !! runAt script with
    | Some scheduled => Normal (<[runAt script := scheduled ++ [script]]> plan)
    | None => if inherited (runAt script) then Throw TypeError else Normal plan
    end
  else Normal plan.

Fixpoint scheduleAll (targetUrl : string) (plan : gmap string (list scriptRecord))
    (scripts : list scriptRecord) : completion (gmap string (list scriptRecord)) :=
  match scripts with
  | [] => Normal plan
  | script :: more =>
      plan' ← schedule targetUrl plan script;
      scheduleAll targetUrl plan' more
  end.

Definition scriptsToInject (allUserscripts : list scriptRecord) (targetUrl : string)
  : completion (gmap string (list scriptRecord)) :=
  scheduleAll targetUrl emptyPlan allUserscripts.

End Injection.

(** ** main.js: the storage bridge *)

(** Values that cross the bridge. *)
#[local] Set Warnings "-register-all".
Inductive value : Type :=
| VUndefined
| VNull
| VBool (b : bool)
| VNumber (n : Z)
| VString (s : string)
| VArray (items : list value)
| VObject (props : list (string * value)).

(** The prototype of [gmStorage]: [Object.prototype] as long as nothing
    changes it; assigning to [__proto__] can replace it by [null] or by an
    object that came over the bridge (whose own prototype is untouched). *)
Inductive prototype : Type :=
| ObjectPrototype
| NullPrototype
| ValuePrototype (v : value).

(** The object [gmStorage]: its own properties and its prototype. *)
Record jsObject : Type := JsObject {
  own : gmap string value;
  proto : prototype
}.

(** Own property names of a value used as a prototype. *)
Definition ownNames (v : value) : list string :=
  match v with
  | VObject props => props.*1
  | _ => []
  end.

Definition hasName (k : string) (names : list string) : bool :=
  existsb (String.eqb k) names.

(** Whether the lookup of [name] on the prototype chain ends in
    [Object.prototype] without meeting an own property of that name. *)
Definition reachesObjectPrototype (name : string) (p : prototype) : bool :=
  match p with
  | ObjectPrototype => true
  | NullPrototype => false
  | ValuePrototype v => negb (hasName name (ownNames v))
  end.

(** [gmStorage.hasOwnProperty(key)]: the method is found on
    [Object.prototype]; a stored value under that name, or a prototype
    without it, is not callable. *)
Definition hasOwnProperty (o : jsObject) (key : string) : completion bool :=
  match own o !! "hasOwnProperty" with
  | Some _ => Throw TypeError
  | None =>
      if reachesObjectPrototype "hasOwnProperty" (proto o)
      then Normal (bool_decide (is_Some (own o !! key)))
      else Throw TypeError
  end.

(** [gmStorage[key] = value]: an own property is overwritten; otherwise the
    name [__proto__] reaches the accessor of [Object.prototype], which sets
    the prototype for an object or [null] and ignores any other value;
    otherwise an own property is created. *)
Definition setProperty (o : jsObject) (key : string) (v : value) : jsObject :=
  match own o !! key with
  | Some _ => JsObject (<[key := v]> (own o)) (proto o)
  | None =>
      if String.eqb key "__proto__" && reachesObjectPrototype "__proto__" (proto o)
      then match v with
           | VObject _ | VArray _ => JsObject (own o) (ValuePrototype v)
           | VNull => JsObject (own o) NullPrototype
           | _ => o
           end
      else JsObject (<[key := v]> (own o)) (proto o)
  end.

(** [delete gmStorage[key]] *)
Definition deleteProperty (o : jsObject) (key : string) : jsObject :=
  JsObject (delete key (own o)) (proto o).

(** [JSON.stringify] of a value, as the value that the text denotes: [None]
    where the function returns [undefined]. Inside an array [undefined] is
    written as [null]; a property whose value is [undefined] is left out. *)
Fixpoint stringify (v : value) : option value :=
  match v with
  | VUndefined => None
  | VArray items => Some (VArray (map (λ x, default VNull (stringify x)) items))
  | VObject props =>
      Some (VObject
              ((fix members (ps : list (string * value)) : list (string * value) :=
                  match ps with
                  | [] => []
                  | (k, x) :: rest =>
                      match stringify x with
                      | Some y => (k, y) :: members rest
                      | None => members rest
                      end
                  end) props))
  | _ => Some v
  end.

(** The host side of the storage: the object and the texts handed to
    [fs.writeFile] so far, oldest first, each as the members of the object
    that it denotes. *)
Record storage : Type := Storage {
  gmStorage : jsObject;
  written : list (gmap string value)
}.

(** [saveGmStorage]: the own properties of [gmStorage] are stringified and
    the write is attempted; its failure is logged only. *)
Definition saveGmStorage (st : storage) : storage :=
  Storage (gmStorage st) (written st ++ [omap stringify (own (gmStorage st))]).

Definition gmSetValueBridge (key : string) (v : value) (st : storage)
  : completion unit * storage :=
  let st' := Storage (setProperty (gmStorage st) key v) (written st) in
  (Normal (), saveGmStorage st').

Definition gmGetValueBridge (key : string) (defaultValue : value) (st : storage)
  : completion value :=
  has ← hasOwnProperty (gmStorage st) key;
  Normal (if has : bool then default VUndefined (own (gmStorage st) !! key)
          else defaultValue).

Definition gmDeleteValueBridge (key : string) (st : storage)
  : completion unit * storage :=
  match hasOwnProperty (gmStorage st) key with
  | Throw e => (Throw e, st)
  | Normal true =>
      (Normal (),
       saveGmStorage (Storage (deleteProperty (gmStorage st) key) (written st)))
  | Normal false => (Normal (), st)
  end.

(** [Object.keys(gmStorage)]; the order of the array is not modelled. *)
Definition gmListValuesBridge (st : storage) : list string :=
  elements (dom (own (gmStorage st))).

(** ** main.js and gm-api-polyfill.js: GM_xmlhttpRequest *)

(** The [details] object of a call, by the properties that decide the
    control flow. [d_url] is [None] when the property is missing or not a
    string; [d_timeout] is [0] when the property is missing; [d_handlers]
    lists the names of the properties that are functions; [d_onerrorThrows]
    is the exception that the function [onerror] throws when it is called
    with the data of an invalid request ([None] when it returns). *)
Record details : Type := Details {
  d_url : option string;
  d_timeout : Z;
  d_responseType : option string;
  d_overrideMimeType : option string;
  d_handlers : list string;
  d_onerrorThrows : option exn
}.

(** The [response] property of the data handed to a callback. *)
Inductive body : Type :=
| BNone
| BJson (v : value)
| BString (s : string)
| BArrayBuffer (bytes : string)
| BBlob (bytes mimeType : string).

Record responseData : Type := ResponseData {
  status : Z;
  statusText : string;
  response : body;
  _responseType : option string;
  _contentType : string;
  responseText : option string;
  error : option string
}.

(** *** The host side *)

(** What [fetch] resolves with: the status line, the content-type header,
    and the three ways of reading the body. *)
Record fetchResponse : Type := FetchResponse {
  r_status : Z;
  r_statusText : string;
  r_contentType : option string;
  r_json : completion value;
  r_arrayBuffer : completion string;
  r_text : completion string
}.

(** Truthiness of an optional string property. *)
Definition truthy (s : option string) : bool :=
  match s with
  | Some t => negb (String.eqb t "")
  | None => false
  end.

Definition knownResponseTypes : list string := ["json"; "text"; "arraybuffer"; "blob"].

(** [overrideMimeType || contentTypeHeader], where the header defaults to the
    empty string. *)
Definition effectiveContentType (overrideMimeType contentType : option string) : string :=
  let contentTypeHeader := if truthy contentType then default "" contentType else "" in
  if truthy overrideMimeType then default "" overrideMimeType else contentTypeHeader.

(** The two statements that compute [effectiveResponseType] before the
    [switch]. *)
Definition effectiveResponseType (responseType overrideMimeType contentType : option string)
  : string :=
  let initial :=
    match responseType with
    | Some t => if hasName t knownResponseTypes then t else "text"
    | None => "text"
    end in
  if negb (truthy responseType)
     && JS.includes (effectiveContentType overrideMimeType contentType) "json"
  then "json" else initial.

Section Bridge.

(** [Buffer.from(buffer).toString('base64')] and [atob] of the two
    platforms; parameters of the development. *)
Variable toBase64 : string → string.
Variable atob : string → completion string.

(** The [message] of an exception that the platform raises; its wording is
    the platform's. *)
Variable platformMessage : exn → string.

(** [error.message] *)
Definition messageOf (e : exn) : string :=
  match e with
  | ErrorMsg m => m
  | _ => platformMessage e
  end.

Definition failure (text : string) (e : exn) : responseData :=
  ResponseData 0 text BNone None "" None (Some (messageOf e)).

(** The [switch] on the effective response type: the body and the type it is
    marked with. *)
Definition readBody (r : fetchResponse) (effective : string) : completion (body * string) :=
  if String.eqb effective "json" then
    v ← r_json r; Normal (BJson v, "json")
  else if String.eqb effective "blob" || String.eqb effective "arraybuffer" then
    bytes ← r_arrayBuffer r; Normal (BString (toBase64 bytes), effective)
  else
    t ← r_text r; Normal (BString t, "text").

(** The code after [await fetch(url, fetchOptions)]: the events handed to
    [sendCallback], in order. A failure to read the body is rethrown as an
    [Error] whose message names the effective response type and quotes the
    message of the failure; it is handled by the same [catch] clause as a
    rejected [fetch]. *)
Definition onSettled (d : details) (settled : completion fetchResponse)
  : list (string * responseData) :=
  let outcome :=
    r ← settled;
    let effType := effectiveResponseType (d_responseType d) (d_overrideMimeType d)
                     (r_contentType r) in
    let effContent := effectiveContentType (d_overrideMimeType d) (r_contentType r) in
    try_catch
      (b ← readBody r effType;
       Normal (ResponseData (r_status r) (r_statusText r) b.1 (Some b.2) effContent
                 (if String.eqb b.2 "text"
                  then match b.1 with BString t => Some t | _ => None end
                  else None)
                 None))
      (fun bodyError =>
         Throw (ErrorMsg ("Failed to read response body as " +:+ effType +:+ ": "
                          +:+ messageOf bodyError))) in
  match outcome with
  | Normal gmResponse => [("onload", gmResponse)]
  | Throw AbortError => [("onabort", failure "Aborted" AbortError)]
  | Throw e => [("onerror", failure "Network Error" e)]
  end.

(** The delay that [setTimeout] uses for a requested delay. *)
Definition timerDelay (timeout : Z) : Z :=
  if (timeout <? 1)%Z || (2147483647 <? timeout)%Z then 1%Z else timeout.

(** One run of the bridge function on the host: the abort signal of its
    controller, the armed timer with the time at which it is due, the pending
    [fetch] with the time at which it settles and what it settles with, and
    the events handed to [sendCallback] so far. Times are in milliseconds
    from the call. *)
Record bridgeRun : Type := BridgeRun {
  signalAborted : bool;
  timeoutId : option Z;
  pendingFetch : option (Z * completion fetchResponse);
  sent : list (string * responseData)
}.

(** The bridge function up to [await fetch(url, fetchOptions)]: the timer is
    armed when [timeout] is truthy. *)
Definition issue (d : details) (latency : Z) (settled : completion fetchResponse)
  : bridgeRun :=
  BridgeRun false
    (if (d_timeout d =? 0)%Z then None else Some (timerDelay (d_timeout d)))
    (Some (latency, settled))
    [].

(** The callback given to [setTimeout], run at time [now]: it aborts the
    controller, so that the pending [fetch] rejects with an [AbortError], and
    sends [ontimeout]. *)
Definition timerCallback (now : Z) (run : bridgeRun) : bridgeRun :=
  BridgeRun true None
    (match pendingFetch run with
     | Some _ => Some (now, Throw AbortError)
     | None => None
     end)
    (sent run ++ [("ontimeout", failure "Timeout" (ErrorMsg "Request timed out"))]).

(** The bridge function from the point where [fetch] has settled: both
    branches clear the timer. *)
Definition afterFetch (d : details) (settled : completion fetchResponse)
    (run : bridgeRun) : bridgeRun :=
  BridgeRun (signalAborted run) None None (sent run ++ onSettled d settled).

(** One turn of the event loop of the host: the task that is due first runs;
    a timer due at the time of the settlement runs before it. *)
Definition turn (d : details) (run : bridgeRun) : bridgeRun :=
  match timeoutId run, pendingFetch run with
  | Some due, Some (at_, settled) =>
      if (due <=? at_)%Z then timerCallback due run else afterFetch d settled run
  | None, Some (_, settled) => afterFetch d settled run
  | Some due, None => timerCallback due run
  | None, None => run
  end.

(** One run of [GM_xmlhttpRequest_bridge] for a [fetch] that settles with
    [settled] after [latency] milliseconds: the events handed to
    [sendCallback], in order. Two turns empty the loop. *)
Definition GM_xmlhttpRequest_bridge (d : details) (latency : Z)
    (settled : completion fetchResponse) : list (string * responseData) :=
  sent (turn d (turn d (issue d latency settled))).

(** *** The page side *)

(** [requestMap], [requestIdCounter], and the calls of the caller's
    callbacks so far (request identifier and property name), oldest first. *)
Record page : Type := Page {
  requestMap : gmap nat details;
  requestIdCounter : nat;
  delivered : list (nat * string)
}.

Definition finalEvents : list string := ["onload"; "onerror"; "onabort"; "ontimeout"].

Definition isBinaryType (t : option string) : bool :=
  match t with
  | Some t => String.eqb t "blob" || String.eqb t "arraybuffer"
  | None => false
  end.

Definition callIfFunction (d : details) (requestId : nat) (eventName : string)
    (log : list (nat * string)) : list (nat * string) :=
  if hasName eventName (d_handlers d) then log ++ [(requestId, eventName)] else log.

(** [GM_xmlhttpRequest_callback_handler] *)
Definition GM_xmlhttpRequest_callback_handler (requestId : nat) (eventName : string)
    (data : responseData) (pg : page) : page :=
  match requestMap pg !! requestId with
  | None => pg                                  (* unknown identifier: warn *)
  | Some d =>
      let decodeFails :=
        match response data with
        | BString s =>
            isBinaryType (_responseType data) &&
            match atob s with Throw _ => true | Normal _ => false end
        | _ => false
        end in
      if decodeFails then
        Page (delete requestId (requestMap pg)) (requestIdCounter pg)
             (callIfFunction d requestId "onerror" (delivered pg))
      else
        let log := callIfFunction d requestId eventName (delivered pg) in
        if hasName eventName finalEvents
        then Page (delete requestId (requestMap pg)) (requestIdCounter pg) log
        else Page (requestMap pg) (requestIdCounter pg) log
  end.

(** [GM_xmlhttpRequest]: the identifier of the request, the new page state,
    and the outcome of the call: [Normal true] when the bridge was called and
    the abort handle is returned, [Normal false] when the request was refused
    for its URL and a dummy handle is returned, [Throw e] when the caller's
    [onerror], which is called outside any [try] statement for a refused
    request, throws: the statement that retires the request is not reached. *)
Definition GM_xmlhttpRequest (d : details) (pg : page) : nat * page * completion bool :=
  let requestId := S (requestIdCounter pg) in
  let registered := <[requestId := d]> (requestMap pg) in
  if negb (truthy (d_url d)) then
    let log := callIfFunction d requestId "onerror" (delivered pg) in
    match (if hasName "onerror" (d_handlers d) then d_onerrorThrows d else None) with
    | Some e => (requestId, Page registered requestId log, Throw e)
    | None => (requestId, Page (delete requestId registered) requestId log, Normal false)
    end
  else (requestId, Page registered requestId (delivered pg), Normal true).

(** The [abort] method of the returned handle: it looks the request up and
    logs; neither the page state nor the host hears of it. *)
Definition abort (requestId : nat) (pg : page) : page :=
  match requestMap pg !! requestId with
  | Some _ => pg
  | None => pg
  end.

(** The [catch] callback of the promise of the bridge call, for a call made
    with [d]: it runs when the platform rejects the promise, calls [onerror]
    inside a [try] statement whether or not the request is still registered,
    and retires the request. *)
Definition bridgeRejected (requestId : nat) (d : details) (pg : page) : page :=
  Page (delete requestId (requestMap pg)) (requestIdCounter pg)
       (callIfFunction d requestId "onerror" (delivered pg)).

(** What happens on the page, one step at a time: page code calls
    [GM_xmlhttpRequest] or uses an abort handle, the callback handler is
    called for an event (by the host, or by page code, since the handler is a
    property of [window]), or the promise of a bridge call is rejected. What
    page code does inside a callback acts as if it were done right after the
    handler has returned; a callback that calls the handler for its own
    request is outside the model. *)
Inductive pageAction : Type :=
| Call (d : details)                                   (* GM_xmlhttpRequest(d) *)
| AbortHandle (requestId : nat)                        (* handle.abort() *)
| Event (requestId : nat) (eventName : string) (data : responseData)
| BridgeError (requestId : nat) (d : details).

Definition perform (a : pageAction) (pg : page) : page :=
  match a with
  | Call d => (GM_xmlhttpRequest d pg).1.2
  | AbortHandle requestId => abort requestId pg
  | Event requestId eventName data =>
      GM_xmlhttpRequest_callback_handler requestId eventName data pg
  | BridgeError requestId d => bridgeRejected requestId d pg
  end.

Definition performAll (acts : list pageAction) (pg : page) : page :=
  fold_left (fun pg a => perform a pg) acts pg.

(** [sendCallback]: the event reaches the handler unless the page is closed. *)
Definition sendCallback (pageClosed : bool) (requestId : nat)
    (ev : string * responseData) (pg : page) : page :=
  if pageClosed then pg
  else GM_xmlhttpRequest_callback_handler requestId ev.1 ev.2 pg.

(** The arrival of the host's events on the page, in the order in which they
    were sent. Before each of them the page performs the actions that
    [meanwhile] lists for it, one list per event. *)
Fixpoint arrive (pageClosed : bool) (requestId : nat)
    (evs : list (string * responseData)) (meanwhile : list (list pageAction))
    (pg : page) : page :=
  match evs with
  | [] => pg
  | ev :: evs' =>
      arrive pageClosed requestId evs' (tail meanwhile)
        (sendCallback pageClosed requestId ev (performAll (hd [] meanwhile) pg))
  end.

(** A call from issuance to the last event of the host: the host runs the
    bridge function while the page goes on with [meanwhile], which may hold
    uses of the abort handle, other calls, and events of any origin. *)
Definition request (d : details) (meanwhile : list (list pageAction)) (latency : Z)
    (settled : completion fetchResponse) (pageClosed : bool) (pg : page)
  : nat * page :=
  let '(requestId, pg1, outcome) := GM_xmlhttpRequest d pg in
  match outcome with
  | Normal true =>
      (requestId,
       arrive pageClosed requestId (GM_xmlhttpRequest_bridge d latency settled)
         meanwhile pg1)
  | _ => (requestId, pg1)
  end.

End Bridge.

(** The calls of the caller's callbacks for one request. *)
Definition eventsOf (requestId : nat) (pg : page) : list (nat * string) :=
  filter (λ e, e.1 = requestId) (delivered pg).

(** Whether a step is the rejection of the bridge call of the request. *)
Definition isBridgeError (requestId : nat) (a : pageAction) : bool :=
  match a with
  | BridgeError id _ => Nat.eqb id requestId
  | _ => false
  end.

(** Whether a step calls the callback handler for the request, or is the
    rejection of its bridge call. *)
Definition concerns (requestId : nat) (a : pageAction) : bool :=
  match a with
  | Event id _ _ => Nat.eqb id requestId
  | _ => isBridgeError requestId a
  end.

(** A use of an abort handle. *)
Definition isAbortAction (a : pageAction) : bool :=
  match a with
  | AbortHandle _ => true
  | _ => false
  end.

(** ** The claims in the words of the specification, where they differ *)

(** The effective response type as the specification words it: the requested
    type if it is one of the four, else [json] if the content-type header of
    the response contains [json], else [text]. *)
Definition specResponseType (responseType contentType : option string) : string :=
  match responseType with
  | Some t =>
      if hasName t knownResponseTypes then t
      else if JS.includes (default "" contentType) "json" then "json" else "text"
  | None => if JS.includes (default "" contentType) "json" then "json" else "text"
  end.


(** ** Concrete data for the examples *)

(** What [new URL] returns at the strings used below; other strings are not
    used. *)
Definition URL_examples (urlString : string) : completion URL :=
  let table : list (string * URL) :=
    [("https://a.b.example.com/", MkURL "https:" "https://a.b.example.com" "/" "");
     ("https://a.example.com/", MkURL "https:" "https://a.example.com" "/" "");
     ("https://sub.example.com/path", MkURL "https:" "https://sub.example.com" "/path" "");
     ("https://example.com/", MkURL "https:" "https://example.com" "/" "");
     ("https://example.com.evil.com/", MkURL "https:" "https://example.com.evil.com" "/" "");
     ("https://evilexample.com/", MkURL "https:" "https://evilexample.com" "/" "");
     ("https://a.b/c?d", MkURL "https:" "https://a.b" "/c" "?d");
     ("http://x.y/", MkURL "http:" "http://x.y" "/" "");
     ("ftp://a.b/", MkURL "ftp:" "ftp://a.b" "/" "")] in
  match list_find (λ e, e.1 = urlString) table with
  | Some (_, (_, u)) => Normal u
  | None => Throw TypeError
  end.

(** [urlMatches] as a boolean, for statements. *)
Definition matchesUrl (URL_new : string → completion URL) (patterns : list string)
    (urlString : string) : bool :=
  match urlMatches URL_new patterns urlString with
  | Normal b => b
  | Throw _ => false
  end.

(** Whether [urlString] parses to an http or https URL. *)
Definition isHttpTarget (URL_new : string → completion URL) (urlString : string) : bool :=
  match URL_new urlString with
  | Normal u => String.eqb (protocol u) "http:" || String.eqb (protocol u) "https:"
  | Throw _ => false
  end.

Definition validPattern (pattern : string) : bool :=
  match matchPatternToRegExp pattern with
  | Normal (Matcher _) => true
  | _ => false
  end.

(** ** Auxiliary notions for the proofs about the RegExp constructor *)

(** The run of the constructor has not left the supported syntax: it has
    failed with a syntax error, or it stands between two terms. *)
Definition okRun (r : parseError + pstate) : Prop :=
  match r with
  | inl e => e = SyntaxErr
  | inr st => pmode st = MNormal
  end.

(** The fixed pieces of the pattern sources. *)
Definition fixedPieces : list string :=
  ["(?:[^\/.]+\.)?"; "[^\/]+"; "(/.*)?"; "$"; "://"; "https?"; "https"; "http"; "^"].

(** ** The injection plan, phase by phase *)

(** The plan whose three phases are given by [f]. *)
Definition planOf (f : string → list scriptRecord) : gmap string (list scriptRecord) :=
  <["document-start" := f "document-start"]>
    (<["document-end" := f "document-end"]>
       (<["document-idle" := f "document-idle"]> ∅)).

(** The records of [catalog] that match [targetUrl] and run at [phase], in
    catalog order. *)
Definition phaseOf (URL_new : string → completion URL) (catalog : list scriptRecord)
    (targetUrl phase : string) : list scriptRecord :=
  filter (λ s, matchesUrl URL_new (matchPatterns s) targetUrl = true ∧ runAt s = phase)
         catalog.

(** ** An example script directory *)

(** Two patterns that both match [https://example.com/]. *)
Definition scriptA : string := "// ==UserScript==
// @name   A
// @match  *://example.com/*
// @match  https://example.com/*
// @run-at document-end
// ==/UserScript==
console.log(1);".

Definition scriptB : string := "// ==UserScript==
// @name   B
// @match  *://*.example.com/*
// @run-at document-idle
// ==/UserScript==
console.log(2);".

(** One [@match] entry, which is not a match pattern. *)
Definition scriptC : string := "// ==UserScript==
// @name   C
// @match  not-a-pattern
// ==/UserScript==
console.log(3);".

(** No [@match] entry. *)
Definition scriptD : string := "// ==UserScript==
// @name   D
// ==/UserScript==
console.log(4);".

Definition scriptE : string := "// ==UserScript==
// @name   E
// @match  https://other.org/*
// ==/UserScript==
console.log(5);".

Definition exampleFiles : list (string * string) :=
  [("scripts/a.user.js", scriptA); ("scripts/b.user.js", scriptB);
   ("scripts/c.user.js", scriptC); ("scripts/d.user.js", scriptD);
   ("scripts/e.user.js", scriptE); ("scripts/notes.txt", "notes")].

(** A directory [scripts] with six entries on a POSIX platform; the
    directory name is normalized, so that [path.join] only puts a slash
    between it and the file name. *)
Definition exampleFs : fileSystem :=
  FileSystem
    (λ directory,
       if String.eqb directory "scripts"
       then inr ["a.user.js"; "b.user.js"; "c.user.js"; "d.user.js"; "e.user.js";
                 "notes.txt"]
       else inl ENOENT)
    (λ file,
       match list_find (λ e, e.1 = file) exampleFiles with
       | Some (_, (_, text)) => Some text
       | None => None
       end)
    (λ directory file, directory +:+ "/" +:+ file).

Definition exampleCatalog : list scriptRecord :=
  Eval vm_compute in
    match loadUserscripts exampleFs "scripts" with
    | Normal catalog => catalog
    | Throw _ => []
    end.

(** ** The state of the storage object *)

(** The prototype of [gmStorage] is untouched and no stored key hides the
    method that the bridge calls. *)
Definition intact (o : jsObject) : Prop :=
  proto o = ObjectPrototype ∧ own o !! "hasOwnProperty" = None.

(** A key other than the two names that reach [Object.prototype] in the
    bridge functions. *)
Definition ordinaryKey (key : string) : Prop :=
  key ≠ "__proto__" ∧ key ≠ "hasOwnProperty".

(** Mutating calls of the storage bridge, and what a sequence of them does
    to the host state. *)
Inductive storageOp : Type :=
| SetValue (key : string) (v : value)
| DeleteValue (key : string).

Definition opKey (op : storageOp) : string :=
  match op with
  | SetValue key _ => key
  | DeleteValue key => key
  end.

Definition runOp (st : storage) (op : storageOp) : storage :=
  match op with
  | SetValue key v => (gmSetValueBridge key v st).2
  | DeleteValue key => (gmDeleteValueBridge key st).2
  end.

Definition runOps (ops : list storageOp) (st : storage) : storage :=
  fold_left runOp ops st.

(** The keys that survive a sequence of sets and deletes. *)
Definition survivors (ops : list storageOp) (keys : gset string) : gset string :=
  fold_left (λ ks op, match op with
                      | SetValue key _ => {[key]} ∪ ks
                      | DeleteValue key => ks ∖ {[key]}
                      end) ops keys.

Definition emptyStorage : storage := Storage (JsObject ∅ ObjectPrototype) [].

(** ** Example requests *)

Definition initialPage : page := Page ∅ 0 [].

(** A response with a text body that arrives without error. *)
Definition textResponse : fetchResponse :=
  FetchResponse 200 "OK" (Some "text/plain")
    (Throw SyntaxError) (Normal "ok") (Normal "ok").

(** A call without timeout whose caller listens to every final event. *)
Definition plainCall : details :=
  Details (Some "https://example.com/data") 0 None None
    ["onload"; "onerror"; "onabort"; "ontimeout"] None.



(** The data of an event without body. *)
Definition emptyData : responseData := ResponseData 0 "" BNone None "" None None.

(** Stand-ins for the two base64 functions in the examples: no example
    carries binary data. *)
Definition exampleToBase64 (bytes : string) : string := bytes.
Definition exampleAtob (text : string) : completion string := Normal text.

(** The messages of the exceptions of the platform in the examples: the
    wording of Node.js for an aborted [fetch] and for one that failed. *)
Definition exampleMessage (e : exn) : string :=
  match e with
  | AbortError => "This operation was aborted"
  | TypeError => "fetch failed"
  | SyntaxError => "Unexpected end of JSON input"
  | ErrorMsg m => m
  end.

(** ** Auxiliary notions for the characterisation of the wildcard host *)

Definition chars (s : string) : list ascii := list_ascii_of_string s.

(** [s] does not contain the character [c]. *)
Definition lacks (c : ascii) (s : string) : bool :=
  forallb (λ d, negb (Ascii.eqb d c)) (chars s).

(** A pattern without [^] and [$]. *)
Fixpoint assertionFree (r : regex) : bool :=
  match r with
  | RBol | REol => false
  | RSeq r1 r2 | RAlt r1 r2 => assertionFree r1 && assertionFree r2
  | RStar r1 | RPlus r1 | ROpt r1 => assertionFree r1
  | _ => true
  end.

(** The patterns of [rs] match consecutive pieces of [s]. *)
Fixpoint MatchAll (bol eol : bool) (rs : list regex) (s : list ascii) : Prop :=
  match rs with
  | [] => s = []
  | r :: rs' =>
      ∃ s1 s2, s = s1 ++ s2 ∧ Match bol (eol && isNil s2) r s1
               ∧ MatchAll (bol && isNil s1) eol rs' s2
  end.

(** One label of a host name: not empty, without [/] and without [.]. *)
Definition isLabel (l : string) : bool :=
  negb (String.eqb l "") && lacks "/" l && lacks "." l.

(** The terms that the RegExp constructor reads from the source up to the
    host of a pattern with scheme [*] and host prefix [*.]. *)
Definition wildcardPrefix : list regex :=
  [RBol; RChar "h"; RChar "t"; RChar "t"; RChar "p"; ROpt (RChar "s");
   RChar ":"; RChar "/"; RChar "/";
   ROpt (RSeq (RPlus (RClass true ["/"; "."]%char)) (RChar "."))].

(** The RegExp object for the pattern [*://*.dom/*]. *)
Definition wildcardRegExp (dom : string) : regex :=
  fold_right RSeq REol
    (wildcardPrefix ++ map RChar (chars dom) ++ [RChar "/"; RStar RDot]).

Definition inLabelClass (c : ascii) : Prop :=
  xorb true (JS.mem c ["/"; "."]%char) = true.

(** The words that the RegExp object for [*://*.dom/*] matches: [http] or
    [https], the separator, nothing or one label and a dot, the domain, a
    slash, and characters other than line terminators. *)
Definition wildcardWord (dom : string) (w : list ascii) : Prop :=
  ∃ (secure : bool) (sub rest : list ascii),
    w = chars "http" ++ (if secure then ["s"%char] else []) ++ chars "://"
        ++ sub ++ chars dom ++ "/"%char :: rest
    ∧ (sub = [] ∨ ∃ l, l ≠ [] ∧ Forall inLabelClass l ∧ sub = l ++ ["."%char])
    ∧ Forall (λ c, JS.isLineTerminator c = false) rest.

(** ** What a compiled match pattern accepts *)

(** The wildcard of a path pattern: [globStar rest s] holds when [s] is some
    characters other than line terminators followed by a word of [rest]. *)
Fixpoint globStar (rest : list ascii → bool) (s : list ascii) : bool :=
  rest s ||
  match s with
  | [] => false
  | c :: s' => negb (JS.isLineTerminator c) && globStar rest s'
  end.

(** [glob p s]: the word [s] is the path pattern [p] with every star replaced
    by characters other than line terminators. *)
Fixpoint glob (p s : list ascii) : bool :=
  match p with
  | [] => isNil s
  | c :: p' =>
      if Ascii.eqb c "*" then globStar (glob p') s
      else match s with
           | d :: s' => Ascii.eqb c d && glob p' s'
           | [] => false
           end
  end.

(** The scheme of a URL that the scheme of a pattern admits. *)
Definition schemeWord (scheme w : string) : Prop :=
  if String.eqb scheme "*" then w = "http" ∨ w = "https" else w = scheme.

(** The host of a URL that the host of a pattern admits: any host for a lone
    star; the domain, or one label and the domain, after the prefix [*.];
    the host itself otherwise. *)
Definition hostWord (hostPattern host : string) : Prop :=
  if String.eqb hostPattern "*" then host ≠ "" ∧ lacks "/" host = true
  else match afterPrefix "*." hostPattern with
       | Some dom =>
           host = dom ∨ ∃ label, isLabel label = true ∧ host = label +:+ "." +:+ dom
       | None => host = hostPattern
       end.

(** What follows the host in a URL that the path of a pattern admits. *)
Definition pathWord (pathPattern : option string) (rest : string) : Prop :=
  match pathPattern with
  | Some p => glob (chars p) (chars rest) = true
  | None => rest = "" ∨ (JS.startsWith rest "/" = true ∧ noLineTerminator rest = true)
  end.

(** The URLs that a pattern with the groups [g] admits. *)
Definition accepts (g : patternGroups) (u : string) : Prop :=
  ∃ scheme host rest,
    u = scheme +:+ "://" +:+ host +:+ rest
    ∧ schemeWord (mscheme g) scheme
    ∧ hostWord (mhost g) host
    ∧ pathWord (mpath g) rest.

(** The host of a pattern uses the star as the compiler expects it: alone,
    or in the prefix [*.] only. *)
Definition hostWildcardOk (hostPattern : string) : bool :=
  String.eqb hostPattern "*"
  || lacks "*" (default hostPattern (afterPrefix "*." hostPattern)).

(** After the prefix [*.] the stars of a host reach the pattern source as
    they are, and the RegExp constructor reads each of them as the repetition
    of the character before it. [starsFollow q s] tells whether every star
    of [s] has a character to repeat: none follows a star, and none stands
    first unless [q] holds. *)
Fixpoint starsFollow (q : bool) (s : string) : bool :=
  match s with
  | EmptyString => true
  | String c s' =>
      if Ascii.eqb c "*" then q && starsFollow false s' else starsFollow true s'
  end.

(** The hosts of the patterns for which the compiler returns a RegExp
    object: the lone star, a host without star, and the prefix [*.] followed
    by a domain in which every star has a character to repeat. *)
Definition hostCompiles (hostPattern : string) : bool :=
  String.eqb hostPattern "*"
  || match afterPrefix "*." hostPattern with
     | Some dom => starsFollow false dom
     | None => lacks "*" hostPattern
     end.

(** Whether a star read next by the RegExp constructor has something to
    repeat. *)
Definition repeatable (st : pstate) : bool :=
  match lastT (cur st), terms (cur st) with
  | Atom, _ :: _ => true
  | _, _ => false
  end.

(** The terms that the RegExp constructor reads from the three parts of the
    pattern source. *)
Definition schemeTerms (scheme : string) : list regex :=
  if String.eqb scheme "*"
  then [RChar "h"; RChar "t"; RChar "t"; RChar "p"; ROpt (RChar "s")]
  else map RChar (chars scheme).

Definition hostTerms (hostPattern : string) : list regex :=
  if String.eqb hostPattern "*" then [RPlus (RClass true ["/"%char])]
  else match afterPrefix "*." hostPattern with
       | Some dom =>
           ROpt (RSeq (RPlus (RClass true ["/"; "."]%char)) (RChar "."))
           :: map RChar (chars dom)
       | None => map RChar (chars hostPattern)
       end.

Definition globTerm (c : ascii) : regex :=
  if Ascii.eqb c "*" then RStar RDot else RChar c.

Definition pathTerms (pathPattern : option string) : list regex :=
  match pathPattern with
  | Some p => map globTerm (chars p)
  | None => [ROpt (RSeq (RChar "/") (RStar RDot))]
  end.

(** The RegExp object for a pattern with the groups [g]. *)
Definition compiled (g : patternGroups) : regex :=
  fold_right RSeq REol
    (RBol :: schemeTerms (mscheme g) ++ map RChar (chars "://")
          ++ hostTerms (mhost g) ++ pathTerms (mpath g)).

(** [s] makes the RegExp constructor add the terms [ts] to the current
    alternative, whatever stands before. *)
Definition pushes (s : string) (ts : list regex) : Prop :=
  ∀ al tms l stk, ∃ l',
    run (PState MNormal (Frame al tms l) stk) s
    = inr (PState MNormal (Frame al (rev ts ++ tms) l') stk).

(** The RegExp that [matchPatternToRegExp] splits a pattern with, read by
    the constructor without the names of its groups. *)
Definition splitSource : string := "^(\*|https?):\/\/([^\/]+)(\/.*)?$".

Definition splitRegExp : regex :=
  Eval vm_compute in
    match parse splitSource with inr r => r | inl _ => RFail end.

(** ** The directives of a metadata block, line by line *)

(** The lines of the block, as the loop of [parseMetadata] sees them. *)
Definition blockLines (block : string) : list string :=
  JS.splitLines (JS.trim block).

(** The key and the trimmed value of a line that is a directive. *)
Definition directiveOf (line : string) : option (string * string) :=
  match matchDirective (JS.trim line) with
  | Some (key, value) => Some (key, JS.trim value)
  | None => None
  end.

(** The values of the directive [key] on the lines, in the order of the
    lines. *)
Definition directiveValues (key : string) (lines : list string) : list string :=
  omap (λ line, match directiveOf line with
                | Some (k, v) => if String.eqb k key then Some v else None
                | None => None
                end) lines.

(** Whether the key of the directive on the line is a property name of
    [Object.prototype]. *)
Definition inheritedLine (line : string) : bool :=
  match directiveOf line with
  | Some (key, _) => inherited key
  | None => false
  end.

(** The run-at that follows from the values of [@run-at]: the first one in
    lower case when it is one of the three, [document-start] otherwise. *)
Definition runAtOf (values : list string) : string :=
  match values with
  | first :: _ =>
      if isValidRunAt (JS.toLowerCase first) then JS.toLowerCase first
      else "document-start"
  | [] => "document-start"
  end.

(** The metadata block of the first example script. *)
Definition scriptABlock : string :=
  Eval vm_compute in default "" (metaBlock scriptA).

(** A script with a directive named like a property of [Object.prototype]. *)
Definition scriptF : string := "// ==UserScript==
// @name        F
// @match       *://*/*
// @constructor x
// ==/UserScript==
console.log(6);".

Definition scriptFBlock : string :=
  Eval vm_compute in default "" (metaBlock scriptF).

(** No own property of [metadata] has a name of [Object.prototype]. *)
Definition clean (m : gmap string (list string)) : Prop :=
  ∀ key, inherited key = true → m !! key = None.

(** ** gm-api-polyfill.js: the storage functions

    The four functions that a userscript calls. [bridged] tells whether the
    bridge function of the host is present on [window]; a rejected promise is
    a [Throw], and an exception of the host function rejects the promise of
    the page (the model keeps its kind). The values of the model are all
    serializable, so the call of [JSON.stringify] that guards [GM_setValue]
    does not throw. *)

(** [typeof key !== 'string' || key.length === 0] *)
Definition invalidKey (key : value) : bool :=
  match key with
  | VString k => String.eqb k ""
  | _ => true
  end.

(** A key that passed the test, as the string it is. *)
Definition keyText (key : value) : string :=
  match key with
  | VString k => k
  | _ => ""
  end.

Definition GM_setValue (bridged : bool) (key v : value) (st : storage)
  : completion unit * storage :=
  if negb bridged
  then (Throw (ErrorMsg "GM_setValue bridge (window.gmSetValueBridge) not found."), st)
  else if invalidKey key
  then (Throw (ErrorMsg "GM_setValue: key must be a non-empty string."), st)
  else gmSetValueBridge (keyText key) v st.

Definition GM_getValue (bridged : bool) (key defaultValue : value) (st : storage)
  : completion value :=
  if negb bridged then Normal defaultValue
  else if invalidKey key
  then Throw (ErrorMsg "GM_getValue: key must be a non-empty string.")
  else gmGetValueBridge (keyText key) defaultValue st.

Definition GM_deleteValue (bridged : bool) (key : value) (st : storage)
  : completion unit * storage :=
  if negb bridged
  then (Throw (ErrorMsg "GM_deleteValue bridge (window.gmDeleteValueBridge) not found."), st)
  else if invalidKey key
  then (Throw (ErrorMsg "GM_deleteValue: key must be a non-empty string."), st)
  else gmDeleteValueBridge (keyText key) st.

Definition GM_listValues (bridged : bool) (st : storage) : completion (list string) :=
  if negb bridged then Normal [] else Normal (gmListValuesBridge st).

(** Mutating calls of a userscript, with the bridge in place, and what a
    sequence of them does to the host state. *)
Inductive storageCall : Type :=
| CallSet (key v : value)
| CallDelete (key : value).


Definition runCall (st : storage) (c : storageCall) : storage :=
  match c with
  | CallSet key v => (GM_setValue true key v st).2
  | CallDelete key => (GM_deleteValue true key st).2
  end.

Definition runCalls (calls : list storageCall) (st : storage) : storage :=
  fold_left runCall calls st.



(** The store after [set("hasOwnProperty", 1)] on the empty store. *)
Definition shadowedStorage : storage :=
  Eval vm_compute in (gmSetValueBridge "hasOwnProperty" (VNumber 1) emptyStorage).2.

(** ** The callbacks of one request *)

(** Whether a callback is the callback of a final event. *)
Definition isFinalEvent (e : nat * string) : bool := hasName e.2 finalEvents.

(** A sequence of page actions: a call, a progress event, the final event
    twice, and a second call. *)
Definition exampleActions : list pageAction :=
  [Call plainCall; Event 1 "onprogress" emptyData; Event 1 "onload" emptyData;
   Event 1 "onload" emptyData; Call plainCall].

(** A call without URL, and one whose [onerror] callback throws. *)
Definition callWithoutUrl : details :=
  Details None 0 None None ["onload"; "onerror"] None.

Definition throwingCall : details :=
  Details None 0 None None ["onload"; "onerror"] (Some (ErrorMsg "no url")).

(** Whether [GM_xmlhttpRequest] leaves by an exception: the request is
    refused for its URL and the caller's [onerror] throws. *)
Definition callThrows (d : details) : bool :=
  negb (truthy (d_url d)) && hasName "onerror" (d_handlers d)
  && match d_onerrorThrows d with Some _ => true | None => false end.

(** The two steps after which the callbacks of a request need not end with
    its final callback: a refused call that leaves by an exception, which
    stays registered, and the rejection of the bridge call of the request,
    which calls [onerror] whatever was called before. *)
Definition misfires (requestId : nat) (a : pageAction) : bool :=
  match a with
  | Call d => callThrows d
  | _ => isBridgeError requestId a
  end.

(** What is known of one identifier: it is not issued yet, or its
    callbacks so far are callbacks of events that are not final, followed by
    at most one more callback, and by none while the request is registered. *)
Definition tracked (requestId : nat) (pg : page) : Prop :=
  (requestIdCounter pg < requestId ∧ requestMap pg !! requestId = None
   ∧ eventsOf requestId pg = [])
  ∨ (requestId ≤ requestIdCounter pg
     ∧ ∃ before closing,
         eventsOf requestId pg = before ++ closing
         ∧ Forall (λ e, isFinalEvent e = false) before
         ∧ length closing ≤ 1
         ∧ (is_Some (requestMap pg !! requestId) → closing = [])).

(** ** gm-api-polyfill.js and main.js: GM_openInTab *)

(** [v?.name] for a name that no prototype defines: the own property of an
    object (property names are distinct), [undefined] otherwise. *)
Definition getProperty (v : value) (name : string) : value :=
  match v with
  | VObject props =>
      match list_find (λ p, p.1 = name) props with
      | Some (_, (_, x)) => x
      | None => VUndefined
      end
  | _ => VUndefined
  end.

(** Truthiness of a value. *)
Definition truthyValue (v : value) : bool :=
  match v with
  | VUndefined | VNull => false
  | VBool b => b
  | VNumber n => negb (n =? 0)%Z
  | VString s => negb (String.eqb s "")
  | VArray _ | VObject _ => true
  end.

(** [typeof options === 'boolean' ? options : options?.active === false] *)
Definition openInBackground (options : value) : bool :=
  match options with
  | VBool b => b
  | _ =>
      match getProperty options "active" with
      | VBool false => true
      | _ => false
      end
  end.

(** The calls that the host makes on the browser for one call of the
    bridge, in order. *)
Inductive tabStep : Type :=
| NewPage                 (* context.newPage() *)
| Goto (url : string)     (* newPage.goto(url) *)
| BringToFront.           (* page.bringToFront() *)

(** What the browser answers: whether [newPage] and [goto] throw, and
    whether the original page is closed. *)
Record browserAnswers : Type := BrowserAnswers {
  newPageThrows : bool;
  gotoThrows : bool;
  pageIsClosed : bool
}.

(** [GM_openInTab_bridge] of the host; the context and the page exist where
    the function is defined, and an exception is logged only. *)
Definition GM_openInTab_bridge (w : browserAnswers) (url : string) (options : value)
  : list tabStep :=
  if newPageThrows w then [NewPage]
  else if gotoThrows w then [NewPage; Goto url]
  else if negb (truthyValue (getProperty options "active")) && negb (pageIsClosed w)
  then [NewPage; Goto url; BringToFront]
  else [NewPage; Goto url].

(** [GM_openInTab] of the page; without the bridge it only logs. *)
Definition GM_openInTab (bridged : bool) (w : browserAnswers) (url : string)
    (options : value) : list tabStep :=
  if negb bridged then []
  else GM_openInTab_bridge w url
         (VObject [("active", VBool (negb (openInBackground options)))]).

(** * Properties *)

(** ** The matcher against the reference semantics of patterns *)

Section MatcherFacts.

Ltac invert_match :=
  match goal with
  | H : Match _ _ ?r _ |- _ =>
      lazymatch r with
      | RFail => inversion H
      | REmpty => inversion H; subst; clear H
      | RChar _ => inversion H; subst; clear H
      | RDot => inversion H; subst; clear H
      | RClass _ _ => inversion H; subst; clear H
      | RBol => inversion H; subst; clear H
      | REol => inversion H; subst; clear H
      | RSeq _ _ => inversion H; subst; clear H
      | RAlt _ _ => inversion H; subst; clear H
      | RPlus _ => inversion H; subst; clear H
      | ROpt _ => inversion H; subst; clear H
      end
  end.

Lemma Match_fail bol eol s : ¬ Match bol eol RFail s.
Proof. inversion 1. Qed.

Lemma Match_seq_empty bol eol r s :
  Match bol eol r s ↔ Match bol eol (RSeq REmpty r) s.
Proof.
  split.
  - intros H. change s with ([] ++ s). constructor; [constructor|].
    by rewrite andb_true_r.
  - intros H. invert_match. invert_match. simpl in *.
    match goal with H : Match (_ && true) _ _ _ |- _ => by rewrite andb_true_r in H end.
Qed.

Lemma Match_seq bol eol r1 r2 s :
  Match bol eol (seq r1 r2) s ↔ Match bol eol (RSeq r1 r2) s.
Proof.
  assert (∀ r, ¬ Match bol eol (RSeq RFail r) s) as Hl.
  { intros r H. invert_match. invert_match. }
  assert (∀ r, ¬ Match bol eol (RSeq r RFail) s) as Hr.
  { intros r H. invert_match. invert_match. }
  destruct r1, r2; simpl; try done; try apply Match_seq_empty;
    (split; [by intros ?%Match_fail | by (intros ?%Hl || intros ?%Hr)]).
Qed.

Lemma Match_alt bol eol r1 r2 s :
  Match bol eol (alt r1 r2) s ↔ Match bol eol r1 s ∨ Match bol eol r2 s.
Proof.
  assert (Match bol eol (RAlt r1 r2) s ↔ Match bol eol r1 s ∨ Match bol eol r2 s) as H.
  { split; [intros ?; invert_match; auto
           | intros [?|?]; [by apply M_AltL | by apply M_AltR]]. }
  destruct r1, r2; simpl; try done;
    (split; [auto | by (intros [?%Match_fail|?] || intros [?|?%Match_fail])]).
Qed.

Lemma nullable_Match r : ∀ bol eol,
  nullable bol eol r = true ↔ Match bol eol r [].
Proof.
  induction r as [| | c | | neg items | | | r1 IH1 r2 IH2 | r1 IH1 r2 IH2
                 | r IH | r IH | r IH]; intros bol eol; simpl.
  - split; [done | by intros ?%Match_fail].
  - split; [constructor | done].
  - split; [done | inversion 1].
  - split; [done | inversion 1].
  - split; [done | inversion 1].
  - split; [intros ->; constructor | by inversion 1].
  - split; [intros ->; constructor | by inversion 1].
  - rewrite andb_true_iff, IH1, IH2. split.
    + intros [H1 H2]. change (@nil ascii) with (@nil ascii ++ []).
      constructor; simpl; by rewrite andb_true_r.
    + intros H. inversion H as [| | | | | |? ? ? ? s1 s2 H1 H2 Hb He Hr Hs| | | | | | |].
      apply app_eq_nil in Hs as [-> ->]. simpl in *.
      by rewrite andb_true_r in H1, H2.
  - rewrite orb_true_iff, IH1, IH2.
    split; [intros [?|?]; [by apply M_AltL | by apply M_AltR]
           | intros ?; invert_match; auto].
  - split; [constructor | done].
  - rewrite IH. split.
    + intros H. change (@nil ascii) with (@nil ascii ++ []).
      constructor; simpl; [by rewrite andb_true_r | constructor].
    + intros H. inversion H as [| | | | | | | | | | |? ? ? s1 s2 H1 H2 Hb He Hr Hs| |].
      apply app_eq_nil in Hs as [-> ->]. simpl in *. by rewrite andb_true_r in H1.
  - split; [constructor | done].
Qed.

(** A match of a star against a string that starts with [c] begins with a
    match of the body that consumes [c]. *)
Lemma Match_star_cons r c : ∀ bol eol s,
  Match bol eol (RStar r) (c :: s) →
  ∃ s1 s2, s = s1 ++ s2 ∧ Match bol (eol && isNil s2) r (c :: s1)
           ∧ Match false eol (RStar r) s2.
Proof.
  intros bol eol s H.
  remember (RStar r) as rs eqn:Hrs. remember (c :: s) as cs eqn:Hcs.
  revert s Hcs.
  induction H as [| | | | | | | | | |bol eol r' s1 s2 H1 _ H2 IH2| | |];
    intros s0 Hcs; try discriminate.
  injection Hrs as ->. destruct s1 as [|c' s1]; simpl in *.
  - rewrite andb_true_r in H2, IH2. by apply IH2.
  - injection Hcs as -> <-. exists s1, s2. rewrite andb_false_r in H2. done.
Qed.

Lemma deriv_Match r : ∀ bol eol c s,
  Match false eol (deriv bol c r) s ↔ Match bol eol r (c :: s).
Proof.
  induction r as [| | d | | neg items | | | r1 IH1 r2 IH2 | r1 IH1 r2 IH2
                 | r IH | r IH | r IH]; intros bol eol c s; simpl.
  - split; [by intros ?%Match_fail | inversion 1].
  - split; [by intros ?%Match_fail | inversion 1].
  - destruct (Ascii.eqb_spec c d) as [->|Hne].
    + split; [inversion 1; constructor | inversion 1; constructor].
    + split; [by intros ?%Match_fail | by inversion 1].
  - destruct (JS.isLineTerminator c) eqn:Hc; simpl.
    + split; [by intros ?%Match_fail | inversion 1; congruence].
    + split; [inversion 1; by constructor | inversion 1; constructor].
  - destruct (xorb neg (JS.mem c items)) eqn:Hc.
    + split; [inversion 1; by constructor | inversion 1; constructor].
    + split; [by intros ?%Match_fail | inversion 1; congruence].
  - split; [by intros ?%Match_fail | inversion 1].
  - split; [by intros ?%Match_fail | inversion 1].
  - rewrite Match_alt, Match_seq. split.
    + intros [H | H].
      * inversion H as [| | | | | |? ? ? ? s1 s2 H1 H2| | | | | | |]; subst.
        apply IH1 in H1. change (c :: s1 ++ s2) with ((c :: s1) ++ s2).
        constructor; [done|]. simpl. by rewrite andb_false_r.
      * destruct (nullable bol false r1) eqn:Hn; [|by apply Match_fail in H].
        apply nullable_Match in Hn. apply IH2 in H.
        change (c :: s) with ([] ++ c :: s).
        constructor; simpl; [by rewrite andb_false_r | by rewrite andb_true_r].
    + inversion 1 as [| | | | | |? ? ? ? s1 s2 H1 H2 Hb He Hr Hs| | | | | | |]; subst.
      destruct s1 as [|c' s1]; simpl in *.
      * subst s2. rewrite andb_false_r in H1. rewrite andb_true_r in H2.
        right. apply nullable_Match in H1. rewrite H1. by apply IH2.
      * injection Hs as -> <-. left. rewrite andb_false_r in H2.
        constructor; [by apply IH1 | done].
  - rewrite Match_alt, IH1, IH2.
    split; [intros [?|?]; [by apply M_AltL | by apply M_AltR] | inversion 1; auto].
  - rewrite Match_seq. split.
    + inversion 1 as [| | | | | |? ? ? ? s1 s2 H1 H2| | | | | | |]; subst.
      apply IH in H1. change (c :: s1 ++ s2) with ((c :: s1) ++ s2).
      constructor; [done|]. simpl. by rewrite andb_false_r.
    + intros (s1 & s2 & -> & H1 & H2)%Match_star_cons.
      constructor; [by apply IH | done].
  - rewrite Match_seq. split.
    + inversion 1 as [| | | | | |? ? ? ? s1 s2 H1 H2| | | | | | |]; subst.
      apply IH in H1. change (c :: s1 ++ s2) with ((c :: s1) ++ s2).
      constructor; [done|]. simpl. by rewrite andb_false_r.
    + inversion 1 as [| | | | | | | | | | |? ? ? s1 s2 H1 H2 Hb He Hr Hs| |]; subst.
      destruct s1 as [|c' s1]; simpl in *.
      * subst s2. rewrite andb_true_r in H2.
        apply Match_star_cons in H2 as (s1 & s2 & -> & H1' & H2').
        constructor; [by apply IH | done].
      * injection Hs as -> <-. rewrite andb_false_r in H2.
        constructor; [by apply IH | done].
  - rewrite IH. split; [by constructor | by inversion 1].
Qed.

(** [matchesHere] finds the matches that start at the current position. *)
Lemma matchesHere_Match s : ∀ bol r,
  matchesHere bol r s = true ↔
  ∃ s1 s2, s = s1 ++ s2 ∧ Match bol (isNil s2) r s1.
Proof.
  induction s as [|c s IH]; intros bol r; simpl.
  - rewrite nullable_Match. split.
    + intros H. by exists [], [].
    + intros (s1 & s2 & Hs & H). symmetry in Hs.
      apply app_eq_nil in Hs as [-> ->]. done.
  - rewrite orb_true_iff, nullable_Match, IH. split.
    + intros [H | (s1 & s2 & -> & H)].
      * by exists [], (c :: s).
      * exists (c :: s1), s2. split; [done|]. by apply deriv_Match.
    + intros (s1 & s2 & Hs & H). destruct s1 as [|c' s1]; simpl in *.
      * subst s2. by left.
      * injection Hs as -> ->. right. exists s1, s2. split; [done|].
        by apply deriv_Match.
Qed.

Lemma searchFrom_Match s : ∀ bol r,
  searchFrom bol r s = true ↔
  ∃ pre s1 post, s = pre ++ s1 ++ post
                 ∧ Match (bol && isNil pre) (isNil post) r s1.
Proof.
  induction s as [|c s IH]; intros bol r; simpl.
  - rewrite orb_false_r, nullable_Match. split.
    + intros H. exists [], [], []. simpl. by rewrite andb_true_r.
    + intros (pre & s1 & post & Hs & H). symmetry in Hs.
      apply app_eq_nil in Hs as [-> [-> ->]%app_eq_nil].
      simpl in H. by rewrite andb_true_r in H.
  - rewrite orb_true_iff, orb_true_iff, nullable_Match, IH.
    pose proof (matchesHere_Match s false (deriv bol c r)) as Hm. rewrite Hm. split.
    + intros [[H | (s1 & s2 & -> & H)] | (pre & s1 & post & -> & H)].
      * exists [], [], (c :: s). simpl. by rewrite andb_true_r.
      * exists [], (c :: s1), s2. simpl. rewrite andb_true_r. split; [done|].
        by apply deriv_Match.
      * exists (c :: pre), s1, post. simpl in *. by rewrite andb_false_r.
    + intros (pre & s1 & post & Hs & H). destruct pre as [|c' pre]; simpl in *.
      * rewrite andb_true_r in H. left. destruct s1 as [|c' s1]; simpl in *.
        -- subst post. by left.
        -- injection Hs as -> ->. right. exists s1, post. split; [done|].
           by apply deriv_Match.
      * injection Hs as -> ->. rewrite andb_false_r in H. right.
        by exists pre, s1, post.
Qed.

(** [test] holds exactly when the pattern matches some substring of the
    input, in the reference semantics. *)
Theorem test_Match (r : regex) (s : string) :
  test r s = true ↔
  ∃ pre s1 post, list_ascii_of_string s = pre ++ s1 ++ post
                 ∧ Match (isNil pre) (isNil post) r s1.
Proof. unfold test. by rewrite searchFrom_Match. Qed.

End MatcherFacts.

(** ** The RegExp constructor on the sources the compiler emits *)

Section ParseFacts.

Lemma run_app st s1 s2 :
  run st (s1 +:+ s2) =
  match run st s1 with inl e => inl e | inr st' => run st' s2 end.
Proof.
  revert st. induction s1 as [|c s1 IH]; intros st; simpl; [done|].
  destruct (step st c); [done|]. apply IH.
Qed.

Lemma char_cases (c : ascii) :
  (JS.mem c JS.regExpSpecials = true ∧ JS.isAsciiAlnum c = false ∧ Ascii.eqb c "*"%char = false)
  ∨ c = "*"%char
  ∨ (JS.mem c JS.regExpSpecials = false ∧ Ascii.eqb c "*"%char = false ∧
     ∀ st, stepNormal st c =
           inr (PState MNormal (pushTerm (RChar c) Atom (cur st)) (stack st))).
Proof.
  destruct c as [[] [] [] [] [] [] [] []];
    first [ left; repeat split; reflexivity
          | right; left; reflexivity
          | right; right; repeat split; reflexivity ].
Qed.

Lemma step_star st :
  pmode st = MNormal → okRun (step st "*"%char).
Proof.
  destruct st as [m [al ts l] stk]; simpl; intros ->.
  unfold step, stepNormal, quantify; simpl.
  destruct l, ts; simpl; done.
Qed.

Lemma escapeSpecials_cons c s :
  JS.escapeSpecials (String c s) =
  if JS.mem c JS.regExpSpecials
  then String "\"%char (String c (JS.escapeSpecials s))
  else String c (JS.escapeSpecials s).
Proof. reflexivity. Qed.

Lemma replaceStars_cons c s :
  JS.replaceStars (String c s) =
  if Ascii.eqb c "*"%char then String "."%char (String "*"%char (JS.replaceStars s))
  else String c (JS.replaceStars s).
Proof. reflexivity. Qed.

Lemma run_cons st c s :
  run st (String c s) =
  match step st c with inl e => inl e | inr st' => run st' s end.
Proof. reflexivity. Qed.

Lemma step_escape st c :
  pmode st = MNormal → JS.isAsciiAlnum c = false →
  ∃ st', run st (String "\"%char (String c EmptyString)) = inr st' ∧ pmode st' = MNormal.
Proof.
  destruct st as [m f stk]; cbn [pmode]; intros -> Hal.
  rewrite run_cons.
  change (step (PState MNormal f stk) "\"%char) with (@inr parseError _ (PState MEscape f stk)).
  cbv beta iota. rewrite run_cons. unfold step; cbn [pmode cur stack]. rewrite Hal.
  cbn [run]. eauto.
Qed.

Lemma run_escaped s : ∀ st,
  pmode st = MNormal → okRun (run st (JS.escapeSpecials s)).
Proof.
  induction s as [|c s IH]; intros st Hst; [done|].
  rewrite escapeSpecials_cons.
  destruct (char_cases c) as [(Hm & Hal & _) | [-> | (Hm & _ & Hstep)]].
  - rewrite Hm.
    change (String "\"%char (String c (JS.escapeSpecials s)))
      with (String "\"%char (String c EmptyString) +:+ JS.escapeSpecials s).
    rewrite run_app.
    destruct (step_escape st c Hst Hal) as (st' & -> & Hst'). by apply IH.
  - change (JS.mem "*"%char JS.regExpSpecials) with false. cbv iota.
    rewrite run_cons. pose proof (step_star st Hst) as H.
    destruct (step st "*"%char) as [e|st']; simpl in H; [done|]. by apply IH.
  - rewrite Hm, run_cons. unfold step. rewrite Hst, Hstep. by apply IH.
Qed.

Lemma run_dot_star st :
  pmode st = MNormal →
  ∃ st', run st (String "."%char (String "*"%char EmptyString)) = inr st' ∧ pmode st' = MNormal.
Proof.
  destruct st as [m f stk]; cbn [pmode]; intros ->. cbn. eauto.
Qed.

Lemma run_escaped_stars s : ∀ st,
  pmode st = MNormal → okRun (run st (JS.replaceStars (JS.escapeSpecials s))).
Proof.
  induction s as [|c s IH]; intros st Hst; [done|].
  rewrite escapeSpecials_cons.
  destruct (char_cases c) as [(Hm & Hal & Hne) | [-> | (Hm & Hne & Hstep)]].
  - rewrite Hm, replaceStars_cons.
    change (Ascii.eqb "\"%char "*"%char) with false. cbv iota.
    rewrite replaceStars_cons, Hne.
    change (String "\"%char (String c (JS.replaceStars (JS.escapeSpecials s))))
      with (String "\"%char (String c EmptyString) +:+ JS.replaceStars (JS.escapeSpecials s)).
    rewrite run_app.
    destruct (step_escape st c Hst Hal) as (st' & -> & Hst'). by apply IH.
  - change (JS.mem "*"%char JS.regExpSpecials) with false. cbv iota.
    rewrite replaceStars_cons. change (Ascii.eqb "*"%char "*"%char) with true. cbv iota.
    change (String "."%char (String "*"%char (JS.replaceStars (JS.escapeSpecials s))))
      with (String "."%char (String "*"%char EmptyString) +:+ JS.replaceStars (JS.escapeSpecials s)).
    rewrite run_app.
    destruct (run_dot_star st Hst) as (st' & -> & Hst'). by apply IH.
  - rewrite Hm, replaceStars_cons, Hne, run_cons.
    unfold step. rewrite Hst, Hstep. by apply IH.
Qed.

Lemma okRun_then r s :
  okRun r → (∀ st, pmode st = MNormal → okRun (run st s)) →
  okRun (match r with inl e => inl e | inr st' => run st' s end).
Proof. destruct r as [e|st]; simpl; auto. Qed.

Lemma run_fixed_ok st s :
  s ∈ fixedPieces → pmode st = MNormal → okRun (run st s).
Proof.
  intros Hs Hst. destruct st as [m [al ts l] stk]; cbn [pmode] in Hst; subst m.
  unfold fixedPieces in Hs.
  repeat (apply elem_of_cons in Hs as [-> | Hs]; [cbn; reflexivity|]).
  by apply elem_of_nil in Hs.
Qed.

Ltac fixed_piece := apply run_fixed_ok; [unfold fixedPieces; repeat constructor|done].

Lemma startsWith_cons b s a p :
  JS.startsWith (String b s) (String a p) = Ascii.eqb a b && JS.startsWith s p.
Proof. reflexivity. Qed.

Lemma escaped_wild_prefix host :
  JS.startsWith (JS.escapeSpecials host) "*\." = true →
  ∃ h, JS.substring 3 (JS.escapeSpecials host) = JS.escapeSpecials h.
Proof.
  destruct host as [|c1 host]; [done|].
  rewrite escapeSpecials_cons.
  destruct (char_cases c1) as [(Hm & _) | [-> | (Hm & Hne & _)]].
  - rewrite Hm, startsWith_cons. done.
  - change (JS.mem "*"%char JS.regExpSpecials) with false. cbv iota.
    rewrite startsWith_cons. change (Ascii.eqb "*" "*")%char with true.
    rewrite andb_true_l.
    destruct host as [|c2 h]; [done|].
    rewrite escapeSpecials_cons.
    destruct (char_cases c2) as [(Hm2 & _) | [-> | (Hm2 & Hne2 & _)]].
    + rewrite Hm2. intros _. exists h. reflexivity.
    + change (JS.mem "*"%char JS.regExpSpecials) with false. cbv iota.
      rewrite startsWith_cons. done.
    + rewrite Hm2, startsWith_cons.
      destruct (Ascii.eqb_spec "\"%char c2) as [<-|]; [discriminate Hm2|done].
  - rewrite Hm, startsWith_cons, Ascii.eqb_sym, Hne. done.
Qed.

Lemma matchHostPath_scheme scheme rest g :
  matchHostPath scheme rest = Some g → mscheme g = scheme.
Proof.
  unfold matchHostPath. destruct (spanHost rest) as [host tail].
  destruct host; [done|]. destruct tail; [by intros [= <-]|].
  destruct (noLineTerminator _); [by intros [= <-]|done].
Qed.

Lemma matchPatternGroups_scheme pattern g :
  matchPatternGroups pattern = Some g →
  schemeRegex (mscheme g) ∈ fixedPieces.
Proof.
  unfold matchPatternGroups.
  repeat case_match; try done; intros ->%matchHostPath_scheme; cbn;
    unfold fixedPieces; repeat constructor.
Qed.

Lemma hostRegex_ok host hostRe st :
  hostRegex host = inr hostRe → pmode st = MNormal → okRun (run st hostRe).
Proof.
  unfold hostRegex. cbv zeta. intros H Hst.
  destruct (JS.startsWith _ "*\.") eqn:Hw.
  - destruct (escaped_wild_prefix _ Hw) as (h & Hh). rewrite Hh in H.
    injection H as <-.
    rewrite run_app. apply okRun_then; [fixed_piece|].
    intros. by apply run_escaped.
  - destruct (String.eqb _ "*"); [injection H as <-; fixed_piece|].
    destruct (JS.includes _ "*"); [done|]. injection H as <-. by apply run_escaped.
Qed.

Lemma pathRegex_ok p st : pmode st = MNormal → okRun (run st (pathRegex p)).
Proof.
  intros Hst. unfold pathRegex. destruct p as [p|]; [|fixed_piece].
  destruct (String.eqb p ""); [fixed_piece|]. by apply run_escaped_stars.
Qed.

(** The pattern sources that [matchPatternToRegExp] hands to the RegExp
    constructor stay inside the syntax that [parse] implements. *)
Theorem unsupported_free pattern g hostRe :
  matchPatternGroups pattern = Some g →
  hostRegex (mhost g) = inr hostRe →
  parse (finalRegexString g hostRe) ≠ inl Unsupported.
Proof.
  intros Hg Hh. pose proof (matchPatternGroups_scheme _ _ Hg) as Hs.
  assert (okRun (run (PState MNormal emptyFrame []) (finalRegexString g hostRe))) as Hok.
  { unfold finalRegexString.
    rewrite run_app. apply okRun_then; [fixed_piece|intros st1 H1].
    rewrite run_app. apply okRun_then; [by apply run_fixed_ok|intros st2 H2].
    rewrite run_app. apply okRun_then; [fixed_piece|intros st3 H3].
    rewrite run_app. apply okRun_then; [by eapply hostRegex_ok|intros st4 H4].
    rewrite run_app. apply okRun_then; [by apply pathRegex_ok|intros st5 H5].
    fixed_piece. }
  unfold parse. destruct (run _ _) as [e|st]; simpl in Hok; [by subst|].
  unfold finish. rewrite Hok. by destruct (stack st).
Qed.

End ParseFacts.

(** ** The match-pattern compiler *)

Lemma try_catch_normal {A} (body : completion A) (handler : exn → A) :
  ∃ a, try_catch body (λ e, Normal (handler e)) = Normal a.
Proof. destruct body; simpl; eauto. Qed.

(** Every path through the compiler ends in a [return]. *)
Lemma matchPatternToRegExp_returns pattern :
  ∃ m, matchPatternToRegExp pattern = Normal m.
Proof.
  unfold matchPatternToRegExp.
  destruct (String.eqb pattern "<all_urls>"); [eauto|].
  apply try_catch_normal.
Qed.

(** C7. Compilation of a match pattern is total: for every string,
    [matchPatternToRegExp] completes normally, with a RegExp object or with
    [null] (the invalid-pattern outcome); no exception leaves the function. *)
Theorem matchPatternToRegExp_total (pattern : string) :
  (∃ re, matchPatternToRegExp pattern = Normal (Matcher re))
  ∨ (∃ why, matchPatternToRegExp pattern = Normal (Null why)).
Proof.
  unfold matchPatternToRegExp.
  destruct (String.eqb pattern "<all_urls>"); [left; eauto|].
  match goal with |- context [try_catch ?b _] => destruct b as [[re|why]|e] end;
    simpl; eauto.
Qed.

(** The exception that the [catch] clause of the compiler exists for: a star
    after the wildcard prefix of the host makes the RegExp constructor throw,
    and the function returns [null]. *)
Example matchPatternToRegExp_catches :
  matchPatternToRegExp "*://*.*/*" = Normal (Null (ConversionError SyntaxError)).
Proof. reflexivity. Qed.

Lemma anyPatternMatches_total patterns urlToMatch :
  ∃ b, anyPatternMatches patterns urlToMatch = Normal b.
Proof.
  induction patterns as [|p ps IH]; simpl; [eauto|].
  destruct (matchPatternToRegExp_returns p) as [[re|why] ->]; simpl; [|done].
  destruct (test re urlToMatch); eauto.
Qed.

Lemma urlMatches_total URL_new patterns urlString :
  ∃ b, urlMatches URL_new patterns urlString = Normal b.
Proof.
  unfold urlMatches, parseTarget.
  destruct (URL_new urlString) as [u|e]; simpl; [|eauto].
  destruct (negb _); simpl; [eauto|]. apply anyPatternMatches_total.
Qed.

Lemma urlMatches_matchesUrl URL_new patterns urlString :
  urlMatches URL_new patterns urlString = Normal (matchesUrl URL_new patterns urlString).
Proof.
  unfold matchesUrl.
  by destruct (urlMatches_total URL_new patterns urlString) as [b ->].
Qed.

(** C10. Whatever the patterns, [urlMatches] returns [false], and does not
    throw, for a string that [new URL] rejects and for a URL whose protocol is
    neither [http:] nor [https:]. *)
Theorem urlMatches_non_http (URL_new : string → completion URL)
    (patterns : list string) (urlString : string) :
  isHttpTarget URL_new urlString = false →
  urlMatches URL_new patterns urlString = Normal false.
Proof.
  unfold isHttpTarget, urlMatches, parseTarget.
  destruct (URL_new urlString) as [u|e]; simpl; [|done].
  by intros ->.
Qed.

Lemma urlMatches_non_http_witness :
  isHttpTarget URL_examples "ftp://a.b/" = false
  ∧ isHttpTarget URL_examples "not a url" = false
  ∧ urlMatches URL_examples ["<all_urls>"; "*://*/*"] "ftp://a.b/" = Normal false
  ∧ urlMatches URL_examples ["<all_urls>"; "*://*/*"] "not a url" = Normal false.
Proof.
  split; [reflexivity|]. split; [reflexivity|].
  split; apply urlMatches_non_http; reflexivity.
Defined.

(** C3, at the input where the code departs from it. The pattern
    [*://*.example.com/*] matches the domain itself and the domain under one
    label, and rejects a look-alike domain; it also rejects the domain under
    a chain of two labels, which the claim says it accepts. *)
Theorem wildcard_host_one_label_only :
  urlMatches URL_examples ["*://*.example.com/*"] "https://example.com/" = Normal true
  ∧ urlMatches URL_examples ["*://*.example.com/*"] "https://a.example.com/" = Normal true
  ∧ urlMatches URL_examples ["*://*.example.com/*"] "https://example.com.evil.com/" = Normal false
  ∧ urlMatches URL_examples ["*://*.example.com/*"] "https://a.b.example.com/" = Normal false.
Proof. repeat split; vm_compute; reflexivity. Qed.

(** ** What the wildcard host accepts *)

Section WildcardHost.

Lemma Match_flags r : ∀ bol eol bol' eol' s,
  assertionFree r = true → Match bol eol r s → Match bol' eol' r s.
Proof.
  intros bol eol bol' eol' s Hf H. revert bol' eol' Hf.
  induction H; intros bol' eol' Hf; simpl in Hf;
    try discriminate; try apply andb_true_iff in Hf as [Hf1 Hf2];
    solve [constructor; eauto].
Qed.

Lemma Match_char bol eol c s : Match bol eol (RChar c) s ↔ s = [c].
Proof. split; [by inversion 1 | intros ->; constructor]. Qed.

Lemma Match_bol bol eol s : Match bol eol RBol s ↔ s = [] ∧ bol = true.
Proof. split; [by inversion 1 | intros [-> ->]; constructor]. Qed.

Lemma Match_eol bol eol s : Match bol eol REol s ↔ s = [] ∧ eol = true.
Proof. split; [by inversion 1 | intros [-> ->]; constructor]. Qed.

Lemma Match_opt bol eol r s :
  Match bol eol (ROpt r) s ↔ s = [] ∨ Match bol eol r s.
Proof.
  split; [inversion 1; auto | intros [->|H]; [constructor | by constructor]].
Qed.

Lemma Match_seq_inv bol eol r1 r2 s :
  Match bol eol (RSeq r1 r2) s ↔
  ∃ s1 s2, s = s1 ++ s2 ∧ Match bol (eol && isNil s2) r1 s1
           ∧ Match (bol && isNil s1) eol r2 s2.
Proof.
  split; [inversion 1; subst; eauto | intros (s1 & s2 & -> & H1 & H2); by constructor].
Qed.

(** A star over a pattern that matches single characters with property [P]. *)
Lemma Match_star_single (P : ascii → Prop) r :
  (∀ bol eol s, Match bol eol r s ↔ ∃ c, s = [c] ∧ P c) →
  ∀ bol eol s, Match bol eol (RStar r) s ↔ Forall P s.
Proof.
  intros Hr bol eol s. split.
  - intros H. remember (RStar r) as rs eqn:Hrs.
    induction H as [| | | | | | | | | |bol eol r' s1 s2 H1 _ H2 IH2| | |];
      try discriminate; [constructor|].
    injection Hrs as ->. apply Hr in H1 as (c & -> & Hc).
    constructor; [done | by apply IH2].
  - revert bol eol. induction s as [|c s IH]; intros bol eol H; [constructor|].
    apply Forall_cons in H as [Hc Hs].
    change (c :: s) with ([c] ++ s). constructor; [apply Hr; eauto | by apply IH].
Qed.

Lemma Match_plus_single (P : ascii → Prop) r :
  (∀ bol eol s, Match bol eol r s ↔ ∃ c, s = [c] ∧ P c) →
  ∀ bol eol s, Match bol eol (RPlus r) s ↔ s ≠ [] ∧ Forall P s.
Proof.
  intros Hr bol eol s. split.
  - inversion 1 as [| | | | | | | | | | |? ? ? s1 s2 H1 H2| |]; subst.
    apply Hr in H1 as (c & -> & Hc).
    apply (Match_star_single P r Hr) in H2. split; [done|by constructor].
  - intros [Hne H]. destruct s as [|c s]; [done|].
    apply Forall_cons in H as [Hc Hs].
    change (c :: s) with ([c] ++ s).
    constructor; [apply Hr; eauto | by apply (Match_star_single P r Hr)].
Qed.

Lemma Match_dot bol eol s :
  Match bol eol RDot s ↔ ∃ c, s = [c] ∧ JS.isLineTerminator c = false.
Proof.
  split; [inversion 1; eauto | intros (c & -> & H); by constructor].
Qed.

Lemma Match_class neg items bol eol s :
  Match bol eol (RClass neg items) s ↔
  ∃ c, s = [c] ∧ xorb neg (JS.mem c items) = true.
Proof.
  split; [inversion 1; eauto | intros (c & -> & H); by constructor].
Qed.

(** A run of literal characters at the head of a sequence of patterns. *)
Lemma MatchAll_chars l : ∀ bol eol rs s,
  MatchAll bol eol (map RChar l ++ rs) s ↔
  ∃ s', s = l ++ s' ∧ MatchAll (bol && isNil l) eol rs s'.
Proof.
  induction l as [|c l IH]; intros bol eol rs s; simpl.
  - rewrite andb_true_r. split; [eauto | by intros (s' & -> & H)].
  - rewrite andb_false_r. split.
    + intros (s1 & s2 & -> & ->%Match_char & (s' & -> & H)%IH).
      simpl in H. rewrite andb_false_r in H. simpl in H. eauto.
    + intros (s' & -> & H). exists [c], (l ++ s'). split; [done|].
      split; [constructor|]. apply IH. simpl. rewrite andb_false_r. simpl. eauto.
Qed.

(** The pattern that [buildSeq] makes of a list of terms whose last one is
    not empty is the sequence of the terms. *)
Lemma buildSeq_fold t0 ts :
  t0 ≠ REmpty → buildSeq (t0 :: ts) = fold_right RSeq t0 (rev ts).
Proof.
  intros Ht0. unfold buildSeq. simpl.
  assert (∀ ts acc, acc ≠ REmpty →
            fold_left (λ acc t, match acc with REmpty => t | _ => RSeq t acc end) ts acc
            = fold_right RSeq acc (rev ts)) as H.
  { clear. induction ts as [|t ts IH]; intros acc Hacc; simpl; [done|].
    rewrite fold_right_app. simpl. destruct acc; try done; by apply IH. }
  by apply H.
Qed.

Lemma fold_right_seq_Match rs : ∀ t0 bol eol s,
  Match bol eol (fold_right RSeq t0 rs) s ↔ MatchAll bol eol (rs ++ [t0]) s.
Proof.
  induction rs as [|r rs IH]; intros t0 bol eol s; simpl.
  - split.
    + intros H. exists s, []. rewrite app_nil_r, andb_true_r. done.
    + intros (s1 & s2 & -> & H & ->). by rewrite app_nil_r, andb_true_r in *.
  - rewrite Match_seq_inv. split.
    + intros (s1 & s2 & -> & H1 & H2%IH). eauto.
    + intros (s1 & s2 & -> & H1 & H2%IH). eauto.
Qed.


Lemma run_escape_pair st c :
  pmode st = MNormal → JS.isAsciiAlnum c = false →
  run st (String "\"%char (String c EmptyString))
  = inr (PState MNormal (pushTerm (RChar c) Atom (cur st)) (stack st)).
Proof.
  destruct st as [m f stk]; cbn [pmode]; intros -> Hal.
  rewrite run_cons.
  change (step (PState MNormal f stk) "\"%char) with (@inr parseError _ (PState MEscape f stk)).
  cbv beta iota. rewrite run_cons. unfold step; cbn [pmode cur stack]. rewrite Hal.
  reflexivity.
Qed.

(** The constructor reads an escaped string without star as its characters. *)
Lemma run_escaped_literal dom : ∀ st,
  pmode st = MNormal → lacks "*" dom = true →
  run st (JS.escapeSpecials dom)
  = inr (PState MNormal
           (Frame (alts (cur st)) (rev (map RChar (chars dom)) ++ terms (cur st))
                  (if String.eqb dom "" then lastT (cur st) else Atom))
           (stack st)).
Proof.
  induction dom as [|c dom IH]; intros st Hst Hl.
  - destruct st as [m [al ts l] stk]. simpl in *. by subst.
  - unfold lacks in Hl. simpl in Hl. apply andb_true_iff in Hl as [Hc Hl].
    rewrite escapeSpecials_cons.
    assert (∀ st', st' = PState MNormal (pushTerm (RChar c) Atom (cur st)) (stack st) →
              run st' (JS.escapeSpecials dom)
              = inr (PState MNormal
                       (Frame (alts (cur st))
                          (rev (map RChar (chars (String c dom))) ++ terms (cur st)) Atom)
                       (stack st))) as Hgo.
    { intros st' ->. rewrite IH by done. simpl.
      rewrite <-app_assoc. simpl. by destruct (String.eqb dom ""). }
    destruct (char_cases c) as [(Hm & Hal & _) | [-> | (Hm & _ & Hstep)]].
    + rewrite Hm.
      change (String "\"%char (String c (JS.escapeSpecials dom)))
        with (String "\"%char (String c EmptyString) +:+ JS.escapeSpecials dom).
      rewrite run_app, run_escape_pair by done. by apply Hgo.
    + done.
    + rewrite Hm, run_cons. unfold step. rewrite Hst, Hstep. by apply Hgo.
Qed.

Lemma append_cons x (a b : string) : String x a +:+ b = String x (a +:+ b).
Proof. reflexivity. Qed.

Lemma append_assoc (a b c : string) : (a +:+ b) +:+ c = a +:+ (b +:+ c).
Proof.
  induction a as [|x a IH]; [done|]. by rewrite !append_cons, IH.
Qed.

Lemma chars_app (a b : string) : chars (a +:+ b) = chars a ++ chars b.
Proof.
  unfold chars. induction a as [|x a IH]; [done|].
  rewrite append_cons. simpl. by rewrite IH.
Qed.

Lemma spanHost_app h tail :
  lacks "/" h = true →
  spanHost (h +:+ String "/"%char tail) = (h, String "/"%char tail).
Proof.
  induction h as [|c h IH]; intros Hl; [done|].
  unfold lacks in Hl. simpl in Hl. apply andb_true_iff in Hl as [Hc Hl].
  apply negb_true_iff in Hc. rewrite append_cons. simpl. rewrite Hc, IH by done. done.
Qed.

Lemma matchPatternGroups_wildcard dom :
  lacks "/" dom = true →
  matchPatternGroups ("*://*." +:+ dom +:+ "/*")
  = Some (PatternGroups "*" ("*." +:+ dom) (Some "/*")).
Proof.
  intros Hl. unfold matchPatternGroups. simpl.
  unfold matchHostPath.
  rewrite <-(append_assoc "*." dom "/*").
  rewrite (spanHost_app ("*." +:+ dom) "*"); [done|].
  unfold lacks in *. simpl. done.
Qed.

Lemma startsWith_nil s : JS.startsWith s "" = true.
Proof. by destruct s. Qed.

Lemma hostRegex_wildcard dom :
  hostRegex ("*." +:+ dom) = inr ("(?:[^\/.]+\.)?" +:+ JS.escapeSpecials dom).
Proof.
  unfold hostRegex. cbv zeta. rewrite !append_cons.
  change (EmptyString +:+ dom) with dom.
  rewrite !escapeSpecials_cons.
  change (JS.mem "*"%char JS.regExpSpecials) with false.
  change (JS.mem "."%char JS.regExpSpecials) with true.
  cbv iota. rewrite !startsWith_cons, startsWith_nil. simpl. reflexivity.
Qed.

Ltac flatten_append :=
  rewrite ?append_assoc;
  repeat (rewrite append_cons || match goal with
                                 | |- context [EmptyString +:+ ?x] =>
                                     change (EmptyString +:+ x) with x
                                 end).

Lemma finalRegexString_wildcard dom :
  finalRegexString (PatternGroups "*" ("*." +:+ dom) (Some "/*"))
                   ("(?:[^\/.]+\.)?" +:+ JS.escapeSpecials dom)
  = "^https?://(?:[^\/.]+\.)?" +:+ (JS.escapeSpecials dom +:+ "/.*$").
Proof.
  unfold finalRegexString. cbn [mscheme mpath].
  change (schemeRegex "*") with "https?".
  change (pathRegex (Some "/*")) with "/.*".
  flatten_append. reflexivity.
Qed.

(** The RegExp object that the compiler returns for [*://*.dom/*]. *)
Lemma matchPatternToRegExp_wildcard dom :
  lacks "/" dom = true → lacks "*" dom = true →
  matchPatternToRegExp ("*://*." +:+ dom +:+ "/*") = Normal (Matcher (wildcardRegExp dom)).
Proof.
  intros Hslash Hstar. unfold matchPatternToRegExp.
  change (String.eqb ("*://*." +:+ dom +:+ "/*") "<all_urls>") with false. cbv iota.
  rewrite matchPatternGroups_wildcard by done. cbn [mhost].
  rewrite hostRegex_wildcard, finalRegexString_wildcard.
  unfold RegExp_new, parse. rewrite run_app.
  eassert (run (PState MNormal emptyFrame []) "^https?://(?:[^\/.]+\.)?" = _) as ->
    by (vm_compute; reflexivity).
  cbv beta iota. rewrite run_app, run_escaped_literal by done.
  cbv beta iota. cbn [cur stack alts terms lastT].
  assert (∀ f, run (PState MNormal f []) "/.*$"
               = inr (PState MNormal
                        (Frame (alts f) (REol :: RStar RDot :: RChar "/" :: terms f) NoTerm)
                        [])) as Htail.
  { intros [al ts l]. reflexivity. }
  rewrite Htail. clear Htail.
  unfold finish, buildFrame. cbn [pmode stack cur alts terms fold_left pushTerm].
  rewrite buildSeq_fold by done. unfold wildcardRegExp, wildcardPrefix.
  simpl. rewrite !rev_app_distr, rev_involutive. simpl.
  by rewrite <-app_assoc.
Qed.


Lemma Match_label bol eol s :
  Match bol eol (ROpt (RSeq (RPlus (RClass true ["/"; "."]%char)) (RChar "."))) s ↔
  s = [] ∨ ∃ l, l ≠ [] ∧ Forall inLabelClass l ∧ s = l ++ ["."%char].
Proof.
  rewrite Match_opt, Match_seq_inv. split.
  - intros [-> | (s1 & s2 & -> & H1 & ->%Match_char)]; [by left|]. right.
    apply (Match_plus_single inLabelClass) in H1 as [Hne Hl];
      [|intros; apply Match_class]. eauto.
  - intros [-> | (l & Hne & Hl & ->)]; [by left|]. right.
    exists l, ["."%char]. split; [done|]. split; [|constructor].
    apply (Match_plus_single inLabelClass); [intros; apply Match_class|done].
Qed.

Lemma MatchAll_wildcard dom bol eol w :
  MatchAll bol eol
    (wildcardPrefix ++ map RChar (chars dom) ++ [RChar "/"; RStar RDot; REol]) w
  ↔ bol = true ∧ eol = true ∧ wildcardWord dom w.
Proof.
  unfold wildcardPrefix, wildcardWord. cbn [app MatchAll]. split.
  - intros (a0 & w0 & -> & [-> ->]%Match_bol
            & a1 & w1 & -> & ->%Match_char
            & a2 & w2 & -> & ->%Match_char
            & a3 & w3 & -> & ->%Match_char
            & a4 & w4 & -> & ->%Match_char
            & a5 & w5 & -> & Hs%Match_opt
            & a6 & w6 & -> & ->%Match_char
            & a7 & w7 & -> & ->%Match_char
            & a8 & w8 & -> & ->%Match_char
            & a9 & w9 & -> & Hsub%Match_label
            & (w10 & -> & H)%MatchAll_chars).
    cbn [MatchAll] in H.
    destruct H as (a11 & w11 & -> & ->%Match_char
                   & a12 & w12 & -> & Hrest
                   & a13 & w13 & -> & [-> He]%Match_eol & ->).
    apply (Match_star_single (λ c, JS.isLineTerminator c = false)) in Hrest;
      [|intros; apply Match_dot].
    rewrite andb_true_r in He. split; [done|]. split; [done|].
    exists (bool_decide (a5 = ["s"%char])), a9, a12.
    split; [|done].
    destruct Hs as [-> | ->%Match_char]; simpl; by rewrite ?app_nil_r.
  - intros (-> & -> & secure & sub & rest & -> & Hsub & Hrest).
    exists [], (chars "http" ++ (if secure then ["s"%char] else []) ++ chars "://"
                ++ sub ++ chars dom ++ "/"%char :: rest).
    split; [done|]. split; [constructor|].
    do 4 (eexists [_], _; split; [reflexivity|]; split; [constructor|]).
    exists (if secure then ["s"%char] else []), (chars "://" ++ sub ++ chars dom ++ "/"%char :: rest).
    split; [done|]. split; [apply Match_opt; destruct secure; [right; constructor|by left]|].
    do 3 (eexists [_], _; split; [reflexivity|]; split; [constructor|]).
    exists sub, (chars dom ++ "/"%char :: rest).
    split; [done|]. split; [by apply Match_label|].
    apply MatchAll_chars. exists ("/"%char :: rest). split; [done|].
    cbn [MatchAll].
    exists ["/"%char], rest. split; [done|]. split; [constructor|].
    exists rest, []. split; [by rewrite app_nil_r|]. split.
    + apply (Match_star_single (λ c, JS.isLineTerminator c = false));
        [intros; apply Match_dot|done].
    + exists [], []. split; [done|]. split; [|done]. constructor.
Qed.

(** The matcher for [*://*.dom/*] accepts exactly the words of
    [wildcardWord]: at most one label stands before the domain. *)
Lemma test_wildcard dom u :
  test (wildcardRegExp dom) u = true ↔ wildcardWord dom (chars u).
Proof.
  rewrite test_Match. unfold wildcardRegExp. split.
  - intros (pre & s1 & post & Hu & H).
    apply fold_right_seq_Match in H. rewrite <-!app_assoc in H.
    apply MatchAll_wildcard in H as (Hpre & Hpost & H).
    destruct pre; [|done]. destruct post; [|done].
    unfold chars. rewrite Hu. simpl. by rewrite app_nil_r.
  - intros H. exists [], (chars u), []. split; [by rewrite app_nil_r|].
    apply fold_right_seq_Match. rewrite <-!app_assoc.
    apply MatchAll_wildcard. done.
Qed.


Lemma chars_inj a b : chars a = chars b → a = b.
Proof.
  unfold chars. intros H.
  by rewrite <-(string_of_list_ascii_of_string a), H, string_of_list_ascii_of_string.
Qed.

Lemma chars_of_list l : chars (string_of_list_ascii l) = l.
Proof. apply list_ascii_of_string_of_list_ascii. Qed.

Lemma lacks_Forall c s : lacks c s = true ↔ Forall (λ d, d ≠ c) (chars s).
Proof.
  unfold lacks. rewrite forallb_forall, Forall_forall. split.
  - intros H d Hd%list_elem_of_In. apply H in Hd.
    apply negb_true_iff in Hd. by destruct (Ascii.eqb_spec d c).
  - intros H d Hd%list_elem_of_In. apply H in Hd.
    apply negb_true_iff. by destruct (Ascii.eqb_spec d c).
Qed.

Lemma inLabelClass_iff c : inLabelClass c ↔ c ≠ "/"%char ∧ c ≠ "."%char.
Proof.
  unfold inLabelClass. simpl.
  destruct (Ascii.eqb_spec c "/"), (Ascii.eqb_spec c "."); simpl;
    split; try done; by intros [? ?].
Qed.

Lemma isLabel_iff label :
  isLabel label = true ↔ chars label ≠ [] ∧ Forall inLabelClass (chars label).
Proof.
  unfold isLabel. rewrite !andb_true_iff, !lacks_Forall, negb_true_iff. split.
  - intros [[Hne H1] H2]. split.
    + destruct label; [done|]. done.
    + rewrite Forall_forall in *. intros c Hc. apply inLabelClass_iff. eauto.
  - intros [Hne H]. split; [split|].
    + by destruct label.
    + eapply Forall_impl; [done|]. by intros c [? ?]%inLabelClass_iff.
    + eapply Forall_impl; [done|]. by intros c [? ?]%inLabelClass_iff.
Qed.

(** Two words cut at their first [/] have the same pieces. *)
Lemma split_at_slash (l1 l2 r1 r2 : list ascii) :
  Forall (λ d, d ≠ "/"%char) l1 → Forall (λ d, d ≠ "/"%char) l2 →
  l1 ++ "/"%char :: r1 = l2 ++ "/"%char :: r2 → l1 = l2 ∧ r1 = r2.
Proof.
  revert l2. induction l1 as [|c l1 IH]; intros l2 H1 H2 Heq.
  - destruct l2 as [|d l2]; simpl in *; [by injection Heq|].
    injection Heq as <- _. by apply Forall_cons in H2 as [? _].
  - apply Forall_cons in H1 as [Hc H1]. destruct l2 as [|d l2]; simpl in *.
    + by injection Heq as -> _.
    + injection Heq as -> Heq. apply Forall_cons in H2 as [_ H2].
      destruct (IH l2 H1 H2 Heq) as [-> ->]. done.
Qed.

(** For a domain without [/] and [*], a host without [/] and a path without
    line terminator, the matcher compiled from [*://*.dom/*] accepts
    [scheme://host/path] exactly when the host is the domain, or one label, a
    dot and the domain. *)
Lemma wildcard_host_exactly dom scheme host rest :
  lacks "/" dom = true → lacks "*" dom = true → lacks "/" host = true →
  scheme = "http" ∨ scheme = "https" → noLineTerminator rest = true →
  matchPatternToRegExp ("*://*." +:+ dom +:+ "/*") = Normal (Matcher (wildcardRegExp dom))
  ∧ (test (wildcardRegExp dom) (scheme +:+ "://" +:+ host +:+ "/" +:+ rest) = true
     ↔ host = dom ∨ ∃ label, isLabel label = true ∧ host = label +:+ "." +:+ dom).
Proof.
  intros Hdom Hstar Hhost Hscheme Hrest.
  split; [by apply matchPatternToRegExp_wildcard|].
  rewrite test_wildcard. unfold wildcardWord.
  rewrite !chars_app. change (chars "/") with ["/"%char].
  apply lacks_Forall in Hdom, Hhost.
  assert (Forall (λ c, JS.isLineTerminator c = false) (chars rest)) as Hrest'.
  { unfold noLineTerminator in Hrest. rewrite forallb_forall in Hrest.
    apply Forall_forall. intros c Hc%list_elem_of_In. apply Hrest in Hc.
    by apply negb_true_iff in Hc. }
  split.
  - intros (secure & sub & rest' & Heq & Hsub & _).
    assert (sub ++ chars dom = chars host) as Hh.
    { assert (Forall (λ d, d ≠ "/"%char) (sub ++ chars dom)) as Hl.
      { apply Forall_app. split; [|done].
        destruct Hsub as [-> | (l & _ & Hl & ->)]; [constructor|].
        apply Forall_app. split; [|by repeat constructor].
        eapply Forall_impl; [done|]. by intros c [? ?]%inLabelClass_iff. }
      destruct Hscheme as [-> | ->], secure; simpl in Heq;
        try discriminate; injection Heq as Heq;
        rewrite ?app_assoc in Heq;
        rewrite <-?app_assoc in Heq;
        symmetry in Heq;
        change (sub ++ chars dom ++ "/"%char :: rest')
          with (sub ++ chars dom ++ "/"%char :: rest') in Heq;
        rewrite (app_assoc sub) in Heq;
        by destruct (split_at_slash _ _ _ _ Hl Hhost Heq) as [-> _]. }
    destruct Hsub as [-> | (l & Hne & Hl & ->)].
    + left. apply chars_inj. by rewrite <-Hh.
    + right. exists (string_of_list_ascii l). split.
      * apply isLabel_iff. by rewrite chars_of_list.
      * apply chars_inj. rewrite !chars_app, chars_of_list, <-Hh.
        by rewrite <-app_assoc.
  - intros Hh.
    exists (bool_decide (scheme = "https")),
           (match decide (host = dom) with
            | left _ => []
            | right _ => take (length (chars host) - length (chars dom)) (chars host)
            end), (chars rest).
    assert (∀ label, host = label +:+ "." +:+ dom →
              take (length (chars host) - length (chars dom)) (chars host)
              = chars label ++ ["."%char]) as Htake.
    { intros label ->. rewrite !chars_app. change (chars ".") with ["."%char].
      rewrite (app_assoc (chars label)), length_app.
      replace (length (chars label ++ ["."%char]) + length (chars dom)
               - length (chars dom))
        with (length (chars label ++ ["."%char])) by lia.
      by rewrite take_app_length. }
    split; [|split; [|done]].
    + destruct Hscheme as [-> | ->]; simpl; do 7 f_equal.
      all: destruct (decide (host = dom)) as [->|Hne]; [done|].
      all: destruct Hh as [?|(label & _ & Hl)]; [done|].
      all: rewrite (Htake label Hl); subst host.
      all: rewrite !chars_app; change (chars ".") with ["."%char].
      all: by rewrite <-!app_assoc.
    + destruct (decide (host = dom)) as [->|Hne]; [by left|].
      destruct Hh as [?|(label & Hlabel & Hl)]; [done|]. right.
      apply isLabel_iff in Hlabel as [Hne' Hcls].
      exists (chars label). rewrite (Htake label Hl). done.
Qed.


(** In particular it rejects every host with two labels before the domain. *)
Lemma nested_subdomain_rejected dom a b scheme rest :
  lacks "/" dom = true → lacks "*" dom = true →
  isLabel a = true → isLabel b = true →
  scheme = "http" ∨ scheme = "https" → noLineTerminator rest = true →
  test (wildcardRegExp dom)
       (scheme +:+ "://" +:+ (a +:+ "." +:+ b +:+ "." +:+ dom) +:+ "/" +:+ rest) = false.
Proof.
  intros Hdom Hstar Ha Hb Hscheme Hrest.
  apply isLabel_iff in Ha as [_ Ha]. apply isLabel_iff in Hb as [_ Hb].
  assert (lacks "/" (a +:+ "." +:+ b +:+ "." +:+ dom) = true) as Hhost.
  { apply lacks_Forall. rewrite !chars_app. change (chars ".") with ["."%char].
    apply lacks_Forall in Hdom.
    repeat (apply Forall_app; split); try done; try by repeat constructor.
    - eapply Forall_impl; [exact Ha|]. by intros c [? ?]%inLabelClass_iff.
    - eapply Forall_impl; [exact Hb|]. by intros c [? ?]%inLabelClass_iff. }
  destruct (test _ _) eqn:E; [|done]. exfalso.
  apply (wildcard_host_exactly dom scheme _ rest Hdom Hstar Hhost Hscheme Hrest) in E.
  destruct E as [E | (label & Hlabel & E)].
  - apply (f_equal (λ s, length (chars s))) in E.
    rewrite !chars_app, !length_app in E. simpl in E. lia.
  - apply (f_equal chars) in E. rewrite !chars_app in E.
    change (chars ".") with ["."%char] in E.
    rewrite !app_assoc in E. apply app_inv_tail in E. apply app_inj_tail in E as [E _].
    apply isLabel_iff in Hlabel as [_ Hlabel]. rewrite <-E in Hlabel.
    apply Forall_app in Hlabel as [Hlabel _]. apply Forall_app in Hlabel as [_ Hlabel].
    apply Forall_cons in Hlabel as [Hdot _]. by apply inLabelClass_iff in Hdot as [_ ?].
Qed.

End WildcardHost.

(** ** The catalog *)

Lemma isValidRunAt_cases r :
  isValidRunAt r = true →
  r = "document-start" ∨ r = "document-end" ∨ r = "document-idle".
Proof.
  unfold isValidRunAt, validRunAt. simpl.
  destruct (String.eqb_spec r "document-start"); [auto|].
  destruct (String.eqb_spec r "document-end"); [auto|].
  destruct (String.eqb_spec r "document-idle"); [auto|done].
Qed.

Lemma parseMetadata_runAt scriptContent md :
  parseMetadata scriptContent = Normal md → isValidRunAt (md_runAt md) = true.
Proof.
  unfold parseMetadata. destruct (metaBlock scriptContent) as [block|].
  - destruct (addDirectives ∅ _) as [directives|e]; simpl; [|done].
    intros [= <-]. simpl.
    match goal with |- context [if isValidRunAt ?r then _ else _] =>
      destruct (isValidRunAt r) eqn:E end; [done|reflexivity].
  - intros [= <-]. reflexivity.
Qed.

Lemma loadScript_spec fs directory file s :
  loadScript fs directory file = Some s →
  path s = path_join fs directory file
  ∧ readFile fs (path s) = Some (content s)
  ∧ ∃ md, parseMetadata (content s) = Normal md
          ∧ matchPatterns s = md_match md
          ∧ md_match md ≠ []
          ∧ runAt s = md_runAt md.
Proof.
  unfold loadScript. destruct (negb _); [done|].
  destruct (readFile fs _) as [c|] eqn:Hread; [|done].
  destruct (parseMetadata c) as [md|e] eqn:Hmd; [|done].
  destruct (md_match md) as [|p ps] eqn:Hm; [done|].
  intros [= <-]. simpl. repeat split; [done|].
  exists md. rewrite Hm. done.
Qed.

Lemma loadScript_complete fs directory file text md :
  JS.endsWith file ".user.js" = true →
  readFile fs (path_join fs directory file) = Some text →
  parseMetadata text = Normal md → md_match md ≠ [] →
  ∃ s, loadScript fs directory file = Some s
       ∧ content s = text ∧ matchPatterns s = md_match md.
Proof.
  intros Hext Hread Hmd Hne. unfold loadScript. rewrite Hext, Hread, Hmd. simpl.
  destruct (md_match md) as [|p ps]; [done|]. eauto.
Qed.

Lemma loadUserscripts_elem fs directory catalog s :
  loadUserscripts fs directory = Normal catalog → s ∈ catalog →
  ∃ file, loadScript fs directory file = Some s.
Proof.
  unfold loadUserscripts. destruct (readdir fs directory) as [[]|files]; try done.
  - intros [= <-] H. by apply elem_of_nil in H.
  - intros [= <-] H. by apply elem_of_nil in H.
  - intros [= <-] (file & _ & H)%list_elem_of_omap. eauto.
Qed.

Lemma loadUserscripts_runAt fs directory catalog s :
  loadUserscripts fs directory = Normal catalog → s ∈ catalog →
  isValidRunAt (runAt s) = true.
Proof.
  intros Hl Hs. destruct (loadUserscripts_elem _ _ _ _ Hl Hs) as (file & Hf).
  apply loadScript_spec in Hf as (_ & _ & md & Hmd & _ & _ & ->).
  by eapply parseMetadata_runAt.
Qed.

(** ** The injection plan *)

Section PlanFacts.

Variable URL_new : string → completion URL.

Lemma planOf_ext f g :
  (∀ p, isValidRunAt p = true → f p = g p) → planOf f = planOf g.
Proof. intros H. unfold planOf. by rewrite !H. Qed.

Lemma planOf_lookup f p :
  isValidRunAt p = true → planOf f !! p = Some (f p).
Proof.
  intros [-> | [-> | ->]]%isValidRunAt_cases; reflexivity.
Qed.

Lemma planOf_insert f p l :
  isValidRunAt p = true →
  <[p := l]> (planOf f) = planOf (λ q, if decide (q = p) then l else f q).
Proof.
  intros [-> | [-> | ->]]%isValidRunAt_cases; unfold planOf;
    apply map_eq; intros k;
    repeat (rewrite lookup_insert; case_decide; simplify_eq; try done).
Qed.

Lemma schedule_planOf targetUrl f s :
  isValidRunAt (runAt s) = true →
  schedule URL_new targetUrl (planOf f) s =
  Normal (planOf (λ p, f p ++ phaseOf URL_new [s] targetUrl p)).
Proof.
  intros Hv. unfold schedule. rewrite urlMatches_matchesUrl. simpl.
  unfold phaseOf. destruct (matchesUrl _ _ _) eqn:Hm.
  - rewrite planOf_lookup by done. rewrite planOf_insert by done. f_equal.
    apply planOf_ext. intros p _. rewrite filter_cons, filter_nil. case_decide; subst.
    + by rewrite decide_True.
    + rewrite decide_False; [by rewrite app_nil_r|]. by intros [_ ?].
  - f_equal. apply planOf_ext. intros p _.
    rewrite filter_cons, filter_nil, decide_False; [by rewrite app_nil_r|].
    rewrite Hm. by intros [? _].
Qed.

Lemma scheduleAll_planOf targetUrl scripts : ∀ f,
  Forall (λ s, isValidRunAt (runAt s) = true) scripts →
  scheduleAll URL_new targetUrl (planOf f) scripts =
  Normal (planOf (λ p, f p ++ phaseOf URL_new scripts targetUrl p)).
Proof.
  induction scripts as [|s scripts IH]; intros f Hv; simpl.
  - f_equal. apply planOf_ext. intros p _. unfold phaseOf.
    by rewrite filter_nil, app_nil_r.
  - apply Forall_cons in Hv as [Hs Hv].
    rewrite schedule_planOf by done. simpl. rewrite IH by done. f_equal.
    apply planOf_ext. intros p _. unfold phaseOf.
    rewrite <-app_assoc. f_equal. rewrite (filter_cons _ s), filter_cons, filter_nil.
    by destruct (decide _).
Qed.

End PlanFacts.

Lemma planOf_lookup_Some f p l :
  planOf f !! p = Some l → isValidRunAt p = true ∧ l = f p.
Proof.
  unfold planOf.
  repeat (rewrite lookup_insert; case_decide; [subst; intros [= <-]; done|]).
  by rewrite lookup_empty.
Qed.

Lemma anyPatternMatches_valid patterns urlToMatch :
  anyPatternMatches patterns urlToMatch = Normal true →
  ∃ p, p ∈ patterns ∧ validPattern p = true.
Proof.
  induction patterns as [|p ps IH]; simpl; [done|].
  unfold validPattern at 1.
  destruct (matchPatternToRegExp_returns p) as [[re|why] Hp]; rewrite Hp; simpl.
  - intros _. exists p. split; [left|]. unfold validPattern. by rewrite Hp.
  - intros (q & Hq & Hv)%IH. exists q. split; [by right|done].
Qed.

Lemma matchesUrl_valid URL_new patterns urlString :
  matchesUrl URL_new patterns urlString = true →
  ∃ p, p ∈ patterns ∧ validPattern p = true.
Proof.
  unfold matchesUrl, urlMatches, parseTarget.
  destruct (URL_new urlString) as [u|e]; simpl; [|done].
  destruct (negb _); simpl; [done|].
  destruct (anyPatternMatches _ _) as [[]|] eqn:H; try done.
  intros _. by eapply anyPatternMatches_valid.
Qed.

Lemma scriptsToInject_planOf URL_new fs directory catalog targetUrl :
  loadUserscripts fs directory = Normal catalog →
  scriptsToInject URL_new catalog targetUrl =
  Normal (planOf (phaseOf URL_new catalog targetUrl)).
Proof.
  intros Hl. unfold scriptsToInject.
  change emptyPlan with (planOf (λ _, [])).
  rewrite scheduleAll_planOf; [done|].
  apply Forall_forall. intros s Hs. by eapply loadUserscripts_runAt.
Qed.

(** C6. In the plan that [main.js] derives from a loaded catalog and a target
    URL, each of the three phases holds the catalog records that match the URL
    and whose run-at is that phase, in catalog order: a record is in a phase
    only if that phase is its own, every phase is a sublist of the catalog,
    and distinct catalog records give phases without repetition, however
    many patterns of a record match. *)
Theorem injection_plan_phases (URL_new : string → completion URL)
    (fs : fileSystem) (directory : string) (catalog : list scriptRecord)
    (targetUrl : string) :
  loadUserscripts fs directory = Normal catalog →
  let phase := phaseOf URL_new catalog targetUrl in
  scriptsToInject URL_new catalog targetUrl = Normal (planOf phase)
  ∧ (∀ s p, s ∈ phase p ↔
       s ∈ catalog ∧ matchesUrl URL_new (matchPatterns s) targetUrl = true
       ∧ runAt s = p)
  ∧ (∀ p, sublist (phase p) catalog)
  ∧ (NoDup catalog →
     NoDup (phase "document-start" ++ phase "document-end" ++ phase "document-idle")).
Proof.
  intros Hl phase. split; [by eapply scriptsToInject_planOf|].
  assert (∀ s p, s ∈ phase p ↔
       s ∈ catalog ∧ matchesUrl URL_new (matchPatterns s) targetUrl = true
       ∧ runAt s = p) as Hin.
  { intros s p. unfold phase, phaseOf. rewrite list_elem_of_filter. tauto. }
  split; [done|]. split; [intros p; apply sublist_filter|].
  intros Hnd.
  assert (∀ p, NoDup (phase p)) as Hp by (intros p; by apply NoDup_filter).
  apply NoDup_app. split; [done|]. split.
  - intros s (_ & _ & Hs)%Hin [(_ & _ & He)%Hin | (_ & _ & He)%Hin]%elem_of_app;
      rewrite Hs in He; discriminate.
  - apply NoDup_app. split; [done|]. split; [|done].
    intros s (_ & _ & Hs)%Hin (_ & _ & He)%Hin. rewrite Hs in He. discriminate.
Qed.

Lemma injection_plan_phases_witness :
  loadUserscripts exampleFs "scripts" = Normal exampleCatalog
  ∧ (let phase := phaseOf URL_examples exampleCatalog "https://example.com/" in
     scriptsToInject URL_examples exampleCatalog "https://example.com/"
     = Normal (planOf phase)
     ∧ (∀ s p, s ∈ phase p ↔
          s ∈ exampleCatalog
          ∧ matchesUrl URL_examples (matchPatterns s) "https://example.com/" = true
          ∧ runAt s = p)
     ∧ (∀ p, sublist (phase p) exampleCatalog)
     ∧ (NoDup exampleCatalog →
        NoDup (phase "document-start" ++ phase "document-end"
               ++ phase "document-idle"))).
Proof.
  split; [vm_compute; reflexivity|].
  apply (injection_plan_phases URL_examples exampleFs "scripts").
  vm_compute; reflexivity.
Defined.

(** The record with two matching patterns stands once in its phase. *)
Example two_matching_patterns_once :
  name <$> phaseOf URL_examples exampleCatalog "https://example.com/" "document-end"
  = ["A"].
Proof. vm_compute. reflexivity. Qed.

(** C5, as the code has it. A script file without any [@match] entry gives
    no catalog record: the entries of every record are those of its file, and
    there is at least one. A readable script file with at least one entry,
    valid or not, gives a record. A record scheduled in any phase of any plan
    has at least one entry that compiles, so a script with no valid entry is
    in no phase, whatever the URL. *)
Theorem unmatchable_script_in_no_phase (URL_new : string → completion URL)
    (fs : fileSystem) (directory : string) (catalog : list scriptRecord) :
  loadUserscripts fs directory = Normal catalog →
  (∀ s, s ∈ catalog →
     ∃ md, parseMetadata (content s) = Normal md
           ∧ md_match md = matchPatterns s ∧ matchPatterns s ≠ [])
  ∧ (∀ files file text md,
       readdir fs directory = inr files → file ∈ files →
       JS.endsWith file ".user.js" = true →
       readFile fs (path_join fs directory file) = Some text →
       parseMetadata text = Normal md → md_match md ≠ [] →
       ∃ s, s ∈ catalog ∧ content s = text ∧ matchPatterns s = md_match md)
  ∧ (∀ targetUrl plan p scheduled s,
       scriptsToInject URL_new catalog targetUrl = Normal plan →
       plan !! p = Some scheduled → s ∈ scheduled →
       ∃ pattern, pattern ∈ matchPatterns s ∧ validPattern pattern = true).
Proof.
  intros Hl. split; [|split].
  - intros s Hs. destruct (loadUserscripts_elem _ _ _ _ Hl Hs) as (file & Hf).
    apply loadScript_spec in Hf as (_ & _ & md & Hmd & Hm & Hne & _).
    exists md. by rewrite Hm.
  - intros files file text md Hdir Hfile Hext Hread Hmd Hne.
    destruct (loadScript_complete fs directory file text md Hext Hread Hmd Hne)
      as (s & Hs & Hc & Hm).
    exists s. split; [|done].
    unfold loadUserscripts in Hl. rewrite Hdir in Hl. injection Hl as <-.
    apply list_elem_of_omap. eauto.
  - intros targetUrl plan p scheduled s Hplan Hp Hs.
    rewrite (scriptsToInject_planOf _ _ _ _ _ Hl) in Hplan.
    injection Hplan as <-. apply planOf_lookup_Some in Hp as [_ ->].
    unfold phaseOf in Hs. apply list_elem_of_filter in Hs as [[Hm _] _].
    by eapply matchesUrl_valid.
Qed.

Lemma unmatchable_script_in_no_phase_witness :
  loadUserscripts exampleFs "scripts" = Normal exampleCatalog
  ∧ (∀ s, s ∈ exampleCatalog →
       ∃ md, parseMetadata (content s) = Normal md
             ∧ md_match md = matchPatterns s ∧ matchPatterns s ≠ [])
  ∧ (∀ files file text md,
       readdir exampleFs "scripts" = inr files → file ∈ files →
       JS.endsWith file ".user.js" = true →
       readFile exampleFs (path_join exampleFs "scripts" file) = Some text →
       parseMetadata text = Normal md → md_match md ≠ [] →
       ∃ s, s ∈ exampleCatalog ∧ content s = text ∧ matchPatterns s = md_match md)
  ∧ (∀ targetUrl plan p scheduled s,
       scriptsToInject URL_examples exampleCatalog targetUrl = Normal plan →
       plan !! p = Some scheduled → s ∈ scheduled →
       ∃ pattern, pattern ∈ matchPatterns s ∧ validPattern pattern = true).
Proof.
  split; [vm_compute; reflexivity|].
  apply (unmatchable_script_in_no_phase URL_examples exampleFs "scripts").
  vm_compute; reflexivity.
Defined.

(** C5 as stated fails: the script whose only [@match] entry is not a match
    pattern has no valid entry, and is a record of the catalog. *)
Lemma invalid_entries_stay_in_catalog :
  ∃ s, s ∈ exampleCatalog
       ∧ content s = scriptC
       ∧ matchPatterns s = ["not-a-pattern"]
       ∧ Forall (λ pattern, validPattern pattern = false) (matchPatterns s).
Proof.
  eexists. split; [|split; [|split]].
  - vm_compute. right. right. left.
  - reflexivity.
  - reflexivity.
  - repeat constructor.
Qed.

(** ** The effective response type *)

Lemma truthy_known t : hasName t knownResponseTypes = true → truthy (Some t) = true.
Proof.
  unfold hasName, knownResponseTypes. simpl. intros H.
  repeat (apply orb_true_iff in H as [H|H]; [apply String.eqb_eq in H as ->; reflexivity|]).
  done.
Qed.

(** C4, as the code has it. The effective response type is the requested
    type when it is one of [json], [text], [arraybuffer], [blob]; otherwise
    it is [json] when no type was requested (the property is missing or
    empty) and the effective content type, which is [overrideMimeType] when
    given and the content-type header of the response otherwise, contains
    [json]; otherwise it is [text]. *)
Theorem effectiveResponseType_cases (responseType overrideMimeType contentType : option string) :
  effectiveResponseType responseType overrideMimeType contentType =
  match responseType with
  | Some t =>
      if hasName t knownResponseTypes then t
      else if String.eqb t ""
              && JS.includes (effectiveContentType overrideMimeType contentType) "json"
           then "json" else "text"
  | None =>
      if JS.includes (effectiveContentType overrideMimeType contentType) "json"
      then "json" else "text"
  end.
Proof.
  unfold effectiveResponseType. destruct responseType as [t|]; [|reflexivity].
  destruct (hasName t knownResponseTypes) eqn:Hk.
  - by rewrite (truthy_known t Hk).
  - simpl. by destruct (String.eqb t "").
Qed.

(** Without [overrideMimeType], and for a requested type that is absent or
    one of the four, the code and the wording of the claim agree. *)
Lemma effectiveResponseType_spec (responseType contentType : option string) :
  match responseType with
  | Some t => hasName t knownResponseTypes = true ∨ t = ""
  | None => True
  end →
  effectiveResponseType responseType None contentType
  = specResponseType responseType contentType.
Proof.
  unfold effectiveResponseType, specResponseType, effectiveContentType.
  assert (default "" contentType = if truthy contentType then default "" contentType else "") as Hc.
  { destruct contentType as [c|]; simpl; [|done]. by destruct (String.eqb_spec c ""). }
  simpl. rewrite <-Hc.
  destruct responseType as [t|]; [|done].
  intros [Hk | ->]; [|reflexivity].
  by rewrite (truthy_known t Hk), Hk.
Qed.

(** C4 as stated fails: for a requested type outside the four, the code
    answers [text] although the content-type header contains [json]; and an
    [overrideMimeType] replaces the header in the test. *)
Lemma effectiveResponseType_differs :
  effectiveResponseType (Some "document") None (Some "application/json") = "text"
  ∧ specResponseType (Some "document") (Some "application/json") = "json"
  ∧ effectiveResponseType None (Some "text/plain") (Some "application/json") = "text"
  ∧ specResponseType None (Some "application/json") = "json".
Proof. repeat split; reflexivity. Qed.

(** ** The storage bridge, for ordinary keys and an intact object *)

Lemma hasOwnProperty_intact o key :
  intact o → hasOwnProperty o key = Normal (bool_decide (is_Some (own o !! key))).
Proof. intros [Hp Hh]. unfold hasOwnProperty. by rewrite Hh, Hp. Qed.

Lemma setProperty_ordinary o key v :
  key ≠ "__proto__" →
  setProperty o key v = JsObject (<[key := v]> (own o)) (proto o).
Proof.
  intros Hk. unfold setProperty. destruct (own o !! key); [done|].
  destruct (String.eqb_spec key "__proto__"); done.
Qed.

Lemma set_intact st key v :
  intact (gmStorage st) → ordinaryKey key →
  intact (gmStorage (gmSetValueBridge key v st).2).
Proof.
  intros [Hp Hh] [Hk1 Hk2]. simpl. rewrite setProperty_ordinary by done.
  split; simpl; [done|]. by rewrite lookup_insert_ne.
Qed.

Lemma delete_intact st key :
  intact (gmStorage st) → intact (gmStorage (gmDeleteValueBridge key st).2).
Proof.
  intros Hi. unfold gmDeleteValueBridge. rewrite hasOwnProperty_intact by done.
  case_bool_decide; [|done]. destruct Hi as [Hp Hh]. split; simpl; [done|].
  destruct (decide (key = "hasOwnProperty")) as [->|];
    [apply lookup_delete_eq | by rewrite lookup_delete_ne].
Qed.

Lemma set_then_get st key v defaultValue :
  intact (gmStorage st) → ordinaryKey key →
  gmGetValueBridge key defaultValue (gmSetValueBridge key v st).2 = Normal v.
Proof.
  intros Hi Hk. unfold gmGetValueBridge.
  rewrite hasOwnProperty_intact by by apply set_intact.
  simpl. rewrite setProperty_ordinary by apply Hk. simpl.
  rewrite lookup_insert_eq. by rewrite bool_decide_true.
Qed.

Lemma delete_then_get st key defaultValue :
  intact (gmStorage st) →
  gmGetValueBridge key defaultValue (gmDeleteValueBridge key st).2 = Normal defaultValue.
Proof.
  intros Hi. unfold gmGetValueBridge.
  rewrite hasOwnProperty_intact by by apply delete_intact.
  unfold gmDeleteValueBridge. rewrite hasOwnProperty_intact by done.
  case_bool_decide as Hk; simpl.
  - rewrite lookup_delete_eq. by rewrite bool_decide_false by by intros [].
  - by rewrite bool_decide_false.
Qed.

Lemma list_after_ops ops : ∀ st,
  intact (gmStorage st) → Forall (λ op, ordinaryKey (opKey op)) ops →
  list_to_set (gmListValuesBridge (runOps ops st))
  = survivors ops (dom (own (gmStorage st))).
Proof.
  unfold gmListValuesBridge.
  induction ops as [|op ops IH]; intros st Hi Hops; simpl.
  - apply list_to_set_elements_L.
  - apply Forall_cons in Hops as [Hop Hops]. destruct op as [key v|key]; simpl in *.
    + rewrite IH; [|by apply (set_intact st key v)|done]. simpl.
      rewrite setProperty_ordinary by apply Hop. simpl. by rewrite dom_insert_L.
    + rewrite IH; [|by apply delete_intact|done]. f_equal.
      unfold gmDeleteValueBridge. rewrite hasOwnProperty_intact by done.
      case_bool_decide as Hk; simpl; [by rewrite dom_delete_L|].
      rewrite <-elem_of_dom in Hk. symmetry. apply difference_disjoint_L.
      by apply disjoint_singleton_r.
Qed.

(** C8, at the inputs where the code departs from it. On the empty store,
    setting the key [__proto__] to a string creates no property: the next
    get returns the default and the list of keys is empty. Setting the key
    [hasOwnProperty] hides the method that get and delete call, and the next
    get throws. *)
Theorem round_trip_fails_for_prototype_names :
  let st1 := (gmSetValueBridge "__proto__" (VString "x") emptyStorage).2 in
  let st2 := (gmSetValueBridge "hasOwnProperty" (VString "x") emptyStorage).2 in
  gmGetValueBridge "__proto__" (VString "d") st1 = Normal (VString "d")
  ∧ gmListValuesBridge st1 = []
  ∧ gmGetValueBridge "hasOwnProperty" (VString "d") st2 = Throw TypeError.
Proof. repeat split; vm_compute; reflexivity. Qed.

(** ** Deleting a value *)

Lemma delete_absent st key :
  own (gmStorage st) !! key = None → (gmDeleteValueBridge key st).2 = st.
Proof.
  intros Hk. unfold gmDeleteValueBridge, hasOwnProperty.
  destruct (own _ !! "hasOwnProperty"); [done|].
  destruct (reachesObjectPrototype _ _); [|done].
  by rewrite Hk, bool_decide_false by by intros [].
Qed.

Lemma delete_present st key :
  intact (gmStorage st) → is_Some (own (gmStorage st) !! key) →
  gmDeleteValueBridge key st =
  (Normal (),
   Storage (JsObject (delete key (own (gmStorage st))) (proto (gmStorage st)))
           (written st ++ [omap stringify (delete key (own (gmStorage st)))])).
Proof.
  intros Hi Hk. unfold gmDeleteValueBridge. rewrite hasOwnProperty_intact by done.
  by rewrite bool_decide_true.
Qed.

(** C9, at the inputs where the code departs from it. After the call
    [set("hasOwnProperty", 1)] on the empty store the key [hasOwnProperty] is
    present, yet the delete call for it throws before the [delete] statement:
    the key stays and nothing is written. After a further [set("a", 2)] the
    same holds for the key [a]. *)
Theorem delete_present_key_throws :
  let st1 := runOps [SetValue "hasOwnProperty" (VNumber 1)] emptyStorage in
  let st2 := runOps [SetValue "hasOwnProperty" (VNumber 1); SetValue "a" (VNumber 2)]
                    emptyStorage in
  own (gmStorage st1) !! "hasOwnProperty" = Some (VNumber 1)
  ∧ gmDeleteValueBridge "hasOwnProperty" st1 = (Throw TypeError, st1)
  ∧ own (gmStorage st2) !! "a" = Some (VNumber 2)
  ∧ gmDeleteValueBridge "a" st2 = (Throw TypeError, st2).
Proof. repeat split; vm_compute; reflexivity. Qed.

(** ** GM_xmlhttpRequest *)

Section BridgeFacts.

Variable toBase64 : string → string.
Variable atob : string → completion string.
Variable platformMessage : exn → string.

Lemma abort_noop requestId pg : abort requestId pg = pg.
Proof. unfold abort. by destruct (requestMap pg !! requestId). Qed.

Lemma performAll_app acts1 acts2 pg :
  performAll atob (acts1 ++ acts2) pg = performAll atob acts2 (performAll atob acts1 pg).
Proof. apply fold_left_app. Qed.

(** Uses of abort handles can be struck from any sequence of page actions. *)
Lemma performAll_ignores_abort acts : ∀ pg,
  performAll atob (filter (λ a, isAbortAction a = false) acts) pg = performAll atob acts pg.
Proof.
  induction acts as [|a acts IH]; intros pg; [done|].
  rewrite filter_cons. destruct (decide (isAbortAction a = false)) as [Ha|Ha]; simpl.
  - apply IH.
  - destruct a; try done. simpl. rewrite abort_noop. apply IH.
Qed.

Lemma arrive_ignores_abort pageClosed requestId evs : ∀ meanwhile pg,
  arrive atob pageClosed requestId evs
    (map (filter (λ a, isAbortAction a = false)) meanwhile) pg
  = arrive atob pageClosed requestId evs meanwhile pg.
Proof.
  induction evs as [|ev evs IH]; intros meanwhile pg; [done|].
  destruct meanwhile as [|acts meanwhile]; simpl.
  - apply (IH []).
  - rewrite performAll_ignores_abort. apply IH.
Qed.

(** However often the abort handle is invoked while the call is pending, the
    call runs as if it had not been. *)
Lemma request_ignores_abort d meanwhile latency settled pageClosed pg :
  request toBase64 atob platformMessage d
    (map (filter (λ a, isAbortAction a = false)) meanwhile) latency settled pageClosed pg
  = request toBase64 atob platformMessage d meanwhile latency settled pageClosed pg.
Proof.
  unfold request. destruct (GM_xmlhttpRequest d pg) as [[requestId pg1] [[|]|e]]; [|done..].
  by rewrite arrive_ignores_abort.
Qed.

Lemma handler_unknown requestId eventName data pg :
  requestMap pg !! requestId = None →
  GM_xmlhttpRequest_callback_handler atob requestId eventName data pg = pg.
Proof. intros H. unfold GM_xmlhttpRequest_callback_handler. by rewrite H. Qed.




(** Two turns of the loop leave no task behind. *)
Lemma bridge_quiescent d latency settled :
  let run := turn toBase64 platformMessage d
               (turn toBase64 platformMessage d (issue d latency settled)) in
  timeoutId run = None ∧ pendingFetch run = None.
Proof.
  unfold issue, turn. destruct (d_timeout d =? 0)%Z; simpl; [done|].
  destruct (_ <=? _)%Z; simpl; done.
Qed.

(** Without a timer the events are those of the settlement. *)
Lemma bridge_no_timeout d latency settled :
  d_timeout d = 0%Z →
  GM_xmlhttpRequest_bridge toBase64 platformMessage d latency settled
  = onSettled toBase64 platformMessage d settled.
Proof.
  intros H. unfold GM_xmlhttpRequest_bridge, issue, turn. rewrite H. reflexivity.
Qed.

Lemma filter_callIfFunction d other eventName log requestId :
  filter (λ e : nat * string, e.1 = requestId) (callIfFunction d other eventName log)
  = filter (λ e : nat * string, e.1 = requestId) log
    ++ (if decide (other = requestId)
        then if hasName eventName (d_handlers d) then [(other, eventName)] else []
        else []).
Proof.
  unfold callIfFunction. destruct (hasName eventName (d_handlers d)).
  - rewrite filter_app, filter_cons, filter_nil. simpl. by destruct (decide _).
  - destruct (decide _); by rewrite app_nil_r.
Qed.

Lemma isBridgeError_concerns requestId a :
  concerns requestId a = false → isBridgeError requestId a = false.
Proof. by destruct a. Qed.

(** A step for another request leaves the registration and the callbacks
    of a request as they are. *)
Lemma perform_foreign a requestId pg :
  match a with
  | Call _ => S (requestIdCounter pg) ≠ requestId
  | AbortHandle _ => True
  | Event other _ _ | BridgeError other _ => other ≠ requestId
  end →
  let pg' := perform atob a pg in
  requestIdCounter pg ≤ requestIdCounter pg'
  ∧ requestMap pg' !! requestId = requestMap pg !! requestId
  ∧ eventsOf requestId pg' = eventsOf requestId pg.
Proof.
  destruct a as [d|other|other eventName data|other d]; simpl; intros Hne.
  - unfold GM_xmlhttpRequest, eventsOf.
    destruct (negb _); simpl.
    + destruct (if hasName _ _ then _ else _); simpl;
        rewrite filter_callIfFunction, decide_False, app_nil_r by done;
        (split; [lia|]); (split; [|done]).
      * rewrite lookup_insert_ne by done. done.
      * rewrite lookup_delete_ne, lookup_insert_ne by done. done.
    + split; [lia|]. split; [|done]. rewrite lookup_insert_ne by done. done.
  - by rewrite abort_noop.
  - unfold GM_xmlhttpRequest_callback_handler, eventsOf.
    destruct (requestMap pg !! other) as [d|]; [|done].
    repeat case_match; simpl;
      rewrite ?filter_callIfFunction, ?decide_False, ?app_nil_r,
        ?lookup_delete_ne by done; done.
  - unfold bridgeRejected, eventsOf. simpl.
    rewrite filter_callIfFunction, decide_False, app_nil_r, lookup_delete_ne by done.
    done.
Qed.

(** A step that does not concern an issued request leaves its registration
    and its callbacks as they are. *)
Lemma perform_other a requestId pg :
  requestId ≤ requestIdCounter pg → concerns requestId a = false →
  let pg' := perform atob a pg in
  requestId ≤ requestIdCounter pg'
  ∧ requestMap pg' !! requestId = requestMap pg !! requestId
  ∧ eventsOf requestId pg' = eventsOf requestId pg.
Proof.
  intros Hle Hc. destruct (perform_foreign a requestId pg) as (Hm & ? & ?).
  { destruct a; simpl in *; [lia | done | by apply Nat.eqb_neq..]. }
  simpl. split; [lia | done].
Qed.


(** Once a request is retired, no page action brings its identifier back,
    and only the rejection of its bridge call calls a callback for it. *)
Lemma perform_retired a requestId pg :
  requestId ≤ requestIdCounter pg → requestMap pg !! requestId = None →
  isBridgeError requestId a = false →
  let pg' := perform atob a pg in
  requestId ≤ requestIdCounter pg' ∧ requestMap pg' !! requestId = None
  ∧ eventsOf requestId pg' = eventsOf requestId pg.
Proof.
  intros Hle Hnone Hb. destruct (concerns requestId a) eqn:Hc.
  - destruct a as [| |other eventName data|]; simpl in *; try congruence.
    apply Nat.eqb_eq in Hc as ->. by rewrite handler_unknown.
  - destruct (perform_other a requestId pg Hle Hc) as (? & Hm & ?).
    simpl. by rewrite Hm.
Qed.

Lemma performAll_retired acts : ∀ requestId pg,
  requestId ≤ requestIdCounter pg → requestMap pg !! requestId = None →
  Forall (λ a, isBridgeError requestId a = false) acts →
  eventsOf requestId (performAll atob acts pg) = eventsOf requestId pg.
Proof.
  induction acts as [|a acts IH]; intros requestId pg Hle Hnone Hacts; simpl; [done|].
  apply Forall_cons in Hacts as [Ha Hacts].
  destruct (perform_retired a requestId pg Hle Hnone Ha) as (Hle' & Hnone' & <-).
  by apply IH.
Qed.


End BridgeFacts.



(** C1, at the input where the code departs from it. The caller invokes the
    abort handle while the call is pending; the handle only logs; the abort
    signal of the host stays unset, the call completes, and the caller
    receives [onload] and never [onabort]: the run is the one without the
    invocation. *)
Theorem abort_handle_has_no_effect :
  let run := request exampleToBase64 exampleAtob exampleMessage plainCall
               [[AbortHandle 1]] 50 (Normal textResponse) false initialPage in
  let host := turn exampleToBase64 exampleMessage plainCall
                (turn exampleToBase64 exampleMessage plainCall
                   (issue plainCall 50 (Normal textResponse))) in
  run.1 = 1
  ∧ delivered run.2 = [(1, "onload")]
  ∧ signalAborted host = false
  ∧ run = request exampleToBase64 exampleAtob exampleMessage plainCall [] 50
            (Normal textResponse) false initialPage.
Proof. repeat split; vm_compute; reflexivity. Qed.

(** ** Examples *)

(** [<all_urls>] matches http and https URLs only. *)
Example all_urls_examples :
  urlMatches URL_examples ["<all_urls>"] "https://a.b/c?d" = Normal true
  ∧ urlMatches URL_examples ["<all_urls>"] "http://x.y/" = Normal true
  ∧ urlMatches URL_examples ["<all_urls>"] "ftp://a.b/" = Normal false.
Proof. repeat split; vm_compute; reflexivity. Qed.

(** The wildcard host of the specification's examples. *)
Example wildcard_host_examples :
  urlMatches URL_examples ["*://*.example.com/*"] "https://sub.example.com/path" = Normal true
  ∧ urlMatches URL_examples ["*://*.example.com/*"] "https://example.com/" = Normal true
  ∧ urlMatches URL_examples ["*://*.example.com/*"] "https://evilexample.com/" = Normal false.
Proof. repeat split; vm_compute; reflexivity. Qed.

(** The pattern that splits a match pattern, read by the RegExp constructor
    without the names of its groups, accepts the inputs that
    [matchPatternGroups] splits. *)
Example matchPatternGroups_examples :
  match parse "^(\*|https?):\/\/([^\/]+)(\/.*)?$" with
  | inr re =>
      forallb (λ pattern,
                 Bool.eqb (test re pattern)
                          (bool_decide (is_Some (matchPatternGroups pattern))))
        ["*://example.com/*"; "https://*.example.com/a/b"; "http://*"; "http://a";
         "ftp://a/b"; "file:///x"; "https:///x"; "*://"; "not-a-pattern"; "";
         "httpss://a/"; "xhttp://a/"; "*://*/*"]
  | inl _ => false
  end = true.
Proof. vm_compute. reflexivity. Qed.

(** The outcomes of the compiler on the kinds of input it distinguishes. *)
Example matchPatternToRegExp_outcomes :
  matchPatternToRegExp "file:///home/x" = Normal (Null FileSchemeUnsupported)
  ∧ matchPatternToRegExp "ftp://a/b" = Normal (Null FormatInvalid)
  ∧ matchPatternToRegExp "https://a*b/" = Normal (Null HostWildcardInvalid)
  ∧ validPattern "http://*" = true
  ∧ validPattern "https://*.google.com/search*" = true.
Proof. repeat split; vm_compute; reflexivity. Qed.

(** The metadata of the example script of the repository. *)
Example parseMetadata_example :
  match parseMetadata scriptA with
  | Normal md =>
      md_match md = ["*://example.com/*"; "https://example.com/*"]
      ∧ md_runAt md = "document-end" ∧ md_name md = ["A"]
  | Throw _ => False
  end.
Proof. vm_compute. done. Qed.

(** A directive named like a property of [Object.prototype] makes
    [parseMetadata] throw, and the catalog leaves the script out. *)
Example parseMetadata_inherited_key :
  parseMetadata "// ==UserScript==
// @match *://*/*
// @constructor x
// ==/UserScript==" = Throw TypeError.
Proof. vm_compute. reflexivity. Qed.

(** ** What every compiled pattern accepts *)

Section PatternLanguage.

Lemma afterPrefix_Some p : ∀ s r, afterPrefix p s = Some r ↔ s = p +:+ r.
Proof.
  induction p as [|a p IH]; intros s r; simpl.
  - split; [by intros [= ->] | by intros ->].
  - destruct s as [|b s]; [done|]. destruct (Ascii.eqb_spec a b) as [->|Hne].
    + rewrite IH. split; [by intros -> | by intros [= ->]].
    + split; [done | intros [= <- _]; done].
Qed.

Lemma startsWith_afterPrefix p : ∀ s,
  JS.startsWith s p = true ↔ ∃ r, s = p +:+ r.
Proof.
  induction p as [|a p IH]; intros s.
  - split; [intros _; by exists s | by destruct s].
  - destruct s as [|b s].
    + split; [done | by intros [r ?]].
    + rewrite startsWith_cons, andb_true_iff, IH. split.
      * intros [->%Ascii.eqb_eq [r ->]]. by exists r.
      * intros [r [= -> ->]]. split; [apply Ascii.eqb_refl | by exists r].
Qed.

Lemma substring_append p : ∀ r, JS.substring (String.length p) (p +:+ r) = r.
Proof. induction p as [|a p IH]; intros r; [by destruct r | apply IH]. Qed.

Lemma spanHost_spec s : ∀ h t,
  spanHost s = (h, t) →
  s = h +:+ t ∧ lacks "/" h = true ∧ (t = "" ∨ JS.startsWith t "/" = true).
Proof.
  induction s as [|c s IH]; intros h t; simpl.
  - intros [= <- <-]. auto.
  - destruct (Ascii.eqb_spec c "/") as [->|Hne].
    + intros [= <- <-]. split; [done|]. split; [done|]. right.
      by rewrite startsWith_cons, startsWith_nil.
    + destruct (spanHost s) as [h' t']. intros [= <- <-].
      destruct (IH h' t' eq_refl) as (-> & Hl & Ht). split; [done|]. split; [|done].
      unfold lacks in *. simpl. rewrite Hl, andb_true_r.
      apply negb_true_iff. by apply Ascii.eqb_neq.
Qed.

Lemma append_nil_r (s : string) : s +:+ "" = s.
Proof. induction s as [|c s IH]; [done|]. by rewrite append_cons, IH. Qed.

Lemma matchHostPath_inv scheme rest g :
  matchHostPath scheme rest = Some g →
  mscheme g = scheme ∧ rest = mhost g +:+ default "" (mpath g)
  ∧ mhost g ≠ "" ∧ lacks "/" (mhost g) = true
  ∧ match mpath g with
    | None => True
    | Some p => JS.startsWith p "/" = true ∧ noLineTerminator p = true
    end.
Proof.
  unfold matchHostPath. destruct (spanHost rest) as [h t] eqn:Hs.
  apply spanHost_spec in Hs as (-> & Hl & Ht).
  destruct h as [|c h]; [done|]. destruct t as [|c' after].
  - intros [= <-]. simpl. by rewrite append_nil_r.
  - destruct Ht as [|Ht]; [done|].
    destruct (noLineTerminator after) eqn:Hn; [|done]. intros [= <-]. simpl.
    repeat split; try done.
    rewrite startsWith_cons in Ht. apply andb_true_iff in Ht as [<-%Ascii.eqb_eq _].
    unfold noLineTerminator in *. simpl. done.
Qed.

Lemma matchPatternGroups_inv pattern g :
  matchPatternGroups pattern = Some g →
  (mscheme g = "*" ∨ mscheme g = "https" ∨ mscheme g = "http")
  ∧ pattern = mscheme g +:+ "://" +:+ mhost g +:+ default "" (mpath g)
  ∧ mhost g ≠ "" ∧ lacks "/" (mhost g) = true
  ∧ match mpath g with
    | None => True
    | Some p => JS.startsWith p "/" = true ∧ noLineTerminator p = true
    end.
Proof.
  unfold matchPatternGroups.
  destruct (JS.startsWith pattern "*://") eqn:H1.
  { apply startsWith_afterPrefix in H1 as [r ->].
    change 4 with (String.length "*://"). rewrite substring_append.
    intros (-> & -> & H)%matchHostPath_inv. auto. }
  destruct (JS.startsWith pattern "https://") eqn:H2.
  { apply startsWith_afterPrefix in H2 as [r ->].
    change 8 with (String.length "https://"). rewrite substring_append.
    intros (-> & -> & H)%matchHostPath_inv. auto. }
  destruct (JS.startsWith pattern "http://") eqn:H3; [|done].
  apply startsWith_afterPrefix in H3 as [r ->].
  change 7 with (String.length "http://"). rewrite substring_append.
  intros (-> & -> & H)%matchHostPath_inv. auto.
Qed.

Lemma matchPatternGroups_not_all_urls pattern g :
  matchPatternGroups pattern = Some g → String.eqb pattern "<all_urls>" = false.
Proof.
  intros ([-> | [-> | ->]] & -> & _)%matchPatternGroups_inv; reflexivity.
Qed.

Lemma pushes_app s1 s2 t1 t2 :
  pushes s1 t1 → pushes s2 t2 → pushes (s1 +:+ s2) (t1 ++ t2).
Proof.
  intros H1 H2 al tms l stk. destruct (H1 al tms l stk) as [l1 E1].
  destruct (H2 al (rev t1 ++ tms) l1 stk) as [l2 E2].
  exists l2. rewrite run_app, E1, E2. by rewrite rev_app_distr, <-app_assoc.
Qed.

Lemma pushes_literal dom :
  lacks "*" dom = true → pushes (JS.escapeSpecials dom) (map RChar (chars dom)).
Proof.
  intros Hl al tms l stk. eexists. by rewrite run_escaped_literal.
Qed.

Lemma pushes_glob p :
  pushes (JS.replaceStars (JS.escapeSpecials p)) (map globTerm (chars p)).
Proof.
  induction p as [|c p IH]; intros al tms l stk; [by exists l|].
  rewrite escapeSpecials_cons.
  assert (∀ t l0, globTerm c = t →
            ∃ l', run (PState MNormal (Frame al (t :: tms) l0) stk)
                      (JS.replaceStars (JS.escapeSpecials p))
                  = inr (PState MNormal
                           (Frame al (rev (map globTerm (chars (String c p))) ++ tms) l')
                           stk)) as Hgo.
  { intros t l0 <-. destruct (IH al (globTerm c :: tms) l0 stk) as [l' ->].
    exists l'. simpl. by rewrite <-app_assoc. }
  destruct (char_cases c) as [(Hm & Hal & Hne) | [-> | (Hm & Hne & Hstep)]].
  - rewrite Hm, replaceStars_cons.
    change (Ascii.eqb "\"%char "*"%char) with false. cbv iota.
    rewrite replaceStars_cons, Hne.
    change (String "\"%char (String c (JS.replaceStars (JS.escapeSpecials p))))
      with (String "\"%char (String c EmptyString) +:+ JS.replaceStars (JS.escapeSpecials p)).
    rewrite run_app, run_escape_pair by done.
    apply Hgo. unfold globTerm. by rewrite Hne.
  - change (JS.mem "*"%char JS.regExpSpecials) with false. cbv iota.
    rewrite replaceStars_cons. change (Ascii.eqb "*"%char "*"%char) with true. cbv iota.
    change (String "."%char (String "*"%char (JS.replaceStars (JS.escapeSpecials p))))
      with (String "."%char (String "*"%char EmptyString) +:+ JS.replaceStars (JS.escapeSpecials p)).
    rewrite run_app.
    change (run (PState MNormal (Frame al tms l) stk) ".*")
      with (@inr parseError _ (PState MNormal (Frame al (RStar RDot :: tms) Quantified) stk)).
    by apply Hgo.
  - rewrite Hm, replaceStars_cons, Hne, run_cons.
    unfold step. cbn [pmode]. rewrite Hstep. cbn [cur stack pushTerm alts terms].
    apply Hgo. unfold globTerm. by rewrite Hne.
Qed.

Lemma lacks_cons c d s :
  lacks c (String d s) = negb (Ascii.eqb d c) && lacks c s.
Proof. reflexivity. Qed.

Lemma lacks_star_escape s :
  lacks "*" s = true → lacks "*" (JS.escapeSpecials s) = true.
Proof.
  induction s as [|c s IH]; [done|].
  rewrite lacks_cons, escapeSpecials_cons.
  intros [Hc Hs]%andb_true_iff.
  destruct (JS.mem c JS.regExpSpecials); rewrite !lacks_cons, Hc, IH by done; done.
Qed.

Lemma lacks_startsWith c s p :
  lacks c s = true → JS.startsWith s (String c p) = false.
Proof.
  destruct s as [|d s]; [done|]. rewrite lacks_cons, startsWith_cons.
  intros [Hd _]%andb_true_iff. apply negb_true_iff in Hd.
  by rewrite Ascii.eqb_sym, Hd.
Qed.

Lemma lacks_includes c s :
  lacks c s = true → JS.includes s (String c "") = false.
Proof.
  induction s as [|d s IH]; [done|]. intros H.
  cbn [JS.includes]. rewrite lacks_startsWith by done.
  apply andb_true_iff in H as [_ H]. by apply IH.
Qed.

Lemma hostRegex_literal hp :
  lacks "*" hp = true → hostRegex hp = inr (JS.escapeSpecials hp).
Proof.
  intros Hl%lacks_star_escape. unfold hostRegex. cbv zeta.
  rewrite lacks_startsWith, lacks_includes by done.
  destruct (String.eqb_spec (JS.escapeSpecials hp) "*") as [E|]; [|done].
  by rewrite E in Hl.
Qed.

Lemma hostRegex_pushes hp :
  hostWildcardOk hp = true →
  ∃ src, hostRegex hp = inr src ∧ pushes src (hostTerms hp).
Proof.
  unfold hostWildcardOk, hostTerms.
  destruct (String.eqb_spec hp "*") as [->|Hne]; cbn [orb].
  - intros _. exists "[^\/]+". split; [reflexivity|].
    intros al tms l stk. eexists. reflexivity.
  - destruct (afterPrefix "*." hp) as [dom|] eqn:Hp;
      change (lacks "*" ?x = true → ?G) with (lacks "*" x = true → G);
      unfold default; cbn [from_option id]; intros Hl.
    + apply afterPrefix_Some in Hp as ->. rewrite hostRegex_wildcard.
      eexists. split; [done|].
      apply (pushes_app _ _ [_] _); [|by apply pushes_literal].
      intros al tms l stk. eexists. reflexivity.
    + rewrite hostRegex_literal by done.
      eexists. split; [done|]. by apply pushes_literal.
Qed.

Lemma schemeRegex_pushes scheme :
  scheme = "*" ∨ scheme = "https" ∨ scheme = "http" →
  pushes (schemeRegex scheme) (schemeTerms scheme).
Proof.
  intros [-> | [-> | ->]] al tms l stk; eexists; reflexivity.
Qed.

Lemma pathRegex_pushes p :
  match p with
  | None => True
  | Some p => JS.startsWith p "/" = true ∧ noLineTerminator p = true
  end →
  pushes (pathRegex p) (pathTerms p).
Proof.
  destruct p as [p|].
  - intros [Hp _]. destruct p as [|c p]; [done|].
    unfold pathRegex, pathTerms. change (String.eqb (String c p) "") with false.
    cbv iota. apply pushes_glob.
  - intros _ al tms l stk. eexists. reflexivity.
Qed.

(** The RegExp object that the compiler returns for a pattern whose host
    uses the star as expected. *)
Lemma matchPatternToRegExp_compiled pattern g :
  matchPatternGroups pattern = Some g → hostWildcardOk (mhost g) = true →
  matchPatternToRegExp pattern = Normal (Matcher (compiled g)).
Proof.
  intros Hg Hh. unfold matchPatternToRegExp.
  rewrite (matchPatternGroups_not_all_urls _ _ Hg), Hg.
  apply matchPatternGroups_inv in Hg as (Hs & _ & _ & _ & Hp).
  destruct (hostRegex_pushes _ Hh) as (src & -> & Hsrc).
  set (middle := schemeTerms (mscheme g) ++ map RChar (chars "://")
                 ++ hostTerms (mhost g) ++ pathTerms (mpath g)).
  assert (pushes (finalRegexString g src) ((RBol :: middle) ++ [REol])) as Hall.
  { replace ((RBol :: middle) ++ [REol])
      with ([RBol] ++ schemeTerms (mscheme g) ++ map RChar (chars "://")
            ++ hostTerms (mhost g) ++ pathTerms (mpath g) ++ [REol])
      by (unfold middle; cbn [app]; by rewrite <-!app_assoc).
    unfold finalRegexString.
    apply pushes_app; [intros al tms l stk; eexists; reflexivity|].
    apply pushes_app; [by apply schemeRegex_pushes|].
    apply pushes_app; [intros al tms l stk; eexists; reflexivity|].
    apply pushes_app; [done|].
    apply pushes_app; [by apply pathRegex_pushes|].
    intros al tms l stk; eexists; reflexivity. }
  destruct (Hall [] [] NoTerm []) as [l' Hrun].
  rewrite app_nil_r, rev_unit in Hrun.
  unfold RegExp_new, parse, emptyFrame. rewrite Hrun.
  unfold finish, buildFrame. cbn [pmode stack cur alts terms fold_left].
  rewrite buildSeq_fold by done. by rewrite rev_involutive.
Qed.

Lemma MatchAll_single bol eol r s : MatchAll bol eol [r] s ↔ Match bol eol r s.
Proof.
  simpl. split.
  - intros (s1 & s2 & -> & H & ->). by rewrite app_nil_r, andb_true_r in *.
  - intros H. exists s, []. by rewrite app_nil_r, andb_true_r.
Qed.

Lemma MatchAll_flags rs : ∀ bol eol bol' eol' s,
  Forall (λ r, assertionFree r = true) rs →
  MatchAll bol eol rs s → MatchAll bol' eol' rs s.
Proof.
  induction rs as [|r rs IH]; intros bol eol bol' eol' s Hf; [done|].
  apply Forall_cons in Hf as [Hr Hf]. simpl.
  intros (s1 & s2 & -> & H1 & H2). exists s1, s2. split; [done|].
  split; [by eapply Match_flags | by eapply IH].
Qed.

Lemma MatchAll_snoc_eol rs : ∀ bol eol s,
  MatchAll bol eol (rs ++ [REol]) s ↔ eol = true ∧ MatchAll bol eol rs s.
Proof.
  induction rs as [|r rs IH]; intros bol eol s.
  - rewrite app_nil_l, MatchAll_single, Match_eol. simpl. tauto.
  - simpl. split.
    + intros (s1 & s2 & -> & H1 & [He H2]%IH). eauto 6.
    + intros (He & s1 & s2 & -> & H1 & H2). exists s1, s2. split; [done|].
      split; [done|]. by apply IH.
Qed.

(** A pattern anchored at both ends, with terms free of assertions between
    the anchors, matches whole inputs only. *)
Lemma test_anchored middle u :
  Forall (λ r, assertionFree r = true) middle →
  test (fold_right RSeq REol (RBol :: middle)) u = true
  ↔ MatchAll false false middle (chars u).
Proof.
  intros Hf. rewrite test_Match. split.
  - intros (pre & s1 & post & Hu & H). apply fold_right_seq_Match in H.
    apply MatchAll_snoc_eol in H as [Hpost H]. simpl in H.
    destruct H as (a & b & -> & [-> Hpre]%Match_bol & H).
    destruct pre; [|done]. destruct post; [|done].
    unfold chars. rewrite Hu. simpl. rewrite app_nil_r.
    by eapply MatchAll_flags.
  - intros H. exists [], (chars u), []. split; [by rewrite app_nil_r|].
    apply fold_right_seq_Match, MatchAll_snoc_eol. split; [done|].
    exists [], (chars u). split; [done|]. split; [constructor|].
    by eapply MatchAll_flags.
Qed.

Lemma MatchAll_app rs1 : ∀ rs2 bol eol s,
  Forall (λ r, assertionFree r = true) rs1 →
  Forall (λ r, assertionFree r = true) rs2 →
  MatchAll bol eol (rs1 ++ rs2) s ↔
  ∃ s1 s2, s = s1 ++ s2 ∧ MatchAll bol eol rs1 s1 ∧ MatchAll bol eol rs2 s2.
Proof.
  induction rs1 as [|r rs1 IH]; intros rs2 bol eol s Hf1 Hf2.
  - simpl. split; [intros H; by exists [], s | by intros (s1 & s2 & -> & -> & H)].
  - apply Forall_cons in Hf1 as [Hr Hf1]. simpl. split.
    + intros (a & b & -> & Ha & (b1 & b2 & -> & H1 & H2)%IH); [|done..].
      exists (a ++ b1), b2. split; [by rewrite app_assoc|]. split.
      * exists a, b1. split; [done|].
        split; [by eapply Match_flags | by eapply MatchAll_flags].
      * by eapply MatchAll_flags.
    + intros (s1 & s2 & -> & (a & b1 & -> & Ha & H1) & H2).
      exists a, (b1 ++ s2). split; [by rewrite app_assoc|].
      split; [by eapply Match_flags|]. apply IH; [done..|].
      exists b1, s2. split; [done|].
      split; by eapply MatchAll_flags.
Qed.

Lemma MatchAll_literal l bol eol s : MatchAll bol eol (map RChar l) s ↔ s = l.
Proof.
  rewrite <-(app_nil_r (map RChar l)), MatchAll_chars. simpl. split.
  - intros (s' & -> & ->). by rewrite app_nil_r.
  - intros ->. exists []. by rewrite app_nil_r.
Qed.

Lemma assertionFree_literal l : Forall (λ r, assertionFree r = true) (map RChar l).
Proof. apply Forall_forall. by intros r (c & -> & _)%list_elem_of_fmap. Qed.

Lemma globStar_spec rest s :
  globStar rest s = true ↔
  ∃ s1 s2, s = s1 ++ s2 ∧ Forall (λ c, JS.isLineTerminator c = false) s1
           ∧ rest s2 = true.
Proof.
  induction s as [|c s IH]; simpl.
  - rewrite orb_false_r. split.
    + intros H. by exists [], [].
    + intros (s1 & s2 & Hs & _ & H). symmetry in Hs.
      by apply app_eq_nil in Hs as [_ ->].
  - rewrite orb_true_iff, andb_true_iff, negb_true_iff, IH. split.
    + intros [H | [Hc (s1 & s2 & -> & H1 & H2)]].
      * by exists [], (c :: s).
      * exists (c :: s1), s2. split; [done|]. split; [by constructor|done].
    + intros (s1 & s2 & Hs & H1 & H2). destruct s1 as [|d s1]; simpl in Hs.
      * subst s2. by left.
      * injection Hs as -> ->. apply Forall_cons in H1 as [Hc H1].
        right. split; [done|]. by exists s1, s2.
Qed.

Lemma glob_MatchAll p : ∀ bol eol s,
  MatchAll bol eol (map globTerm p) s ↔ glob p s = true.
Proof.
  induction p as [|c p IH]; intros bol eol s.
  - simpl. by destruct s.
  - cbn [map MatchAll glob]. unfold globTerm at 1.
    destruct (Ascii.eqb c "*").
    + rewrite globStar_spec. split.
      * intros (s1 & s2 & -> & H1 & H2%IH). exists s1, s2. split; [done|].
        split; [|done].
        by apply (Match_star_single (λ c, JS.isLineTerminator c = false)) in H1;
          [|intros; apply Match_dot].
      * intros (s1 & s2 & -> & H1 & H2). exists s1, s2. split; [done|].
        split; [|by apply IH].
        by apply (Match_star_single (λ c, JS.isLineTerminator c = false));
          [intros; apply Match_dot|].
    + split.
      * intros (s1 & s2 & -> & ->%Match_char & H2%IH). simpl.
        by rewrite Ascii.eqb_refl.
      * destruct s as [|d s]; [done|].
        intros [->%Ascii.eqb_eq H]%andb_true_iff.
        exists [d], s. split; [done|]. split; [constructor | by apply IH].
Qed.

Lemma assertionFree_glob p : Forall (λ r, assertionFree r = true) (map globTerm p).
Proof.
  apply Forall_forall. intros r (c & -> & _)%list_elem_of_fmap.
  unfold globTerm. by destruct (Ascii.eqb c "*").
Qed.

Lemma schemeTerms_lang scheme bol eol s :
  scheme = "*" ∨ scheme = "https" ∨ scheme = "http" →
  MatchAll bol eol (schemeTerms scheme) s ↔ ∃ w, s = chars w ∧ schemeWord scheme w.
Proof.
  intros [-> | [-> | ->]].
  - change (schemeTerms "*") with (map RChar (chars "http") ++ [ROpt (RChar "s")]).
    rewrite MatchAll_chars. unfold schemeWord. cbn [String.eqb Ascii.eqb Bool.eqb]. split.
    + intros (s' & -> & H%MatchAll_single%Match_opt).
      destruct H as [-> | ->%Match_char].
      * exists "http". split; [done | by left].
      * exists "https". split; [done | by right].
    + intros (w & -> & [-> | ->]).
      * exists []. split; [done|]. apply MatchAll_single, Match_opt. by left.
      * exists ["s"%char]. split; [done|]. apply MatchAll_single, Match_opt.
        right. constructor.
  - change (schemeTerms "https") with (map RChar (chars "https")).
    rewrite MatchAll_literal. unfold schemeWord. cbn [String.eqb Ascii.eqb Bool.eqb].
    split; [intros ->; by exists "https" | by intros (w & -> & ->)].
  - change (schemeTerms "http") with (map RChar (chars "http")).
    rewrite MatchAll_literal. unfold schemeWord. cbn [String.eqb Ascii.eqb Bool.eqb].
    split; [intros ->; by exists "http" | by intros (w & -> & ->)].
Qed.

Lemma Match_not_slash bol eol s :
  Match bol eol (RClass true ["/"%char]) s ↔ ∃ c, s = [c] ∧ c ≠ "/"%char.
Proof.
  rewrite Match_class. split; intros (c & -> & H); exists c; (split; [done|]).
  - simpl in H. by destruct (Ascii.eqb_spec c "/").
  - simpl. by destruct (Ascii.eqb_spec c "/").
Qed.

Lemma hostTerms_lang hp bol eol s :
  MatchAll bol eol (hostTerms hp) s ↔ ∃ host, s = chars host ∧ hostWord hp host.
Proof.
  unfold hostTerms, hostWord. destruct (String.eqb hp "*").
  - rewrite MatchAll_single,
      (Match_plus_single (λ c, c ≠ "/"%char) _ Match_not_slash).
    split.
    + intros [Hne Hall]. exists (string_of_list_ascii s). rewrite chars_of_list.
      split; [done|]. split.
      * intros E. apply (f_equal chars) in E. by rewrite chars_of_list in E.
      * apply lacks_Forall. by rewrite chars_of_list.
    + intros (host & -> & Hne & Hl). split; [by destruct host | by apply lacks_Forall].
  - destruct (afterPrefix "*." hp) as [dom|].
    + cbn [MatchAll]. split.
      * intros (s1 & s2 & -> & H1%Match_label & ->%MatchAll_literal).
        destruct H1 as [-> | (l & Hne & Hl & ->)].
        -- exists dom. split; [done | by left].
        -- exists (string_of_list_ascii l +:+ "." +:+ dom).
           rewrite !chars_app, chars_of_list. split; [by rewrite <-app_assoc|].
           right. exists (string_of_list_ascii l).
           split; [apply isLabel_iff; by rewrite chars_of_list | done].
      * intros (host & -> & [-> | (label & Hl & ->)]).
        -- exists [], (chars dom). split; [done|].
           split; [apply Match_label; by left | by apply MatchAll_literal].
        -- exists (chars label ++ ["."%char]), (chars dom). rewrite !chars_app.
           split; [by rewrite <-app_assoc|]. split; [|by apply MatchAll_literal].
           apply Match_label. right. apply isLabel_iff in Hl as [? ?]. eauto.
    + rewrite MatchAll_literal. split; [intros ->; eauto | by intros (host & -> & ->)].
Qed.

Lemma noLineTerminator_Forall s :
  noLineTerminator s = true ↔ Forall (λ c, JS.isLineTerminator c = false) (chars s).
Proof.
  unfold noLineTerminator, chars. rewrite forallb_forall, Forall_forall.
  split; intros H c Hc.
  - apply negb_true_iff, H. by apply list_elem_of_In.
  - apply negb_true_iff, H. by apply list_elem_of_In.
Qed.

Lemma pathTerms_lang p bol eol s :
  MatchAll bol eol (pathTerms p) s ↔ ∃ rest, s = chars rest ∧ pathWord p rest.
Proof.
  unfold pathTerms, pathWord. destruct p as [p|].
  - rewrite glob_MatchAll. split.
    + intros H. exists (string_of_list_ascii s). by rewrite chars_of_list.
    + by intros (rest & -> & H).
  - rewrite MatchAll_single, Match_opt, Match_seq_inv. split.
    + intros [-> | (s1 & s2 & -> & ->%Match_char & H)]; [by exists ""; auto|].
      apply (Match_star_single (λ c, JS.isLineTerminator c = false)) in H;
        [|intros; apply Match_dot].
      exists (String "/" (string_of_list_ascii s2)). split.
      * change (chars (String ?c ?r)) with (c :: chars r). by rewrite chars_of_list.
      * right. split; [by rewrite startsWith_cons, startsWith_nil|].
        apply noLineTerminator_Forall.
        change (chars (String ?c ?r)) with (c :: chars r). rewrite chars_of_list.
        by constructor.
    + intros (rest & -> & [-> | [Hs Hn]]); [by left|]. right.
      destruct rest as [|c rest]; [done|].
      rewrite startsWith_cons in Hs. apply andb_true_iff in Hs as [<-%Ascii.eqb_eq _].
      apply noLineTerminator_Forall in Hn.
      change (chars (String ?c ?r)) with (c :: chars r) in *.
      apply Forall_cons in Hn as [_ Hn].
      exists ["/"%char], (chars rest). split; [done|]. split; [constructor|].
      by apply (Match_star_single (λ c, JS.isLineTerminator c = false));
        [intros; apply Match_dot|].
Qed.

Lemma assertionFree_schemeTerms scheme :
  Forall (λ r, assertionFree r = true) (schemeTerms scheme).
Proof.
  unfold schemeTerms. destruct (String.eqb scheme "*");
    [repeat constructor | apply assertionFree_literal].
Qed.

Lemma assertionFree_hostTerms hp :
  Forall (λ r, assertionFree r = true) (hostTerms hp).
Proof.
  unfold hostTerms. destruct (String.eqb hp "*"); [repeat constructor|].
  destruct (afterPrefix "*." hp);
    [constructor; [done|] |]; apply assertionFree_literal.
Qed.

Lemma assertionFree_pathTerms p :
  Forall (λ r, assertionFree r = true) (pathTerms p).
Proof.
  destruct p; [apply assertionFree_glob | repeat constructor].
Qed.

Lemma test_compiled g u :
  mscheme g = "*" ∨ mscheme g = "https" ∨ mscheme g = "http" →
  test (compiled g) u = true ↔ accepts g u.
Proof.
  intros Hs. unfold compiled, accepts.
  pose proof (assertionFree_schemeTerms (mscheme g)) as F1.
  pose proof (assertionFree_literal (chars "://")) as F2.
  pose proof (assertionFree_hostTerms (mhost g)) as F3.
  pose proof (assertionFree_pathTerms (mpath g)) as F4.
  rewrite test_anchored by (repeat (apply Forall_app; split); done).
  rewrite MatchAll_app by (repeat (apply Forall_app; split); done).
  split.
  - intros (s1 & r1 & Hu & (scheme & -> & H1)%schemeTerms_lang & H); [|done].
    apply MatchAll_app in H as (s2 & r2 & -> & ->%MatchAll_literal & H);
      [|by repeat (apply Forall_app; split)..].
    apply MatchAll_app in H
        as (s3 & s4 & -> & (host & -> & H3)%hostTerms_lang & (rest & -> & H4)%pathTerms_lang);
      [|done..].
    exists scheme, host, rest. split; [|done].
    apply chars_inj. by rewrite !chars_app.
  - intros (scheme & host & rest & -> & H1 & H3 & H4).
    exists (chars scheme), (chars "://" ++ chars host ++ chars rest).
    split; [by rewrite !chars_app|]. split; [apply schemeTerms_lang; eauto|].
    apply MatchAll_app; [by repeat (apply Forall_app; split)..|].
    exists (chars "://"), (chars host ++ chars rest). split; [done|].
    split; [by apply MatchAll_literal|].
    apply MatchAll_app; [done..|].
    exists (chars host), (chars rest). split; [done|].
    split; [apply hostTerms_lang | apply pathTerms_lang]; eauto.
Qed.

End PatternLanguage.

(** X1. A match pattern [scheme://host/path] whose host uses the star alone
    or in the prefix [*.] only compiles to a RegExp object, and that object
    accepts exactly the strings made of an admitted scheme, the separator,
    an admitted host and an admitted rest: the scheme itself, or [http] and
    [https] for a star; any host without slash for a lone star, the domain
    or one label and the domain after [*.], the literal host otherwise; and
    for the rest the path pattern with every star standing for characters
    other than line terminators (nothing, or a slash and such characters,
    when the pattern has no path). Characters of the pattern that are
    special in a RegExp source stand for themselves. *)
Theorem pattern_accepts_exactly (pattern : string) (g : patternGroups) :
  matchPatternGroups pattern = Some g →
  hostWildcardOk (mhost g) = true →
  pattern = mscheme g +:+ "://" +:+ mhost g +:+ default "" (mpath g)
  ∧ ∃ re, matchPatternToRegExp pattern = Normal (Matcher re)
          ∧ ∀ u, test re u = true ↔ accepts g u.
Proof.
  intros Hg Hh. pose proof (matchPatternGroups_inv _ _ Hg) as (Hs & Hp & _).
  split; [done|]. exists (compiled g).
  split; [by apply matchPatternToRegExp_compiled|].
  intros u. by apply test_compiled.
Qed.

Lemma pattern_accepts_exactly_witness :
  matchPatternGroups "*://*.example.com/a/*.html"
  = Some (PatternGroups "*" "*.example.com" (Some "/a/*.html"))
  ∧ hostWildcardOk "*.example.com" = true
  ∧ ∃ re, matchPatternToRegExp "*://*.example.com/a/*.html" = Normal (Matcher re)
          ∧ ∀ u, test re u = true
                 ↔ accepts (PatternGroups "*" "*.example.com" (Some "/a/*.html")) u.
Proof.
  split; [reflexivity|]. split; [reflexivity|].
  apply (pattern_accepts_exactly "*://*.example.com/a/*.html"
           (PatternGroups "*" "*.example.com" (Some "/a/*.html")));
    reflexivity.
Defined.

(** The characters that are special in a RegExp source are literal in a
    pattern: the dot of a host does not stand for any character, and a
    question mark of a path is not a quantifier. *)
Example pattern_specials_are_literal :
  matchesUrl URL_examples ["https://a.b/c?d"] "https://a.b/c?d" = true
  ∧ validPattern "https://axb/c?d" = true
  ∧ (∀ re, matchPatternToRegExp "https://a.b/c?d" = Normal (Matcher re) →
           test re "https://axb/c?d" = false ∧ test re "https://a.b/d" = false).
Proof.
  split; [vm_compute; reflexivity|]. split; [vm_compute; reflexivity|].
  intros re H. vm_compute in H. injection H as <-. split; vm_compute; reflexivity.
Qed.

Section PatternShape.

Lemma startsWith_chars u p r :
  chars u = chars p ++ r → JS.startsWith u p = true.
Proof.
  intros H. apply startsWith_afterPrefix. exists (string_of_list_ascii r).
  apply chars_inj. by rewrite chars_app, chars_of_list.
Qed.

Lemma allUrls_lang bol eol s :
  MatchAll bol eol
    (map RChar (chars "http") ++ ROpt (RChar "s") :: map RChar (chars "://")
     ++ [RStar RDot]) s
  ↔ ∃ (secure : bool) rest,
      s = chars (if secure then "https://" else "http://") ++ rest
      ∧ Forall (λ c, JS.isLineTerminator c = false) rest.
Proof.
  rewrite MatchAll_chars. split.
  - intros (s1 & -> & a & s2 & -> & Ha%Match_opt & (s3 & -> & H)%MatchAll_chars).
    apply MatchAll_single in H.
    apply (Match_star_single (λ c, JS.isLineTerminator c = false)) in H;
      [|intros; apply Match_dot].
    destruct Ha as [-> | ->%Match_char]; [by exists false, s3 | by exists true, s3].
  - intros (secure & rest & -> & Hrest).
    exists ((if secure then ["s"%char] else []) ++ chars "://" ++ rest).
    split; [by destruct secure|].
    exists (if secure then ["s"%char] else []), (chars "://" ++ rest).
    split; [done|]. split.
    { apply Match_opt. destruct secure; [right; constructor | by left]. }
    apply MatchAll_chars. exists rest. split; [done|]. apply MatchAll_single.
    by apply (Match_star_single (λ c, JS.isLineTerminator c = false));
      [intros; apply Match_dot|].
Qed.

Lemma escaped_wild_host host :
  JS.startsWith (JS.escapeSpecials host) "*\." = true → JS.startsWith host "*." = true.
Proof.
  destruct host as [|c1 host]; [done|].
  rewrite escapeSpecials_cons.
  destruct (char_cases c1) as [(Hm & _) | [-> | (Hm & Hne & _)]].
  - rewrite Hm, startsWith_cons. done.
  - change (JS.mem "*"%char JS.regExpSpecials) with false. cbv iota.
    rewrite !startsWith_cons. change (Ascii.eqb "*" "*")%char with true.
    rewrite !andb_true_l.
    destruct host as [|c2 h]; [done|].
    rewrite escapeSpecials_cons.
    destruct (char_cases c2) as [(Hm2 & _) | [-> | (Hm2 & Hne2 & _)]].
    + rewrite Hm2, !startsWith_cons, !startsWith_nil.
      by intros [_ H]%andb_true_iff.
    + change (JS.mem "*"%char JS.regExpSpecials) with false. cbv iota.
      rewrite startsWith_cons. done.
    + rewrite Hm2, startsWith_cons.
      destruct (Ascii.eqb_spec "\"%char c2) as [<-|]; [discriminate Hm2|done].
  - rewrite Hm, startsWith_cons, Ascii.eqb_sym, Hne. done.
Qed.

Lemma includes_lacks c s :
  JS.includes s (String c "") = false → lacks c s = true.
Proof.
  induction s as [|d s IH]; [done|]. cbn [JS.includes].
  rewrite startsWith_cons, startsWith_nil, andb_true_r, lacks_cons.
  intros [Hd Hs]%orb_false_iff. rewrite IH by done.
  by rewrite Ascii.eqb_sym, Hd.
Qed.

Lemma lacks_escape_star s :
  lacks "*" (JS.escapeSpecials s) = true → lacks "*" s = true.
Proof.
  induction s as [|c s IH]; [done|].
  rewrite escapeSpecials_cons, lacks_cons.
  destruct (JS.mem c JS.regExpSpecials); rewrite !lacks_cons.
  - intros [_ [-> ?]%andb_true_iff]%andb_true_iff. by rewrite IH.
  - intros [-> ?]%andb_true_iff. by rewrite IH.
Qed.

Lemma hostRegex_inr host src :
  hostRegex host = inr src →
  host = "*" ∨ JS.startsWith host "*." = true ∨ lacks "*" host = true.
Proof.
  unfold hostRegex. cbv zeta.
  destruct (JS.startsWith _ "*\.") eqn:Hw.
  { intros _. right. left. by apply escaped_wild_host. }
  destruct (JS.includes _ "*") eqn:Hi.
  - destruct (String.eqb_spec (JS.escapeSpecials host) "*") as [E|]; [|done].
    intros _. left. destruct host as [|c [|d h]]; [done| |].
    + destruct (char_cases c) as [(Hm & _) | [-> | (Hm & _)]];
        [|done|]; rewrite escapeSpecials_cons, Hm in E; [done|].
      by injection E as ->.
    + exfalso. rewrite !escapeSpecials_cons in E.
      destruct (JS.mem c _), (JS.mem d _); discriminate.
  - intros _. right. right. by apply lacks_escape_star, includes_lacks.
Qed.

End PatternShape.

(** X2. The pattern [<all_urls>] compiles to a RegExp object that accepts
    exactly the strings that begin with [http://] or with [https://]. *)
Theorem all_urls_accepts (u : string) :
  matchPatternToRegExp "<all_urls>" = Normal (Matcher allUrlsRegExp)
  ∧ (test allUrlsRegExp u = true
     ↔ JS.startsWith u "http://" = true ∨ JS.startsWith u "https://" = true).
Proof.
  split; [reflexivity|].
  change allUrlsRegExp
    with (fold_right RSeq (RStar RDot)
            (RBol :: map RChar (chars "http") ++ ROpt (RChar "s")
                  :: map RChar (chars "://"))).
  rewrite test_Match. split.
  - intros (pre & s1 & post & Hu & H). apply fold_right_seq_Match in H.
    cbn [app MatchAll] in H.
    destruct H as (a & b & -> & [-> Hpre]%Match_bol & H).
    destruct pre; [|done]. simpl in Hu.
    apply (MatchAll_flags _ _ _ false false) in H; [|repeat constructor].
    apply allUrls_lang in H as (secure & rest & -> & _).
    rewrite <-app_assoc in Hu.
    destruct secure; [right | left]; by eapply startsWith_chars.
  - intros H.
    assert (∃ (secure : bool) r,
              u = (if secure then "https://" else "http://") +:+ r) as (secure & r & ->).
    { destruct H as [[r ->]%startsWith_afterPrefix | [r ->]%startsWith_afterPrefix];
        [by exists false, r | by exists true, r]. }
    exists [], (chars (if secure then "https://" else "http://")), (chars r).
    split; [apply (chars_app _ r)|].
    apply fold_right_seq_Match. cbn [app MatchAll].
    exists [], (chars (if secure then "https://" else "http://")).
    split; [done|]. split; [constructor|].
    eapply MatchAll_flags; [repeat constructor|].
    apply (allUrls_lang false false). exists secure, []. by rewrite app_nil_r.
Qed.

Section SplitFacts.

Lemma spanHost_nil h : lacks "/" h = true → spanHost h = (h, "").
Proof.
  induction h as [|c h IH]; [done|]. rewrite lacks_cons.
  intros [Hc Hl]%andb_true_iff. apply negb_true_iff in Hc.
  simpl. by rewrite Hc, IH.
Qed.

Lemma matchHostPath_complete scheme host rest :
  host ≠ "" → lacks "/" host = true →
  rest = "" ∨ (JS.startsWith rest "/" = true ∧ noLineTerminator rest = true) →
  matchHostPath scheme (host +:+ rest)
  = Some (PatternGroups scheme host (if String.eqb rest "" then None else Some rest)).
Proof.
  intros Hne Hl [-> | [Hs Hn]]; unfold matchHostPath.
  - rewrite append_nil_r, spanHost_nil by done. by destruct host.
  - destruct rest as [|c after]; [done|].
    rewrite startsWith_cons in Hs. apply andb_true_iff in Hs as [<-%Ascii.eqb_eq _].
    rewrite spanHost_app by done. destruct host; [done|].
    unfold noLineTerminator in *. simpl in Hn. by rewrite Hn.
Qed.

Lemma matchPatternGroups_complete scheme host rest :
  scheme = "*" ∨ scheme = "https" ∨ scheme = "http" →
  host ≠ "" → lacks "/" host = true →
  rest = "" ∨ (JS.startsWith rest "/" = true ∧ noLineTerminator rest = true) →
  matchPatternGroups (scheme +:+ "://" +:+ host +:+ rest)
  = Some (PatternGroups scheme host (if String.eqb rest "" then None else Some rest)).
Proof.
  intros Hs Hne Hl Hr. unfold matchPatternGroups.
  destruct Hs as [-> | [-> | ->]].
  - change ("*" +:+ "://" +:+ host +:+ rest) with ("*://" +:+ (host +:+ rest)).
    rewrite (proj2 (startsWith_afterPrefix "*://" _)) by eauto.
    change 4 with (String.length "*://"). rewrite substring_append.
    by apply matchHostPath_complete.
  - change ("https" +:+ "://" +:+ host +:+ rest) with ("https://" +:+ (host +:+ rest)).
    change (JS.startsWith ("https://" +:+ (host +:+ rest)) "*://") with false.
    rewrite (proj2 (startsWith_afterPrefix "https://" _)) by eauto.
    change 8 with (String.length "https://"). rewrite substring_append.
    by apply matchHostPath_complete.
  - change ("http" +:+ "://" +:+ host +:+ rest) with ("http://" +:+ (host +:+ rest)).
    change (JS.startsWith ("http://" +:+ (host +:+ rest)) "*://") with false.
    change (JS.startsWith ("http://" +:+ (host +:+ rest)) "https://") with false.
    rewrite (proj2 (startsWith_afterPrefix "http://" _)) by eauto.
    change 7 with (String.length "http://"). rewrite substring_append.
    by apply matchHostPath_complete.
Qed.

Lemma schemeGroup_lang bol eol s :
  Match bol eol
    (RAlt (RChar "*")
       (fold_right RSeq (ROpt (RChar "s")) (map RChar (chars "http")))) s
  ↔ ∃ w, s = chars w ∧ (w = "*" ∨ w = "https" ∨ w = "http").
Proof.
  split.
  - intros H. inversion H as [| | | | | | |? ? ? ? ? H1|? ? ? ? ? H1| | | | |]; subst.
    + apply Match_char in H1 as ->. exists "*". auto.
    + apply (fold_right_seq_Match (map RChar (chars "http")) (ROpt (RChar "s"))) in H1.
      destruct (proj1 (schemeTerms_lang "*" _ _ _ (or_introl eq_refl)) H1)
        as (w & -> & [-> | ->]).
      * exists "http". auto.
      * exists "https". auto.
  - intros (w & -> & Hw).
    destruct (decide (w = "*")) as [->|Hne]; [apply M_AltL; constructor|].
    apply M_AltR, (fold_right_seq_Match (map RChar (chars "http")) (ROpt (RChar "s"))),
      (schemeTerms_lang "*"); [by left|].
    exists w. split; [done|]. unfold schemeWord. simpl. tauto.
Qed.

(** The split written by hand from the RegExp of the source succeeds exactly
    on the strings that this RegExp accepts. *)
Lemma matchPatternGroups_agrees pattern :
  test splitRegExp pattern = true ↔ is_Some (matchPatternGroups pattern).
Proof.
  change splitRegExp
    with (fold_right RSeq REol
            (RBol :: [RAlt (RChar "*")
                        (fold_right RSeq (ROpt (RChar "s")) (map RChar (chars "http")))]
                  ++ map RChar (chars "://") ++ hostTerms "*" ++ pathTerms None)).
  pose proof (assertionFree_literal (chars "://")) as F2.
  pose proof (assertionFree_hostTerms "*") as F3.
  pose proof (assertionFree_pathTerms None) as F4.
  assert (Forall (λ r, assertionFree r = true)
            [RAlt (RChar "*")
               (fold_right RSeq (ROpt (RChar "s")) (map RChar (chars "http")))]) as F1
    by by repeat constructor.
  rewrite test_anchored by (repeat (apply Forall_app; split); done).
  rewrite MatchAll_app by (repeat (apply Forall_app; split); done).
  split.
  - intros (s1 & r1 & Hu & (scheme & -> & Hs)%MatchAll_single%schemeGroup_lang & H).
    apply MatchAll_app in H as (s2 & r2 & -> & ->%MatchAll_literal & H);
      [|by repeat (apply Forall_app; split)..].
    apply MatchAll_app in H
        as (s3 & s4 & -> & (host & -> & [Hne Hl])%hostTerms_lang
            & (rest & -> & Hrest)%pathTerms_lang); [|done..].
    assert (pattern = scheme +:+ "://" +:+ host +:+ rest) as ->
      by (apply chars_inj; by rewrite !chars_app).
    rewrite matchPatternGroups_complete by done. done.
  - intros [g Hg]. apply matchPatternGroups_inv in Hg as (Hs & -> & Hne & Hl & Hp).
    exists (chars (mscheme g)),
           (chars "://" ++ chars (mhost g) ++ chars (default "" (mpath g))).
    split; [by rewrite !chars_app|].
    split; [apply MatchAll_single, schemeGroup_lang; eauto|].
    apply MatchAll_app; [by repeat (apply Forall_app; split)..|].
    exists (chars "://"), (chars (mhost g) ++ chars (default "" (mpath g))).
    split; [done|]. split; [by apply MatchAll_literal|].
    apply MatchAll_app; [done..|].
    exists (chars (mhost g)), (chars (default "" (mpath g))). split; [done|]. split.
    + apply hostTerms_lang. exists (mhost g). done.
    + apply pathTerms_lang. exists (default "" (mpath g)). split; [done|].
      simpl. destruct (mpath g) as [p|]; simpl; [by right | by left].
Qed.

End SplitFacts.

(** ** The patterns that compile *)

Section StarredHosts.

Lemma lacks_starsFollow dom q : lacks "*" dom = true → starsFollow q dom = true.
Proof.
  revert q. induction dom as [|c dom IH]; intros q; [done|].
  rewrite lacks_cons. intros [Hc Hl]%andb_true_iff. simpl.
  apply negb_true_iff in Hc. rewrite ?(Ascii.eqb_sym "*" c), Hc. by apply IH.
Qed.

(** The escaped domain, read by the RegExp constructor: the run goes on
    exactly when every star has something to repeat. *)
Lemma run_starred dom : ∀ st tail,
  pmode st = MNormal →
  if starsFollow (repeatable st) dom
  then ∃ st', run st (JS.escapeSpecials dom +:+ tail) = run st' tail
              ∧ pmode st' = MNormal ∧ stack st' = stack st
  else run st (JS.escapeSpecials dom +:+ tail) = inl SyntaxErr.
Proof.
  induction dom as [|c dom IH]; intros st tail Hst; [by exists st|].
  rewrite escapeSpecials_cons. cbn [starsFollow].
  destruct (char_cases c) as [(Hm & Hal & Hne) | [-> | (Hm & Hne & Hstep)]].
  - rewrite Hm, Hne.
    change (String "\"%char (String c (JS.escapeSpecials dom)) +:+ tail)
      with (String "\"%char (String c (JS.escapeSpecials dom +:+ tail))).
    destruct st as [m f stk]; cbn [pmode] in Hst; subst m.
    rewrite run_cons.
    change (step (PState MNormal f stk) "\"%char)
      with (@inr parseError _ (PState MEscape f stk)).
    cbv beta iota. rewrite run_cons. unfold step; cbn [pmode cur stack]. rewrite Hal.
    specialize (IH (PState MNormal (pushTerm (RChar c) Atom f) stk) tail eq_refl).
    exact IH.
  - change (JS.mem "*"%char JS.regExpSpecials) with false.
    change (Ascii.eqb "*" "*")%char with true. cbv iota.
    rewrite append_cons, run_cons.
    destruct st as [m [al ts l] stk]; cbn [pmode] in Hst; subst m.
    unfold step, stepNormal, quantify, repeatable; cbn [pmode cur stack lastT terms].
    change (Ascii.eqb "*" "\")%char with false.
    change (Ascii.eqb "*" "(")%char with false.
    change (Ascii.eqb "*" ")")%char with false.
    change (Ascii.eqb "*" "|")%char with false.
    change (Ascii.eqb "*" "*")%char with true.
    cbv iota.
    destruct l; try reflexivity. destruct ts as [|t ts]; [reflexivity|].
    cbn [andb alts].
    exact (IH (PState MNormal (Frame al (RStar t :: ts) Quantified) stk) tail eq_refl).
  - rewrite Hm, Hne, append_cons, run_cons. unfold step. rewrite Hst, Hstep.
    exact (IH (PState MNormal (pushTerm (RChar c) Atom (cur st)) (stack st)) tail eq_refl).
Qed.

(** The RegExp constructor on the source that the compiler builds for a host
    with the prefix [*.]. *)
Lemma RegExp_new_wildcard g dom :
  mscheme g = "*" ∨ mscheme g = "https" ∨ mscheme g = "http" →
  match mpath g with
  | None => True
  | Some p => JS.startsWith p "/" = true ∧ noLineTerminator p = true
  end →
  if starsFollow false dom
  then ∃ re, RegExp_new (finalRegexString g ("(?:[^\/.]+\.)?" +:+ JS.escapeSpecials dom))
             = Normal re
  else RegExp_new (finalRegexString g ("(?:[^\/.]+\.)?" +:+ JS.escapeSpecials dom))
       = Throw SyntaxError.
Proof.
  intros Hs Hp. unfold RegExp_new, parse, finalRegexString, emptyFrame.
  assert (pushes ("^" +:+ schemeRegex (mscheme g) +:+ "://")
            ([RBol] ++ schemeTerms (mscheme g) ++ map RChar (chars "://"))) as Hhead.
  { apply pushes_app; [intros al tms l stk; eexists; reflexivity|].
    apply pushes_app; [by apply schemeRegex_pushes|].
    intros al tms l stk; eexists; reflexivity. }
  assert (pushes (pathRegex (mpath g) +:+ "$") (pathTerms (mpath g) ++ [REol])) as Htail.
  { apply pushes_app; [by apply pathRegex_pushes|].
    intros al tms l stk; eexists; reflexivity. }
  replace ("^" +:+ schemeRegex (mscheme g) +:+ "://"
           +:+ ("(?:[^\/.]+\.)?" +:+ JS.escapeSpecials dom)
           +:+ pathRegex (mpath g) +:+ "$")
    with (("^" +:+ schemeRegex (mscheme g) +:+ "://")
          +:+ ("(?:[^\/.]+\.)?"
               +:+ (JS.escapeSpecials dom +:+ (pathRegex (mpath g) +:+ "$"))))
    by (by rewrite !append_assoc).
  rewrite run_app. destruct (Hhead [] [] NoTerm []) as [l1 ->].
  rewrite run_app.
  set (tms1 := rev _ ++ []).
  change (run (PState MNormal (Frame [] tms1 l1) []) "(?:[^\/.]+\.)?")
    with (@inr parseError _
            (PState MNormal
               (Frame [] (ROpt (RSeq (RPlus (RClass true ["/"; "."]%char)) (RChar ".")) :: tms1)
                  Quantified) [])).
  cbv beta iota.
  pose proof (run_starred dom
                (PState MNormal
                   (Frame [] (ROpt (RSeq (RPlus (RClass true ["/"; "."]%char)) (RChar "."))
                              :: tms1) Quantified) [])
                (pathRegex (mpath g) +:+ "$") eq_refl) as H.
  change (repeatable _) with false in H.
  destruct (starsFollow false dom).
  - destruct H as ([m [al ts l] stk] & -> & Hm & Hstk). cbn [pmode stack] in Hm, Hstk.
    subst m stk. destruct (Htail al ts l []) as [l2 ->].
    unfold finish. cbn [pmode stack]. eauto.
  - by rewrite H.
Qed.

Lemma hostCompiles_cases host :
  hostCompiles host = true →
  hostWildcardOk host = true
  ∨ ∃ dom, host = "*." +:+ dom ∧ starsFollow false dom = true.
Proof.
  unfold hostCompiles, hostWildcardOk.
  destruct (String.eqb host "*"); [by left|]. cbn [orb].
  destruct (afterPrefix "*." host) as [dom|] eqn:Hp; [|by left].
  apply afterPrefix_Some in Hp as ->. intros H. right. by exists dom.
Qed.

End StarredHosts.

(** X3. The patterns that compile. A pattern compiles to a RegExp object
    exactly when it is [<all_urls>] or has the form [scheme://host] followed
    by nothing or by a path that starts with a slash and holds no line
    terminator, where the scheme is a star, [http] or [https], and the host
    is not empty, has no slash, and is the lone star, a host without star,
    or the prefix [*.] followed by a domain in which no star stands first or
    follows a star. So no pattern with another scheme, such as [file] or
    [ftp], and no pattern without host compiles; a star inside the domain
    after the prefix [*.] does compile, and repeats the character before
    it. *)
Theorem valid_pattern_shape (pattern : string) :
  validPattern pattern = true ↔
  pattern = "<all_urls>"
  ∨ ∃ scheme host rest,
      pattern = scheme +:+ "://" +:+ host +:+ rest
      ∧ (scheme = "*" ∨ scheme = "https" ∨ scheme = "http")
      ∧ host ≠ "" ∧ lacks "/" host = true
      ∧ hostCompiles host = true
      ∧ (rest = "" ∨ JS.startsWith rest "/" = true ∧ noLineTerminator rest = true).
Proof.
  split.
  - unfold validPattern, matchPatternToRegExp.
    destruct (String.eqb_spec pattern "<all_urls>") as [->|_]; [by left|].
    destruct (matchPatternGroups pattern) as [g|] eqn:Hg; [|by repeat case_match].
    apply matchPatternGroups_inv in Hg as (Hs & Hp & Hne & Hl & Hpath).
    destruct (hostRegex (mhost g)) as [why|src] eqn:Hh; [done|]. intros Hv. right.
    exists (mscheme g), (mhost g), (default "" (mpath g)).
    repeat (split; [done|]). split.
    + unfold hostCompiles. apply hostRegex_inr in Hh as Hshape.
      destruct (String.eqb_spec (mhost g) "*") as [|Hstar]; [done|]. cbn [orb].
      destruct (afterPrefix "*." (mhost g)) as [dom|] eqn:Hpre.
      * apply afterPrefix_Some in Hpre. rewrite Hpre, hostRegex_wildcard in Hh.
        injection Hh as <-.
        pose proof (RegExp_new_wildcard g dom Hs Hpath) as Hre.
        destruct (starsFollow false dom); [done|]. by rewrite Hre in Hv.
      * destruct Hshape as [? | [Hw | ?]]; [done | | done].
        apply startsWith_afterPrefix in Hw as [r Hr].
        apply afterPrefix_Some in Hr. congruence.
    + destruct (mpath g) as [p|]; simpl; [by right | by left].
  - intros [-> | (scheme & host & rest & -> & Hs & Hne & Hl & Hc & Hr)]; [reflexivity|].
    pose proof (matchPatternGroups_complete scheme host rest Hs Hne Hl Hr) as Hg.
    apply hostCompiles_cases in Hc as [Hok | (dom & -> & Hdom)].
    + unfold validPattern. by rewrite (matchPatternToRegExp_compiled _ _ Hg Hok).
    + unfold validPattern, matchPatternToRegExp.
      rewrite (matchPatternGroups_not_all_urls _ _ Hg), Hg. cbn [mhost].
      rewrite hostRegex_wildcard.
      pose proof (RegExp_new_wildcard
                    (PatternGroups scheme ("*." +:+ dom)
                       (if String.eqb rest "" then None else Some rest)) dom Hs) as Hre.
      rewrite Hdom in Hre. destruct Hre as [re ->]; [|done].
      cbn [mpath]. destruct Hr as [-> | Hr]; [done|].
      destruct (String.eqb_spec rest "") as [->|]; [done|done].
Qed.

(** A star after the prefix [*.] is a repetition, not a wildcard and not a
    literal star. *)
Example starred_host_examples :
  validPattern "*://*.a*b/" = true
  ∧ validPattern "*://*.*/*" = false
  ∧ validPattern "*://*.a**/" = false
  ∧ validPattern "*://a*b/" = false
  ∧ anyPatternMatches ["*://*.a*b/"] "http://aab/" = Normal true
  ∧ anyPatternMatches ["*://*.a*b/"] "http://b/" = Normal true
  ∧ anyPatternMatches ["*://*.a*b/"] "http://a*b/" = Normal false
  ∧ anyPatternMatches ["*://*.a*b/"] "http://axb/" = Normal false.
Proof. repeat (split; [vm_compute; reflexivity|]). vm_compute. reflexivity. Qed.

(** ** When a URL matches *)

Lemma anyPatternMatches_iff patterns urlToMatch :
  anyPatternMatches patterns urlToMatch = Normal true ↔
  ∃ pattern re, pattern ∈ patterns
                ∧ matchPatternToRegExp pattern = Normal (Matcher re)
                ∧ test re urlToMatch = true.
Proof.
  induction patterns as [|p ps IH]; simpl.
  - split; [done|]. by intros (pattern & re & ?%elem_of_nil & _).
  - destruct (matchPatternToRegExp_returns p) as [[re|why] Hp]; rewrite Hp; simpl.
    + destruct (test re urlToMatch) eqn:Ht.
      * split; [|done]. intros _. exists p, re. split; [left|]; done.
      * rewrite IH. split.
        -- intros (q & re' & Hq & H). exists q, re'. split; [by right|done].
        -- intros (q & re' & [->|Hq]%elem_of_cons & Hc & Ht'); [|by eauto].
           rewrite Hp in Hc. injection Hc as <-. congruence.
    + rewrite IH. split.
      * intros (q & re' & Hq & H). exists q, re'. split; [by right|done].
      * intros (q & re' & [->|Hq]%elem_of_cons & Hc & Ht'); [|by eauto].
        rewrite Hp in Hc. discriminate.
Qed.

(** X4. [urlMatches] never throws, and it returns [true] exactly when the
    string parses to a URL with protocol [http:] or [https:] and some pattern
    of the list compiles to a RegExp object that accepts the origin, the
    path name and the query of that URL (the fragment plays no part). So a
    pattern that does not compile is skipped, and neither the order nor the
    repetition of the patterns matters. *)
Theorem urlMatches_iff (URL_new : string → completion URL)
    (patterns : list string) (urlString : string) :
  (∃ b, urlMatches URL_new patterns urlString = Normal b)
  ∧ (urlMatches URL_new patterns urlString = Normal true ↔
     ∃ u, URL_new urlString = Normal u
          ∧ (protocol u = "http:" ∨ protocol u = "https:")
          ∧ ∃ pattern re,
              pattern ∈ patterns
              ∧ matchPatternToRegExp pattern = Normal (Matcher re)
              ∧ test re (origin u +:+ pathname u +:+ search u) = true).
Proof.
  split; [apply urlMatches_total|].
  unfold urlMatches, parseTarget.
  destruct (URL_new urlString) as [u|e]; simpl.
  - destruct (String.eqb_spec (protocol u) "http:") as [E1|N1]; simpl.
    + rewrite anyPatternMatches_iff. split; [by eauto 6|].
      by intros (u' & [= <-] & _ & H).
    + destruct (String.eqb_spec (protocol u) "https:") as [E2|N2]; simpl.
      * rewrite anyPatternMatches_iff. split; [by eauto 6|].
        by intros (u' & [= <-] & _ & H).
      * split; [done|]. by intros (u' & [= <-] & [?|?] & _).
  - split; [done|]. by intros (u' & ? & _).
Qed.

(** ** The metadata block, directive by directive *)

Section DirectiveFacts.

Lemma directiveValues_cons key line lines :
  directiveValues key (line :: lines)
  = directiveValues key [line] ++ directiveValues key lines.
Proof.
  unfold directiveValues. simpl. destruct (directiveOf line) as [[k v]|]; [|done].
  by destruct (String.eqb k key).
Qed.

Lemma directiveValues_one key line :
  directiveValues key [line]
  = match directiveOf line with
    | Some (k, v) => if String.eqb k key then [v] else []
    | None => []
    end.
Proof.
  unfold directiveValues. simpl. destruct (directiveOf line) as [[k v]|]; [|done].
  by destruct (String.eqb k key).
Qed.

Lemma addDirective_spec m line :
  clean m →
  if inheritedLine line then addDirective m line = Throw TypeError
  else ∃ m', addDirective m line = Normal m' ∧ clean m'
             ∧ ∀ key, default [] (m' !! key)
                      = default [] (m !! key) ++ directiveValues key [line].
Proof.
  intros Hc. unfold inheritedLine, addDirective.
  pose proof (λ key, directiveValues_one key line) as Hone. unfold directiveOf in *.
  destruct (matchDirective (JS.trim line)) as [[k v]|].
  - destruct (inherited k) eqn:Hi; [by rewrite (Hc k Hi)|].
    assert (∀ values, default [] (m !! k) = values →
              clean (<[k := values ++ [JS.trim v]]> m)
              ∧ ∀ key, default [] (<[k := values ++ [JS.trim v]]> m !! key)
                       = default [] (m !! key) ++ directiveValues key [line]) as Hins.
    { intros values Hk. split.
      - intros key Hkey. rewrite lookup_insert_ne; [by apply Hc|]. congruence.
      - intros key. rewrite Hone. destruct (String.eqb_spec k key) as [<-|Hne].
        + by rewrite lookup_insert_eq, Hk.
        + rewrite lookup_insert_ne by done. by rewrite app_nil_r. }
    destruct (m !! k) as [values|] eqn:Hk.
    + eexists. split; [done|]. by apply Hins.
    + eexists. split; [done|]. by apply (Hins []).
  - exists m. split; [done|]. split; [done|]. intros key.
    by rewrite Hone, app_nil_r.
Qed.

Lemma addDirectives_spec lines : ∀ m,
  clean m →
  if existsb inheritedLine lines then addDirectives m lines = Throw TypeError
  else ∃ m', addDirectives m lines = Normal m' ∧ clean m'
             ∧ ∀ key, default [] (m' !! key)
                      = default [] (m !! key) ++ directiveValues key lines.
Proof.
  induction lines as [|line lines IH]; intros m Hc.
  - exists m. split; [done|]. split; [done|]. intros key. by rewrite app_nil_r.
  - cbn [existsb addDirectives]. pose proof (addDirective_spec m line Hc) as H1.
    destruct (inheritedLine line); [by rewrite H1|].
    destruct H1 as (m1 & -> & Hc1 & Hv1).
    change (Normal m1 ≫= ?k) with (k m1). cbv beta.
    pose proof (IH m1 Hc1) as H2. cbn [orb].
    destruct (existsb inheritedLine lines); [done|].
    destruct H2 as (m2 & -> & Hc2 & Hv2).
    exists m2. split; [done|]. split; [done|]. intros key.
    by rewrite (directiveValues_cons key line lines), Hv2, Hv1, app_assoc.
Qed.

Lemma parseMetadata_spec content block :
  metaBlock content = Some block →
  if existsb inheritedLine (blockLines block)
  then parseMetadata content = Throw TypeError
  else ∃ md, parseMetadata content = Normal md
             ∧ md_match md = directiveValues "match" (blockLines block)
             ∧ md_runAt md = runAtOf (directiveValues "run-at" (blockLines block))
             ∧ md_name md = match directiveValues "name" (blockLines block) with
                            | [] => ["Unnamed Script"]
                            | names => names
                            end
             ∧ ∀ key, key ≠ "match" → key ≠ "runAt" → key ≠ "name" →
                      default [] (md_directives md !! key)
                      = directiveValues key (blockLines block).
Proof.
  intros Hb. unfold parseMetadata. rewrite Hb. fold (blockLines block).
  assert (clean ∅) as Hc by (intros key _; apply lookup_empty).
  pose proof (addDirectives_spec (blockLines block) ∅ Hc) as H.
  destruct (existsb inheritedLine (blockLines block)); [by rewrite H|].
  destruct H as (m & -> & _ & Hv). simpl.
  assert (∀ key, default [] (m !! key) = directiveValues key (blockLines block)) as Hv'.
  { intros key. by rewrite Hv, lookup_empty. }
  eexists. split; [done|]. cbn [md_match md_runAt md_name md_directives].
  split; [apply Hv'|]. split; [|split].
  - rewrite <-(Hv' "run-at"). destruct (m !! "run-at") as [[|first rest]|]; try done.
    simpl. destruct (String.eqb_spec (JS.toLowerCase first) "") as [->|]; done.
  - rewrite <-(Hv' "name"). by destruct (m !! "name") as [[|first rest]|].
  - intros key H1 H2 H3. by rewrite !lookup_delete_ne.
Qed.

End DirectiveFacts.

(** X5. For a script with a metadata block none of whose directives is named
    like a property of [Object.prototype], [parseMetadata] returns normally,
    and what it returns is read off the lines of the block: the [@match]
    values as the match list, the first [@run-at] value in lower case when
    it is one of the three moments and [document-start] otherwise, the
    [@name] values, or [Unnamed Script] when there is none, and for every
    other key except [runAt] the values of that directive in the order of
    the lines. The values of a directive [@runAt] are not returned: the
    property of that name holds the run-at. *)
Theorem parseMetadata_collects (content block : string) :
  metaBlock content = Some block →
  existsb inheritedLine (blockLines block) = false →
  ∃ md, parseMetadata content = Normal md
        ∧ md_match md = directiveValues "match" (blockLines block)
        ∧ md_runAt md = runAtOf (directiveValues "run-at" (blockLines block))
        ∧ md_name md = match directiveValues "name" (blockLines block) with
                       | [] => ["Unnamed Script"]
                       | names => names
                       end
        ∧ ∀ key, key ≠ "match" → key ≠ "runAt" → key ≠ "name" →
                 default [] (md_directives md !! key)
                 = directiveValues key (blockLines block).
Proof.
  intros Hb Hi. pose proof (parseMetadata_spec content block Hb) as H.
  by rewrite Hi in H.
Qed.

(** X6. A directive named like a property of [Object.prototype], such as
    [@constructor] or [@toString], makes [parseMetadata] throw a TypeError,
    whatever else the block holds; the catalog then leaves the script out. *)
Theorem inherited_directive_drops_script (content block : string) :
  metaBlock content = Some block →
  existsb inheritedLine (blockLines block) = true →
  parseMetadata content = Throw TypeError
  ∧ ∀ fs directory file,
      readFile fs (path_join fs directory file) = Some content →
      loadScript fs directory file = None.
Proof.
  intros Hb Hi. pose proof (parseMetadata_spec content block Hb) as H.
  rewrite Hi in H. split; [done|].
  intros fs directory file Hread. unfold loadScript.
  destruct (negb _); [done|]. by rewrite Hread, H.
Qed.

Lemma parseMetadata_collects_witness :
  metaBlock scriptA = Some scriptABlock
  ∧ existsb inheritedLine (blockLines scriptABlock) = false
  ∧ ∃ md, parseMetadata scriptA = Normal md
          ∧ md_match md = directiveValues "match" (blockLines scriptABlock)
          ∧ md_runAt md = runAtOf (directiveValues "run-at" (blockLines scriptABlock))
          ∧ md_name md = match directiveValues "name" (blockLines scriptABlock) with
                         | [] => ["Unnamed Script"]
                         | names => names
                         end
          ∧ ∀ key, key ≠ "match" → key ≠ "runAt" → key ≠ "name" →
                   default [] (md_directives md !! key)
                   = directiveValues key (blockLines scriptABlock).
Proof.
  split; [vm_compute; reflexivity|]. split; [vm_compute; reflexivity|].
  apply (parseMetadata_collects scriptA scriptABlock); vm_compute; reflexivity.
Defined.

Lemma inherited_directive_drops_script_witness :
  metaBlock scriptF = Some scriptFBlock
  ∧ existsb inheritedLine (blockLines scriptFBlock) = true
  ∧ parseMetadata scriptF = Throw TypeError
  ∧ ∀ fs directory file,
      readFile fs (path_join fs directory file) = Some scriptF →
      loadScript fs directory file = None.
Proof.
  split; [vm_compute; reflexivity|]. split; [vm_compute; reflexivity|].
  apply (inherited_directive_drops_script scriptF scriptFBlock); vm_compute; reflexivity.
Defined.

(** ** Scripts without a metadata block *)

Section BlockFacts.

Lemma includes_suffix x y p :
  JS.includes y p = true → JS.includes (x +:+ y) p = true.
Proof.
  intros H. induction x as [|c x IH]; [done|].
  rewrite append_cons. cbn [JS.includes]. rewrite IH. apply orb_true_r.
Qed.

Lemma includes_at x p y : JS.includes (x +:+ p +:+ y) p = true.
Proof.
  apply includes_suffix.
  assert (JS.startsWith (p +:+ y) p = true) as H
    by (apply startsWith_afterPrefix; eauto).
  destruct (p +:+ y); cbn [JS.includes]; by rewrite H.
Qed.

Lemma trimStart_suffix r : ∃ w, r = w +:+ JS.trimStart r.
Proof.
  induction r as [|c r [w IH]]; [by exists ""|]. simpl.
  destruct (JS.isWhiteSpace c); [|by exists ""].
  exists (String c w). by rewrite append_cons, <-IH.
Qed.

Lemma matchMarker_Some marker s rest :
  matchMarker marker s = Some rest → ∃ pre, s = pre +:+ marker +:+ rest.
Proof.
  unfold matchMarker. destruct (afterPrefix "//" s) as [r|] eqn:Hr; [|done].
  apply afterPrefix_Some in Hr as ->. intros Hm%afterPrefix_Some.
  destruct (trimStart_suffix r) as [w Hw]. exists ("//" +:+ w).
  by rewrite append_assoc, <-Hm, <-Hw.
Qed.

Lemma findMarker_Some marker s : ∀ before rest,
  findMarker marker s = Some (before, rest) → ∃ pre, s = pre +:+ marker +:+ rest.
Proof.
  induction s as [|c s IH]; intros before rest; cbn [findMarker].
  - destruct (matchMarker marker "") as [r|] eqn:Hm; [|done].
    intros [= <- <-]. by apply matchMarker_Some.
  - destruct (matchMarker marker (String c s)) as [r|] eqn:Hm.
    + intros [= <- <-]. by apply matchMarker_Some.
    + destruct (findMarker marker s) as [[b r]|] eqn:Hf; [|done].
      intros [= <- <-]. destruct (IH b r eq_refl) as [pre ->].
      by exists (String c pre).
Qed.

Lemma metaBlock_includes content block :
  metaBlock content = Some block →
  JS.includes content "==UserScript==" = true
  ∧ JS.includes content "==/UserScript==" = true.
Proof.
  unfold metaBlock.
  destruct (findMarker "==UserScript==" content) as [[b1 afterOpen]|] eqn:H1; [|done].
  destruct (findMarker "==/UserScript==" afterOpen) as [[b2 r2]|] eqn:H2; [|done].
  intros _. apply findMarker_Some in H1 as [pre1 ->].
  apply findMarker_Some in H2 as [pre2 ->]. split; [apply includes_at|].
  replace (pre1 +:+ "==UserScript==" +:+ pre2 +:+ "==/UserScript==" +:+ r2)
    with ((pre1 +:+ "==UserScript==" +:+ pre2) +:+ "==/UserScript==" +:+ r2)
    by by rewrite !append_assoc.
  apply includes_at.
Qed.

End BlockFacts.

(** X7. A file that lacks the text of the opening marker or of the closing
    marker of a metadata block has no block: [parseMetadata] returns the
    default record with an empty match list, and the catalog leaves the
    file out, whatever its name and its other contents. *)
Theorem script_without_block_is_left_out (content : string) :
  JS.includes content "==UserScript==" = false
  ∨ JS.includes content "==/UserScript==" = false →
  parseMetadata content = Normal (Metadata [] "document-start" ["Unnamed Script"] ∅)
  ∧ ∀ fs directory file,
      readFile fs (path_join fs directory file) = Some content →
      loadScript fs directory file = None.
Proof.
  intros H.
  assert (metaBlock content = None) as Hb.
  { destruct (metaBlock content) as [block|] eqn:Hb; [|done].
    apply metaBlock_includes in Hb as [H1 H2]. destruct H; congruence. }
  assert (parseMetadata content
          = Normal (Metadata [] "document-start" ["Unnamed Script"] ∅)) as Hp
    by (unfold parseMetadata; by rewrite Hb).
  split; [done|]. intros fs directory file Hread. unfold loadScript.
  destruct (negb _); [done|]. by rewrite Hread, Hp.
Qed.

Lemma script_without_block_is_left_out_witness :
  (JS.includes "// ==UserScript==
// @match *://*/*
console.log(1);" "==UserScript==" = false
   ∨ JS.includes "// ==UserScript==
// @match *://*/*
console.log(1);" "==/UserScript==" = false)
  ∧ parseMetadata "// ==UserScript==
// @match *://*/*
console.log(1);" = Normal (Metadata [] "document-start" ["Unnamed Script"] ∅)
  ∧ ∀ fs directory file,
      readFile fs (path_join fs directory file) = Some "// ==UserScript==
// @match *://*/*
console.log(1);" →
      loadScript fs directory file = None.
Proof.
  split; [right; vm_compute; reflexivity|].
  apply (script_without_block_is_left_out "// ==UserScript==
// @match *://*/*
console.log(1);").
  right. vm_compute. reflexivity.
Defined.

(** ** The catalog and the directory listing *)

Section CatalogFacts.

Lemma omap_fmap_kept {A B C} (f : A → option B) (g : B → C) (h : A → C) l :
  (∀ x y, f x = Some y → g y = h x) →
  ∃ kept, sublist kept l ∧ g <$> omap f l = h <$> kept.
Proof.
  intros H. induction l as [|x l (kept & Hsub & IH)].
  - exists []. split; [constructor | done].
  - change (omap f (x :: l))
      with (match f x with Some y => y :: omap f l | None => omap f l end).
    destruct (f x) as [y|] eqn:Hy.
    + exists (x :: kept). split; [by constructor|].
      rewrite !fmap_cons. by rewrite (H x y Hy), IH.
    + exists kept. split; [by constructor | done].
Qed.

Lemma loadScript_name fs directory file s :
  loadScript fs directory file = Some s →
  JS.endsWith file ".user.js" = true ∧ name s ≠ "".
Proof.
  unfold loadScript. destruct (JS.endsWith file ".user.js") eqn:He; [|done].
  assert (file ≠ "") as Hf by (by intros ->).
  simpl. destruct (readFile fs _) as [c|]; [|done].
  destruct (parseMetadata c) as [md|e]; [|done].
  destruct (md_match md) as [|p ps]; [done|].
  intros [= <-]. split; [done|]. simpl. unfold path_basename.
  destruct (md_name md) as [|first rest]; [done|].
  by destruct (String.eqb_spec first "").
Qed.

End CatalogFacts.

(** X8. When the directory can be listed, [loadUserscripts] returns a
    catalog that follows the listing: the paths of the records are what
    [path.join] makes of the directory and of some of the listed names, in
    the order of the listing, and a listed name gives at most one record.
    Every record comes from a listed file whose name ends in [.user.js],
    holds the text of that file, has a name that is not empty, a run-at that
    is one of the three moments, and at least one match entry. *)
Theorem catalog_follows_listing (fs : fileSystem) (directory : string)
    (files : list string) :
  readdir fs directory = inr files →
  ∃ catalog kept,
    loadUserscripts fs directory = Normal catalog
    ∧ sublist kept files
    ∧ path <$> catalog = path_join fs directory <$> kept
    ∧ ∀ s, s ∈ catalog →
        ∃ file, file ∈ files
                ∧ JS.endsWith file ".user.js" = true
                ∧ path s = path_join fs directory file
                ∧ readFile fs (path s) = Some (content s)
                ∧ name s ≠ ""
                ∧ isValidRunAt (runAt s) = true
                ∧ matchPatterns s ≠ [].
Proof.
  intros Hdir. unfold loadUserscripts. rewrite Hdir.
  destruct (omap_fmap_kept (loadScript fs directory) path (path_join fs directory) files)
    as (kept & Hsub & Hpaths).
  { by intros file s (Hp & _)%loadScript_spec. }
  eexists _, kept. split; [done|]. split; [done|]. split; [done|].
  intros s (file & Hfile & Hs)%list_elem_of_omap. exists file.
  pose proof (loadScript_name _ _ _ _ Hs) as [Hext Hname].
  pose proof (loadScript_spec _ _ _ _ Hs) as (Hp & Hread & md & Hmd & Hm & Hne & Hr).
  repeat (split; [done|]). split; [|by rewrite Hm].
  rewrite Hr. by eapply parseMetadata_runAt.
Qed.

Lemma catalog_follows_listing_witness :
  readdir exampleFs "scripts"
  = inr ["a.user.js"; "b.user.js"; "c.user.js"; "d.user.js"; "e.user.js"; "notes.txt"]
  ∧ ∃ catalog kept,
      loadUserscripts exampleFs "scripts" = Normal catalog
      ∧ sublist kept ["a.user.js"; "b.user.js"; "c.user.js"; "d.user.js"; "e.user.js";
                      "notes.txt"]
      ∧ path <$> catalog = path_join exampleFs "scripts" <$> kept
      ∧ ∀ s, s ∈ catalog →
          ∃ file, file ∈ ["a.user.js"; "b.user.js"; "c.user.js"; "d.user.js";
                          "e.user.js"; "notes.txt"]
                  ∧ JS.endsWith file ".user.js" = true
                  ∧ path s = path_join exampleFs "scripts" file
                  ∧ readFile exampleFs (path s) = Some (content s)
                  ∧ name s ≠ ""
                  ∧ isValidRunAt (runAt s) = true
                  ∧ matchPatterns s ≠ [].
Proof.
  split; [reflexivity|].
  apply (catalog_follows_listing exampleFs "scripts"). reflexivity.
Defined.

(** ** Targets that are not web pages *)

Lemma urlMatches_off_http URL_new patterns urlString :
  isHttpTarget URL_new urlString = false →
  urlMatches URL_new patterns urlString = Normal false.
Proof.
  unfold isHttpTarget, urlMatches, parseTarget.
  destruct (URL_new urlString) as [u|e]; simpl; [|done]. by intros ->.
Qed.

(** X9. For a target that [new URL] rejects or whose protocol is neither
    [http:] nor [https:], the injection plan is empty in its three phases,
    whatever the catalog: no script is scheduled, and the loop does not
    throw. *)
Theorem no_script_off_http (URL_new : string → completion URL)
    (catalog : list scriptRecord) (targetUrl : string) :
  isHttpTarget URL_new targetUrl = false →
  scriptsToInject URL_new catalog targetUrl = Normal emptyPlan.
Proof.
  intros Hoff. unfold scriptsToInject. generalize emptyPlan.
  induction catalog as [|s catalog IH]; intros plan; simpl; [done|].
  unfold schedule. rewrite urlMatches_off_http by done. simpl. apply IH.
Qed.

Lemma no_script_off_http_witness :
  isHttpTarget URL_examples "ftp://a.b/" = false
  ∧ scriptsToInject URL_examples exampleCatalog "ftp://a.b/" = Normal emptyPlan.
Proof.
  split; [reflexivity|].
  apply (no_script_off_http URL_examples exampleCatalog "ftp://a.b/"). reflexivity.
Defined.

(** ** The storage functions as a finite map *)

Section StorageFacts.




End StorageFacts.



(** The map of the example: the key [b] is left, with the value [3]. *)
Example storage_example :
  GM_getValue true (VString "b") VNull
    (runCalls [CallSet (VString "a") (VNumber 1); CallSet (VString "") (VNumber 2);
               CallSet (VString "b") (VNumber 3); CallDelete (VString "a");
               CallDelete (VNumber 7)] emptyStorage) = Normal (VNumber 3)
  ∧ GM_getValue true (VString "a") VNull
      (runCalls [CallSet (VString "a") (VNumber 1); CallSet (VString "") (VNumber 2);
                 CallSet (VString "b") (VNumber 3); CallDelete (VString "a");
                 CallDelete (VNumber 7)] emptyStorage) = Normal VNull.
Proof. split; vm_compute; reflexivity. Qed.


(** A value [undefined] is stored and listed, and left out of the text. *)
Example undefined_is_not_written :
  let st' := runCalls [CallSet (VString "u") VUndefined] emptyStorage in
  GM_listValues true st' = Normal ["u"]
  ∧ last (written st') = Some ∅.
Proof. split; vm_compute; reflexivity. Qed.

(** ** The events of the host, and the callbacks of one request *)

Section RequestFacts.

Variable toBase64 : string → string.
Variable platformMessage : exn → string.

Lemma readBody_type r effective b :
  readBody toBase64 r effective = Normal b →
  hasName b.2 knownResponseTypes = true
  ∧ (b.2 = "text" ↔ ∃ t, b.1 = BString t ∧ r_text r = Normal t
                         ∧ effective ≠ "json" ∧ effective ≠ "blob"
                         ∧ effective ≠ "arraybuffer").
Proof.
  unfold readBody.
  destruct (String.eqb_spec effective "json") as [->|Hj].
  { destruct (r_json r); simpl; [|done]. intros [= <-]. simpl.
    split; [done|]. split; [done|]. by intros (t & _ & _ & ? & _). }
  destruct (String.eqb_spec effective "blob") as [->|Hb]; simpl.
  { destruct (r_arrayBuffer r); simpl; [|done]. intros [= <-]. simpl.
    split; [done|]. split; [done|]. by intros (t & _ & _ & _ & ? & _). }
  destruct (String.eqb_spec effective "arraybuffer") as [->|Ha]; simpl.
  { destruct (r_arrayBuffer r); simpl; [|done]. intros [= <-]. simpl.
    split; [done|]. split; [done|]. by intros (t & _ & _ & _ & _ & ?). }
  destruct (r_text r) as [t|]; simpl; [|done]. intros [= <-]. simpl.
  split; [done|]. split; [|done]. intros _. by exists t.
Qed.

Lemma bridge_cases d latency settled :
  GM_xmlhttpRequest_bridge toBase64 platformMessage d latency settled
  = if negb (d_timeout d =? 0)%Z && (timerDelay (d_timeout d) <=? latency)%Z
    then [("ontimeout", failure platformMessage "Timeout" (ErrorMsg "Request timed out"));
          ("onabort", failure platformMessage "Aborted" AbortError)]
    else onSettled toBase64 platformMessage d settled.
Proof.
  unfold GM_xmlhttpRequest_bridge, issue.
  destruct (d_timeout d =? 0)%Z; [reflexivity|].
  unfold turn at 2. cbn [timeoutId pendingFetch negb andb].
  destruct (timerDelay (d_timeout d) <=? latency)%Z; reflexivity.
Qed.

Lemma onSettled_event d settled :
  ∃ name data,
    onSettled toBase64 platformMessage d settled = [(name, data)]
    ∧ (name = "onload" ∨ name = "onerror" ∨ name = "onabort")
    ∧ (name = "onload" ↔
       ∃ r b, settled = Normal r
              ∧ readBody toBase64 r
                  (effectiveResponseType (d_responseType d) (d_overrideMimeType d)
                     (r_contentType r)) = Normal b)
    ∧ (name = "onabort" ↔ settled = Throw AbortError)
    ∧ (name = "onload" →
       ∃ r t, settled = Normal r
              ∧ status data = r_status r ∧ statusText data = r_statusText r
              ∧ _responseType data = Some t
              ∧ hasName t knownResponseTypes = true
              ∧ (is_Some (responseText data) ↔ t = "text"))
    ∧ (∀ e, settled = Throw e →
            status data = 0%Z ∧ error data = Some (messageOf platformMessage e))
    ∧ (∀ r e, settled = Normal r →
              readBody toBase64 r
                (effectiveResponseType (d_responseType d) (d_overrideMimeType d)
                   (r_contentType r)) = Throw e →
              status data = 0%Z
              ∧ error data
                = Some ("Failed to read response body as "
                        +:+ effectiveResponseType (d_responseType d)
                              (d_overrideMimeType d) (r_contentType r)
                        +:+ ": " +:+ messageOf platformMessage e)).
Proof.
  unfold onSettled. destruct settled as [r|e]; simpl.
  - destruct (readBody toBase64 r _) as [b|e] eqn:Hb; simpl.
    + eexists _, _. split; [done|]. split; [by left|].
      split; [split; [by eauto | done]|]. split; [done|].
      split; [|split; [done|intros r' e [= <-] Hb'; congruence]].
      intros _. exists r, b.2. simpl. repeat (split; [done|]).
      apply readBody_type in Hb as [Hk Ht]. split; [done|].
      destruct (String.eqb_spec b.2 "text") as [E|N].
      * split; [done|]. intros _. apply Ht in E as (t & -> & _). done.
      * split; [by intros [? ?] | done].
    + eexists _, _. split; [done|]. split; [by right; left|].
      split; [split; [done|]; intros (r' & b & [= <-] & Hb'); congruence|].
      split; [done|]. split; [done|]. split; [done|].
      intros r' e' [= <-] Hb'. rewrite Hb in Hb'. injection Hb' as <-. done.
  - destruct e; eexists _, _; (split; [done|]);
      (split; [by auto|]); (split; [split; [done|]; by intros (r' & b & ? & _)|]);
      (split; [done|]); (split; [done|]);
      (split; [by intros e' [= <-] | done]).
Qed.

End RequestFacts.

(** X12. What the host sends for one call of [GM_xmlhttpRequest]. When the
    timer of a non-zero [timeout] is due before the network call settles,
    the host sends [ontimeout] and then [onabort], the latter with the
    message of the abort error of the platform. When there is no timer, or
    the network call settles before the timer is due, the host sends exactly
    one event, one of [onload], [onerror] and [onabort]: it is [onload]
    exactly when the network call resolved and the body could be read as the
    effective response type, so that a response whose body cannot be read is
    reported as an error whatever its status; it is [onabort] exactly when
    the network call was aborted. An [onload] carries the status of the
    response and one of the four response types, and [responseText] exactly
    when that type is [text]; the event of a rejected network call carries
    the message of the rejection, and the event of an unreadable body a
    message that names the effective response type and quotes the message of
    the failure. *)
Theorem bridge_events (toBase64 : string → string) (platformMessage : exn → string)
    (d : details) (latency : Z) (settled : completion fetchResponse) :
  let events := GM_xmlhttpRequest_bridge toBase64 platformMessage d latency settled in
  (d_timeout d ≠ 0%Z ∧ (timerDelay (d_timeout d) < latency)%Z →
   events = [("ontimeout", ResponseData 0 "Timeout" BNone None "" None
                             (Some "Request timed out"));
             ("onabort", ResponseData 0 "Aborted" BNone None "" None
                           (Some (platformMessage AbortError)))])
  ∧ (d_timeout d = 0%Z ∨ (latency < timerDelay (d_timeout d))%Z →
     ∃ name data,
       events = [(name, data)]
       ∧ (name = "onload" ∨ name = "onerror" ∨ name = "onabort")
       ∧ (name = "onload" ↔
          ∃ r b, settled = Normal r
                 ∧ readBody toBase64 r
                     (effectiveResponseType (d_responseType d) (d_overrideMimeType d)
                        (r_contentType r)) = Normal b)
       ∧ (name = "onabort" ↔ settled = Throw AbortError)
       ∧ (name = "onload" →
          ∃ r t, settled = Normal r
                 ∧ status data = r_status r ∧ statusText data = r_statusText r
                 ∧ _responseType data = Some t
                 ∧ hasName t knownResponseTypes = true
                 ∧ (is_Some (responseText data) ↔ t = "text"))
       ∧ (∀ e, settled = Throw e →
               status data = 0%Z ∧ error data = Some (messageOf platformMessage e))
       ∧ (∀ r e, settled = Normal r →
                 readBody toBase64 r
                   (effectiveResponseType (d_responseType d) (d_overrideMimeType d)
                      (r_contentType r)) = Throw e →
                 status data = 0%Z
                 ∧ error data
                   = Some ("Failed to read response body as "
                           +:+ effectiveResponseType (d_responseType d)
                                 (d_overrideMimeType d) (r_contentType r)
                           +:+ ": " +:+ messageOf platformMessage e))).
Proof.
  intros events. unfold events. rewrite bridge_cases. split.
  - intros [Hne Hlt].
    destruct (Z.eqb_spec (d_timeout d) 0) as [|_]; [done|].
    destruct (Z.leb_spec (timerDelay (d_timeout d)) latency); [done|lia].
  - intros H.
    assert (negb (d_timeout d =? 0)%Z && (timerDelay (d_timeout d) <=? latency)%Z = false)
      as ->; [|apply onSettled_event].
    destruct H as [-> | Hlt]; [done|].
    destruct (Z.leb_spec (timerDelay (d_timeout d)) latency); [lia|].
    apply andb_false_r.
Qed.

Section CallbackFacts.

Variable atob : string → completion string.

Lemma callThrows_refused d :
  callThrows d = false → truthy (d_url d) = false →
  (if hasName "onerror" (d_handlers d) then d_onerrorThrows d else None) = None.
Proof.
  unfold callThrows. intros H Hurl. rewrite Hurl in H. simpl in H.
  destruct (hasName "onerror" (d_handlers d)); [|done].
  by destruct (d_onerrorThrows d).
Qed.

Lemma misfires_isBridgeError requestId a :
  misfires requestId a = false → isBridgeError requestId a = false.
Proof. by destruct a. Qed.

Lemma perform_tracked a requestId pg :
  misfires requestId a = false →
  tracked requestId pg → tracked requestId (perform atob a pg).
Proof.
  intros Hmis
    [(Hlt & Hnone & Hev) | (Hle & before & closing & Hev & Hb & Hlen & Hpend)].
  - (* not issued yet *)
    destruct a as [d|other|other eventName data|other d].
    + destruct (decide (S (requestIdCounter pg) = requestId)) as [E|Hne].
      * right. simpl in Hmis. simpl. unfold GM_xmlhttpRequest, eventsOf in *.
        destruct (negb (truthy (d_url d))) eqn:Hurl; simpl.
        -- apply negb_true_iff in Hurl. rewrite (callThrows_refused d Hmis Hurl).
           simpl. split; [lia|].
           rewrite filter_callIfFunction, Hev, decide_True by done.
           exists [], (if hasName "onerror" (d_handlers d)
                       then [(S (requestIdCounter pg), "onerror")] else []).
           split; [done|]. split; [done|]. split; [destruct (hasName _ _); simpl; lia|].
           rewrite E, lookup_delete_eq. by intros [? ?].
        -- split; [lia|]. exists [], []. rewrite Hev. repeat split; try done. simpl. lia.
      * destruct (perform_foreign atob (Call d) requestId pg Hne) as (_ & Hm & He).
        left. rewrite Hm, He. split; [|done]. simpl.
        unfold GM_xmlhttpRequest. repeat case_match; simpl; lia.
    + left. simpl. by rewrite abort_noop.
    + left. destruct (decide (other = requestId)) as [->|Hne].
      * simpl. by rewrite handler_unknown.
      * destruct (perform_foreign atob (Event other eventName data) requestId pg Hne)
          as (_ & Hm & He).
        rewrite Hm, He. split; [|done]. simpl.
        unfold GM_xmlhttpRequest_callback_handler. by repeat case_match.
    + left. simpl in Hmis. apply Nat.eqb_neq in Hmis.
      destruct (perform_foreign atob (BridgeError other d) requestId pg Hmis)
        as (_ & Hm & He).
      rewrite Hm, He. done.
  - (* issued *)
    right. destruct (requestMap pg !! requestId) as [d0|] eqn:Hreg.
    + (* registered *)
      rewrite (Hpend (mk_is_Some _ _ eq_refl)), app_nil_r in Hev.
      assert (∀ a', match a' with
                    | Call _ => S (requestIdCounter pg) ≠ requestId
                    | AbortHandle _ => True
                    | Event other _ _ | BridgeError other _ => other ≠ requestId
                    end →
                    requestId ≤ requestIdCounter (perform atob a' pg)
                    ∧ ∃ before' closing',
                        eventsOf requestId (perform atob a' pg) = before' ++ closing'
                        ∧ Forall (λ e, isFinalEvent e = false) before'
                        ∧ length closing' ≤ 1
                        ∧ (is_Some (requestMap (perform atob a' pg) !! requestId)
                           → closing' = [])) as Hother.
      { intros a' Ha'. destruct (perform_foreign atob a' requestId pg Ha') as (Hc & Hm & He).
        split; [lia|]. exists before, []. rewrite He, Hev, app_nil_r.
        repeat split; try done. simpl. lia. }
      destruct a as [d|other|other eventName data|other d].
      * apply Hother. lia.
      * by apply Hother.
      * destruct (decide (other = requestId)) as [->|Hne]; [|by apply Hother].
        simpl. unfold GM_xmlhttpRequest_callback_handler, eventsOf in *.
        rewrite Hreg. split; [by repeat case_match|].
        assert (∀ (name : string) (m : gmap nat details),
                  m !! requestId = None →
                  ∃ before' closing',
                    filter (λ e : nat * string, e.1 = requestId)
                      (callIfFunction d0 requestId name (delivered pg))
                    = before' ++ closing'
                    ∧ Forall (λ e, isFinalEvent e = false) before'
                    ∧ length closing' ≤ 1
                    ∧ (is_Some (m !! requestId) → closing' = [])) as Hclose.
        { intros name m Hm. rewrite filter_callIfFunction, Hev, decide_True by done.
          exists before, (if hasName name (d_handlers d0)
                          then [(requestId, name)] else []).
          split; [done|]. split; [done|].
          split; [destruct (hasName name (d_handlers d0)); simpl; lia|].
          rewrite Hm. by intros [? ?]. }
        destruct (match response data with BString _ => _ | _ => false end).
        { cbn [delivered requestMap]. apply Hclose, lookup_delete_eq. }
        destruct (hasName eventName finalEvents) eqn:Hfinal; cbn [delivered requestMap].
        { apply Hclose, lookup_delete_eq. }
        rewrite filter_callIfFunction, Hev, decide_True by done.
        eexists _, []. split; [by rewrite app_nil_r|].
        split; [|split; [simpl; lia | done]].
        apply Forall_app. split; [done|].
        destruct (hasName eventName (d_handlers d0)); [|done].
        by repeat constructor.
      * simpl in Hmis. apply Nat.eqb_neq in Hmis. by apply Hother.
    + (* retired *)
      destruct (perform_retired atob a requestId pg Hle Hreg
                  (misfires_isBridgeError _ _ Hmis)) as (Hle' & Hnone' & He).
      split; [done|]. exists before, closing. rewrite He, Hnone'.
      repeat (split; [done|]). by intros [? ?].
Qed.

Lemma performAll_tracked acts : ∀ requestId pg,
  Forall (λ a, misfires requestId a = false) acts →
  tracked requestId pg → tracked requestId (performAll atob acts pg).
Proof.
  induction acts as [|a acts IH]; intros requestId pg Hacts H; [done|].
  apply Forall_cons in Hacts as [Ha Hacts].
  simpl. by apply IH, perform_tracked.
Qed.

Lemma tracked_fresh requestId pg :
  requestIdCounter pg < requestId → requestMap pg !! requestId = None →
  eventsOf requestId pg = [] → tracked requestId pg.
Proof. intros. by left. Qed.

End CallbackFacts.

(** X13. The callbacks of one request. For an identifier that is not issued
    yet, whatever the page does from then on (calls of [GM_xmlhttpRequest]
    with or without URL, uses of abort handles, calls of the handler for any
    identifier by the host or by page code, in any order and with
    repetitions, decodable or not), as long as no refused call leaves by an
    exception of its [onerror] callback and the bridge call of the request
    is not rejected: the callbacks of the caller for that identifier are
    callbacks of events that are not final, followed by at most one more
    callback; and as long as the request is registered that last callback
    has not happened. So at most one final callback is called for the
    request, and none after it. *)
Theorem final_callback_is_last (atob : string → completion string)
    (acts : list pageAction) (pg : page) (requestId : nat) :
  requestIdCounter pg < requestId →
  requestMap pg !! requestId = None →
  eventsOf requestId pg = [] →
  Forall (λ a, misfires requestId a = false) acts →
  let pg' := performAll atob acts pg in
  ∃ before closing,
    eventsOf requestId pg' = before ++ closing
    ∧ Forall (λ e, isFinalEvent e = false) before
    ∧ length closing ≤ 1
    ∧ (is_Some (requestMap pg' !! requestId) → closing = []).
Proof.
  intros Hlt Hnone Hev Hacts pg'.
  pose proof (performAll_tracked atob acts requestId pg Hacts
                (tracked_fresh requestId pg Hlt Hnone Hev)) as H.
  destruct H as [(Hlt' & Hnone' & Hev') | (_ & H)]; [|done].
  exists [], []. fold pg' in Hev', Hnone'. rewrite Hev', Hnone'.
  split; [done|]. split; [done|]. split; [simpl; lia|]. by intros [? ?].
Qed.

Lemma final_callback_is_last_witness :
  requestIdCounter initialPage < 1
  ∧ requestMap initialPage !! 1 = None
  ∧ eventsOf 1 initialPage = []
  ∧ Forall (λ a, misfires 1 a = false) exampleActions
  ∧ (let pg' := performAll exampleAtob exampleActions initialPage in
     ∃ before closing,
       eventsOf 1 pg' = before ++ closing
       ∧ Forall (λ e, isFinalEvent e = false) before
       ∧ length closing ≤ 1
       ∧ (is_Some (requestMap pg' !! 1) → closing = [])).
Proof.
  split; [simpl; lia|]. split; [reflexivity|]. split; [reflexivity|].
  split; [repeat constructor|].
  apply (final_callback_is_last exampleAtob exampleActions initialPage 1);
    [simpl; lia | reflexivity | reflexivity | repeat constructor].
Defined.

(** In the example the caller hears [onload] once. *)
Example final_callback_example :
  delivered (performAll exampleAtob exampleActions initialPage) = [(1, "onload")].
Proof. vm_compute. reflexivity. Qed.

(** The two exceptions. A refused call whose [onerror] throws stays
    registered, so that a later call of the handler reaches the caller
    again; and the rejection of a bridge call calls [onerror] after
    [onload]. *)
Example final_callback_twice :
  delivered (performAll exampleAtob [Call throwingCall; Event 1 "onload" emptyData]
               initialPage)
  = [(1, "onerror"); (1, "onload")]
  ∧ delivered (performAll exampleAtob
                 [Call plainCall; Event 1 "onload" emptyData; BridgeError 1 plainCall]
                 initialPage)
    = [(1, "onload"); (1, "onerror")].
Proof. split; vm_compute; reflexivity. Qed.

Section CallFacts.

Variable toBase64 : string → string.
Variable atob : string → completion string.
Variable platformMessage : exn → string.

Lemma callIfFunction_app d requestId eventName log :
  callIfFunction d requestId eventName log
  = log ++ (if hasName eventName (d_handlers d) then [(requestId, eventName)] else []).
Proof.
  unfold callIfFunction. destruct (hasName _ _); [done|]. by rewrite app_nil_r.
Qed.



End CallFacts.

(** X14. A call of [GM_xmlhttpRequest] whose [url] is missing, empty or not
    a string never reaches the host, and the caller's [onerror] callback, if
    there is one, is called at once and once. When that callback returns (or
    there is none), the request is not kept, a dummy handle is returned, and
    whatever the page does afterwards, short of a rejection of a bridge call
    that was never made, no further callback is called for its identifier.
    When that callback throws, the exception leaves [GM_xmlhttpRequest] and
    the request stays registered. *)
Theorem call_without_url_fails_at_once (toBase64 : string → string)
    (atob : string → completion string) (platformMessage : exn → string)
    (d : details) (pg : page) :
  truthy (d_url d) = false →
  let requestId := (GM_xmlhttpRequest d pg).1.1 in
  let pg' := (GM_xmlhttpRequest d pg).1.2 in
  let outcome := (GM_xmlhttpRequest d pg).2 in
  requestId = S (requestIdCounter pg)
  ∧ (∀ meanwhile latency settled pageClosed,
       request toBase64 atob platformMessage d meanwhile latency settled pageClosed pg
       = (requestId, pg'))
  ∧ delivered pg'
    = delivered pg ++ (if hasName "onerror" (d_handlers d)
                       then [(requestId, "onerror")] else [])
  ∧ (callThrows d = false →
     outcome = Normal false
     ∧ requestMap pg' !! requestId = None
     ∧ ∀ acts, Forall (λ a, isBridgeError requestId a = false) acts →
               eventsOf requestId (performAll atob acts pg') = eventsOf requestId pg')
  ∧ (callThrows d = true →
     (∃ e, d_onerrorThrows d = Some e ∧ outcome = Throw e)
     ∧ requestMap pg' !! requestId = Some d).
Proof.
  intros Hurl. unfold request, GM_xmlhttpRequest, callThrows. rewrite Hurl.
  cbn [negb andb].
  destruct (hasName "onerror" (d_handlers d)) eqn:Hcb;
    [destruct (d_onerrorThrows d) as [e|]|];
    cbn [fst snd delivered requestMap]; rewrite callIfFunction_app, Hcb;
    (split; [done|]); (split; [done|]); (split; [done|]); split; try done.
  - intros _. split; [by exists e|]. apply lookup_insert_eq.
  - intros _. split; [done|]. split; [apply lookup_delete_eq|].
    intros acts Hacts. apply performAll_retired; simpl; [lia | apply lookup_delete_eq | done].
  - intros _. split; [done|]. split; [apply lookup_delete_eq|].
    intros acts Hacts. apply performAll_retired; simpl; [lia | apply lookup_delete_eq | done].
Qed.

Lemma call_without_url_fails_at_once_witness :
  truthy (d_url throwingCall) = false
  ∧ (let requestId := (GM_xmlhttpRequest throwingCall initialPage).1.1 in
     let pg' := (GM_xmlhttpRequest throwingCall initialPage).1.2 in
     let outcome := (GM_xmlhttpRequest throwingCall initialPage).2 in
     requestId = S (requestIdCounter initialPage)
     ∧ (∀ meanwhile latency settled pageClosed,
          request exampleToBase64 exampleAtob exampleMessage throwingCall meanwhile
            latency settled pageClosed initialPage
          = (requestId, pg'))
     ∧ delivered pg'
       = delivered initialPage ++ (if hasName "onerror" (d_handlers throwingCall)
                                   then [(requestId, "onerror")] else [])
     ∧ (callThrows throwingCall = false →
        outcome = Normal false
        ∧ requestMap pg' !! requestId = None
        ∧ ∀ acts, Forall (λ a, isBridgeError requestId a = false) acts →
                  eventsOf requestId (performAll exampleAtob acts pg')
                  = eventsOf requestId pg')
     ∧ (callThrows throwingCall = true →
        (∃ e, d_onerrorThrows throwingCall = Some e ∧ outcome = Throw e)
        ∧ requestMap pg' !! requestId = Some throwingCall)).
Proof.
  split; [reflexivity|].
  apply (call_without_url_fails_at_once exampleToBase64 exampleAtob exampleMessage
           throwingCall initialPage).
  reflexivity.
Defined.



(** ** Opening a tab *)

(** X16. With the bridge in place, [GM_openInTab] makes the host open a page
    and load the URL in it, whatever the options. When both calls succeed
    and the original page is open, the original page is brought back to the
    front exactly when the options are the boolean [true] or an object whose
    [active] property is [false]: a boolean is read as the wish to open the
    tab in the background, and in every other case, and without options, the
    new tab keeps the focus. *)
Theorem open_in_tab_focus (w : browserAnswers) (url : string) (options : value) :
  newPageThrows w = false → gotoThrows w = false → pageIsClosed w = false →
  let steps := GM_openInTab true w url options in
  take 2 steps = [NewPage; Goto url]
  ∧ (steps = [NewPage; Goto url] ∨ steps = [NewPage; Goto url; BringToFront])
  ∧ (BringToFront ∈ steps ↔
     options = VBool true
     ∨ ∃ props, options = VObject props ∧ getProperty options "active" = VBool false).
Proof.
  intros Hn Hg Hc. unfold GM_openInTab, GM_openInTab_bridge. rewrite Hn, Hg, Hc.
  cbn [negb getProperty list_find]. rewrite decide_True by done.
  cbn [fmap option_fmap option_map truthyValue andb].
  rewrite negb_involutive, andb_true_r.
  assert (openInBackground options = true ↔
          options = VBool true
          ∨ ∃ props, options = VObject props
                     ∧ getProperty options "active" = VBool false) as Hb.
  { unfold openInBackground. destruct options as [| |[]|n|s|items|props]; simpl.
    all: try (split; [done | by intros [[=] | (props' & [=] & _)]]).
    - split; [by left | done].
    - split.
      + destruct (match list_find _ props with Some _ => _ | None => _ end)
          as [| |[]| | | |] eqn:E; try done.
        intros _. right. by exists props.
      + intros [[=] | (props' & [= <-] & ->)]. done. }
  destruct (openInBackground options); cbn [take].
  - split; [done|]. split; [by right|]. rewrite <-Hb. split; [done|].
    intros _. by repeat constructor.
  - split; [done|]. split; [by left|]. rewrite <-Hb. split; [|done].
    intros [[=] | [[=] | []%elem_of_nil]%elem_of_cons]%elem_of_cons.
Qed.

Lemma open_in_tab_focus_witness :
  newPageThrows (BrowserAnswers false false false) = false
  ∧ gotoThrows (BrowserAnswers false false false) = false
  ∧ pageIsClosed (BrowserAnswers false false false) = false
  ∧ (let steps := GM_openInTab true (BrowserAnswers false false false)
                    "https://example.com/" (VBool true) in
     take 2 steps = [NewPage; Goto "https://example.com/"]
     ∧ (steps = [NewPage; Goto "https://example.com/"]
        ∨ steps = [NewPage; Goto "https://example.com/"; BringToFront])
     ∧ (BringToFront ∈ steps ↔
        VBool true = VBool true
        ∨ ∃ props, VBool true = VObject props
                   ∧ getProperty (VBool true) "active" = VBool false)).
Proof.
  split; [reflexivity|]. split; [reflexivity|]. split; [reflexivity|].
  apply (open_in_tab_focus (BrowserAnswers false false false)
           "https://example.com/" (VBool true)); reflexivity.
Defined.

(** ** From the script file to the plan *)

Lemma urlMatches_accepting URL_new patterns urlString u pattern re :
  URL_new urlString = Normal u →
  protocol u = "http:" ∨ protocol u = "https:" →
  pattern ∈ patterns →
  matchPatternToRegExp pattern = Normal (Matcher re) →
  test re (origin u +:+ pathname u +:+ search u) = true →
  urlMatches URL_new patterns urlString = Normal true.
Proof.
  intros Hu Hp Hin Hc Ht. unfold urlMatches, parseTarget. rewrite Hu. simpl.
  assert (String.eqb (protocol u) "http:" || String.eqb (protocol u) "https:" = true)
    as -> by (destruct Hp as [-> | ->]; reflexivity).
  simpl. apply anyPatternMatches_iff. eauto.
Qed.

(** X17. From the file to the plan. A script file of the listed directory
    whose name ends in [.user.js], that can be read, whose metadata are
    parsed, and one of whose [@match] entries is a pattern with a well-used
    host star that admits the target (an http or https URL, taken without
    its fragment), is scheduled: the plan holds, in the phase of the run-at
    of the script, a record with the path and the text of that file. *)
Theorem matching_script_is_scheduled (URL_new : string → completion URL)
    (fs : fileSystem) (directory : string) (files : list string)
    (file text : string) (md : metadata) (pattern : string) (g : patternGroups)
    (targetUrl : string) (u : URL) :
  readdir fs directory = inr files →
  file ∈ files →
  JS.endsWith file ".user.js" = true →
  readFile fs (path_join fs directory file) = Some text →
  parseMetadata text = Normal md →
  pattern ∈ md_match md →
  matchPatternGroups pattern = Some g →
  hostWildcardOk (mhost g) = true →
  URL_new targetUrl = Normal u →
  protocol u = "http:" ∨ protocol u = "https:" →
  accepts g (origin u +:+ pathname u +:+ search u) →
  ∃ catalog plan scheduled s,
    loadUserscripts fs directory = Normal catalog
    ∧ scriptsToInject URL_new catalog targetUrl = Normal plan
    ∧ plan !! md_runAt md = Some scheduled
    ∧ s ∈ scheduled
    ∧ path s = path_join fs directory file
    ∧ content s = text.
Proof.
  intros Hdir Hfile Hext Hread Hmd Hpat Hg Hh Hu Hp Hacc.
  assert (md_match md ≠ []) as Hne by (intros E; rewrite E in Hpat; by apply elem_of_nil in Hpat).
  destruct (loadScript_complete fs directory file text md Hext Hread Hmd Hne)
    as (s & Hs & Hc & Hm).
  pose proof (loadScript_spec _ _ _ _ Hs) as (Hpath & _ & md' & Hmd' & _ & _ & Hr).
  rewrite Hc, Hmd in Hmd'. injection Hmd' as <-.
  assert (loadUserscripts fs directory = Normal (omap (loadScript fs directory) files))
    as Hl by (unfold loadUserscripts; by rewrite Hdir).
  assert (s ∈ omap (loadScript fs directory) files) as Hin
    by (apply list_elem_of_omap; eauto).
  pose proof (loadUserscripts_runAt _ _ _ _ Hl Hin) as Hv.
  eexists _, _, _, s. split; [exact Hl|].
  split; [by eapply scriptsToInject_planOf|].
  rewrite <-Hr. split; [by apply planOf_lookup|].
  split; [|done]. unfold phaseOf. apply list_elem_of_filter. split; [|done].
  split; [|done]. unfold matchesUrl.
  rewrite (urlMatches_accepting URL_new (matchPatterns s) targetUrl u pattern (compiled g));
    try done.
  - by rewrite Hm.
  - by apply matchPatternToRegExp_compiled.
  - apply test_compiled; [|done]. by apply matchPatternGroups_inv in Hg as (? & _).
Qed.

Lemma matching_script_is_scheduled_witness :
  readdir exampleFs "scripts"
  = inr ["a.user.js"; "b.user.js"; "c.user.js"; "d.user.js"; "e.user.js"; "notes.txt"]
  ∧ matchPatternGroups "*://example.com/*"
    = Some (PatternGroups "*" "example.com" (Some "/*"))
  ∧ URL_examples "https://example.com/"
    = Normal (MkURL "https:" "https://example.com" "/" "")
  ∧ accepts (PatternGroups "*" "example.com" (Some "/*")) "https://example.com/"
  ∧ ∃ catalog plan scheduled s,
      loadUserscripts exampleFs "scripts" = Normal catalog
      ∧ scriptsToInject URL_examples catalog "https://example.com/" = Normal plan
      ∧ plan !! "document-end" = Some scheduled
      ∧ s ∈ scheduled
      ∧ path s = path_join exampleFs "scripts" "a.user.js"
      ∧ content s = scriptA.
Proof.
  assert (accepts (PatternGroups "*" "example.com" (Some "/*")) "https://example.com/")
    as Hacc.
  { exists "https", "example.com", "/". split; [reflexivity|].
    split; [by right|]. split; reflexivity. }
  split; [reflexivity|]. split; [reflexivity|]. split; [reflexivity|].
  split; [exact Hacc|].
  refine (matching_script_is_scheduled URL_examples exampleFs "scripts" _ "a.user.js"
            scriptA (Metadata ["*://example.com/*"; "https://example.com/*"]
                       "document-end" ["A"] _)
            "*://example.com/*" (PatternGroups "*" "example.com" (Some "/*"))
            "https://example.com/" (MkURL "https:" "https://example.com" "/" "")
            eq_refl _ eq_refl eq_refl _ _ eq_refl eq_refl eq_refl (or_intror eq_refl) Hacc).
  - by left.
  - vm_compute. reflexivity.
  - by left.
Defined.

(** ** The hidden method, in general *)

Section ShadowFacts.

Lemma setProperty_keeps o key v k :
  is_Some (own o !! k) → is_Some (own (setProperty o key v) !! k).
Proof.
  intros Hk. unfold setProperty. destruct (own o !! key) eqn:Hkey; simpl.
  - destruct (decide (k = key)) as [->|Hne];
      [by rewrite lookup_insert_eq | by rewrite lookup_insert_ne].
  - destruct (_ && _).
    + by destruct v.
    + simpl. rewrite lookup_insert_ne; [done|]. intros <-.
      rewrite Hkey in Hk. by destruct Hk.
Qed.

Lemma hasOwnProperty_shadowed o key :
  is_Some (own o !! "hasOwnProperty") → hasOwnProperty o key = Throw TypeError.
Proof. intros [v Hv]. unfold hasOwnProperty. by rewrite Hv. Qed.

Lemma runCall_shadowed st c :
  is_Some (own (gmStorage st) !! "hasOwnProperty") →
  is_Some (own (gmStorage (runCall st c)) !! "hasOwnProperty").
Proof.
  intros Hs. destruct c as [key v|key]; simpl.
  - unfold GM_setValue. simpl. destruct (invalidKey key); [done|].
    simpl. by apply setProperty_keeps.
  - unfold GM_deleteValue. simpl. destruct (invalidKey key); [done|].
    unfold gmDeleteValueBridge. by rewrite hasOwnProperty_shadowed.
Qed.

Lemma runCalls_shadowed calls : ∀ st,
  is_Some (own (gmStorage st) !! "hasOwnProperty") →
  is_Some (own (gmStorage (runCalls calls st)) !! "hasOwnProperty").
Proof.
  induction calls as [|c calls IH]; intros st Hs; [done|].
  simpl. by apply IH, runCall_shadowed.
Qed.

End ShadowFacts.

(** X19. Once a value is stored under the key [hasOwnProperty], the store
    stays broken: whatever [GM_setValue] and [GM_deleteValue] calls follow,
    with whatever keys, the key is still there, and every [GM_getValue] and
    every [GM_deleteValue] with a valid key is rejected, with the TypeError
    of the host, and changes nothing, so that no call can remove the key. *)
Theorem shadowed_method_breaks_store (calls : list storageCall) (st : storage)
    (key defaultValue : value) :
  is_Some (own (gmStorage st) !! "hasOwnProperty") →
  invalidKey key = false →
  let st' := runCalls calls st in
  is_Some (own (gmStorage st') !! "hasOwnProperty")
  ∧ GM_getValue true key defaultValue st' = Throw TypeError
  ∧ GM_deleteValue true key st' = (Throw TypeError, st').
Proof.
  intros Hs Hk st'. pose proof (runCalls_shadowed calls st Hs) as Hs'. fold st' in Hs'.
  split; [done|]. unfold GM_getValue, GM_deleteValue, gmGetValueBridge, gmDeleteValueBridge.
  simpl. by rewrite Hk, hasOwnProperty_shadowed by done.
Qed.

Lemma shadowed_method_breaks_store_witness :
  is_Some (own (gmStorage shadowedStorage) !! "hasOwnProperty")
  ∧ invalidKey (VString "a") = false
  ∧ (let st' := runCalls [CallSet (VString "a") (VNumber 2);
                          CallDelete (VString "hasOwnProperty")] shadowedStorage in
     is_Some (own (gmStorage st') !! "hasOwnProperty")
     ∧ GM_getValue true (VString "a") VNull st' = Throw TypeError
     ∧ GM_deleteValue true (VString "a") st' = (Throw TypeError, st')).
Proof.
  assert (is_Some (own (gmStorage shadowedStorage) !! "hasOwnProperty")) as Hs
    by (by exists (VNumber 1)).
  split; [exact Hs|]. split; [reflexivity|].
  exact (shadowed_method_breaks_store
           [CallSet (VString "a") (VNumber 2); CallDelete (VString "hasOwnProperty")]
           shadowedStorage (VString "a") VNull Hs eq_refl).
Defined.
